(** * The iterative execution engine of the SpMV harness (BFS application)

    A shallow embedding of [src/app/bfs.cpp] (class [HarnessBFS]) and of the
    parts of [src/inc/harness.h] (classes [Harness] and [IterativeHarness])
    that it drives, followed by the properties of the iteration loop, the
    trial aggregation and the correctness checker, and by further
    properties of the device operations, the buffer layout, the resets
    between trials and the timeout.

    Conventions of the embedding:
    - a [std::vector<char>] is a [list byte]; an [int] read through a
      reinterpreted pointer is decoded from four bytes;
    - an [unsigned int] loop counter is a [Z] reduced modulo [2^32] after
      every increment;
    - a loop that the C++ code may run for ever takes a fuel argument and
      answers [None] when the fuel is used up;
    - the OpenCL runtime is a record holding the device memory, the
      argument table of the kernel and the log of the API calls made;
      every API call is taken to succeed ([checkCLError] ends the process
      otherwise);
    - timers and log output ([start_timer], [LOG_DEBUG_INFO],
      [printCharVector], [report_timing]) leave no trace in the model. *)

From Stdlib Require Import ZArith Lia QArith.
From Stdlib Require Import Strings.Byte.
From stdpp Require Import base option list gmap sorting.

Local Open Scope Z_scope.

(** ** Machine integers and bytes *)

Definition wrap (w : Z) (x : Z) : Z := x mod 2 ^ w.

Definition to_signed (w : Z) (x : Z) : Z :=
  if x <? 2 ^ (w - 1) then x else x - 2 ^ w.

Definition byte_val (b : byte) : Z := Z.of_N (Byte.to_N b).

(** [buf.size()] *)
Definition vsize {A} (buf : list A) : Z := Z.of_nat (length buf).

(** [buf.data()[k]] for a byte offset [k]. *)
Definition byte_at (buf : list byte) (k : Z) : byte :=
  nth (Z.to_nat k) buf x00.

(** The unsigned 32-bit word held in bytes [4i .. 4i+3] (least significant
    byte first). *)
Definition load_word (buf : list byte) (i : Z) : Z :=
  byte_val (byte_at buf (4 * i))
  + 2 ^ 8 * byte_val (byte_at buf (4 * i + 1))
  + 2 ^ 16 * byte_val (byte_at buf (4 * i + 2))
  + 2 ^ 24 * byte_val (byte_at buf (4 * i + 3)).

(** [reinterpret_cast<int *>(buf.data())[i]] *)
Definition load_int (buf : list byte) (i : Z) : Z :=
  to_signed 32 (load_word buf i).

(** The four bytes of element [i], for stating that two elements are
    bitwise equal. *)
Definition elem_bytes (buf : list byte) (i : Z) : list byte :=
  [byte_at buf (4 * i); byte_at buf (4 * i + 1);
   byte_at buf (4 * i + 2); byte_at buf (4 * i + 3)].

(** ** Records of the harness *)

(** [run.h]: the work shape of one benchmarked configuration. *)
Record Run := mkRun {
  global1 : Z; global2 : Z; global3 : Z;
  local1 : Z; local2 : Z; local3 : Z
}.

Inductive Correctness := NOT_CHECKED | CORRECT | BAD_LENGTH | BAD_VALUES.

Inductive StatType := RAW_RESULT | MEDIAN_RESULT | MULTI_ITERATION_SUM.

(** [sql_stat.h]: one timing record.  The constructor is called with the
    trial and the iteration left out in places; an argument left out is
    [None] here. *)
Record SqlStat := mkSqlStat {
  getTime : Z;
  getCorrectness : Correctness;
  getGlobal : Z;
  getLocal : Z;
  getStatType : StatType;
  getTrial : option Z;
  getIteration : option Z
}.

(** A device buffer handle ([cl_mem]). *)
Definition cl_mem := nat.

(** [ArgContainer<int>]: what the harness is built from. *)
Record ArgContainer := mkArgContainer {
  m_idxs : list byte;
  m_vals : list byte;
  x_vect : list byte;
  y_vect : list byte;
  alpha : Z;
  beta : Z;
  output : nat;
  temp_globals : list nat;
  temp_locals : list nat;
  size_args : list Z
}.

(** [CLMemoryManager<int>]: device handles, the two argument indices and
    the host shadow buffers. *)
Record CLMemoryManager := mkCLMemoryManager {
  _matrix_idxs : cl_mem;
  _matrix_vals : cl_mem;
  _x_vect : cl_mem;
  _y_vect : cl_mem;
  _output : cl_mem;
  _temp_global : list cl_mem;
  _input_idx : nat;
  _output_idx : nat;
  _input_host_buffer : list byte;
  _output_host_buffer : list byte;
  _temp_out_buffer : list byte
}.

(** What [clSetKernelArg] binds to a slot. *)
Inductive KArg :=
  | GlobalArg (m : cl_mem)
  | ValueArg (size : nat) (v : Z)
  | LocalArg (size : nat).

(** The OpenCL API calls that the harness makes. *)
Inductive CLCall :=
  | SetKernelArg (slot : nat) (a : KArg)
  | EnqueueNDRangeKernel (r : Run)
  | EnqueueFillBuffer (m : cl_mem) (size : nat)
  | EnqueueReadBuffer (m : cl_mem) (len : nat)
  | EnqueueWriteBuffer (m : cl_mem) (len : nat)
  | CreateBuffer (m : cl_mem) (len : nat).

(** The compiled kernel is opaque: from the work shape, its bound
    arguments and the device memory it yields the new device memory and the
    start and end time stamps of the execution ([cl_ulong]). *)
Definition Kernel : Type :=
  Run → gmap nat KArg → gmap cl_mem (list byte) →
  gmap cl_mem (list byte) * (Z * Z).

(** The state behind [_context], [_queue] and [_kernel]. *)
Record CLState := mkCLState {
  dev_mem : gmap cl_mem (list byte);
  kernel_args : gmap nat KArg;
  next_mem : cl_mem;
  cl_log : list CLCall
}.

(** [Harness<std::vector<SqlStat>, int>] *)
Record Harness := mkHarness {
  _kernel : Kernel;
  _cl : CLState;
  _args : ArgContainer;
  _mem_manager : CLMemoryManager;
  _trials : Z;
  _timeout : Z;
  _delta : Q
}.

(** ** Termination test of the iteration *)

(** The [for] loop of [should_terminate_iteration]: [i] is an
    [unsigned int], the lengths are [size_t]. *)
Fixpoint sti_loop (fuel : nat) (input output : list byte)
    (input_length output_length : Z) (equal : bool) (i : Z) : option bool :=
  match fuel with
  | O => None
  | S fuel' =>
      if equal && (i <? input_length) && (i <? output_length)
      then sti_loop fuel' input output input_length output_length
             (load_int input i =? load_int output i) (wrap 32 (i + 1))
      else Some equal
  end.

(** [HarnessBFS::should_terminate_iteration].  The fuel is one more than
    the shorter length: the loop either leaves within that many tests or
    its counter has wrapped over elements that are all equal, and it never
    leaves. *)
Definition should_terminate_iteration (this : Harness)
    (input output : list byte) : option bool :=
  let input_length := vsize input / 4 in
  let output_length := vsize output / 4 in
  sti_loop (S (Z.to_nat (Z.min input_length output_length)))
    input output input_length output_length true 0.

(** ** Device operations of [Harness] *)

Definition set_cl (cl : CLState) (h : Harness) : Harness :=
  {| _kernel := _kernel h; _cl := cl; _args := _args h;
     _mem_manager := _mem_manager h; _trials := _trials h;
     _timeout := _timeout h; _delta := _delta h |}.

Definition set_mem_manager (mm : CLMemoryManager) (h : Harness) : Harness :=
  {| _kernel := _kernel h; _cl := _cl h; _args := _args h;
     _mem_manager := mm; _trials := _trials h;
     _timeout := _timeout h; _delta := _delta h |}.

(** The contents of a device buffer; a handle that was never created has
    none. *)
Definition mem_bytes (cl : CLState) (m : cl_mem) : list byte :=
  default [] (dev_mem cl !! m).

(** [setGlobalArg(arg, mem)]: [clSetKernelArg] copies the handle that
    [mem] points to into slot [arg]; the caller's dereference is done at
    the call site here. *)
Definition setGlobalArg (arg : nat) (mem : cl_mem) (h : Harness) : Harness :=
  let cl := _cl h in
  set_cl {| dev_mem := dev_mem cl;
            kernel_args := <[arg := GlobalArg mem]> (kernel_args cl);
            next_mem := next_mem cl;
            cl_log := cl_log cl ++ [SetKernelArg arg (GlobalArg mem)] |} h.

(** [setValueArg<ValueType>(arg, val)] *)
Definition setValueArg (size : nat) (arg : nat) (val : Z) (h : Harness)
    : Harness :=
  let cl := _cl h in
  set_cl {| dev_mem := dev_mem cl;
            kernel_args := <[arg := ValueArg size val]> (kernel_args cl);
            next_mem := next_mem cl;
            cl_log := cl_log cl ++ [SetKernelArg arg (ValueArg size val)] |} h.

(** [setLocalArg(arg, size)] *)
Definition setLocalArg (arg : nat) (size : nat) (h : Harness) : Harness :=
  let cl := _cl h in
  set_cl {| dev_mem := dev_mem cl;
            kernel_args := <[arg := LocalArg size]> (kernel_args cl);
            next_mem := next_mem cl;
            cl_log := cl_log cl ++ [SetKernelArg arg (LocalArg size)] |} h.

(** [createGlobalArg(size)]: a fresh buffer; its contents are whatever
    the device holds, taken as zero bytes. *)
Definition createGlobalArg (size : nat) (h : Harness) : cl_mem * Harness :=
  let cl := _cl h in
  let buffer := next_mem cl in
  (buffer,
   set_cl {| dev_mem := <[buffer := replicate size x00]> (dev_mem cl);
             kernel_args := kernel_args cl;
             next_mem := S buffer;
             cl_log := cl_log cl ++ [CreateBuffer buffer size] |} h).

(** [createAndUploadGlobalArg(arg, output)]: the access flag chosen by
    [output] does not change what the buffer holds. *)
Definition createAndUploadGlobalArg (arg : list byte) (output : bool)
    (h : Harness) : cl_mem * Harness :=
  let cl := _cl h in
  let buffer := next_mem cl in
  let len := length arg in
  (buffer,
   set_cl {| dev_mem := <[buffer := arg]> (dev_mem cl);
             kernel_args := kernel_args cl;
             next_mem := S buffer;
             cl_log := cl_log cl ++
               [CreateBuffer buffer len; EnqueueWriteBuffer buffer len] |} h).

(** [writeToGlobalArg(arg, buffer)]: the first [arg.size()] bytes of the
    buffer are overwritten. *)
Definition writeToGlobalArg (arg : list byte) (buffer : cl_mem) (h : Harness)
    : Harness :=
  let cl := _cl h in
  let len := length arg in
  set_cl {| dev_mem := <[buffer := arg ++ drop len (mem_bytes cl buffer)]>
                         (dev_mem cl);
            kernel_args := kernel_args cl;
            next_mem := next_mem cl;
            cl_log := cl_log cl ++ [EnqueueWriteBuffer buffer len] |} h.

(** [fillGlobalArg(buffer_size, buffer)]: the first [buffer_size] bytes
    become zero. *)
Definition fillGlobalArg (buffer_size : nat) (buffer : cl_mem) (h : Harness)
    : Harness :=
  let cl := _cl h in
  set_cl {| dev_mem :=
              <[buffer := replicate buffer_size x00
                            ++ drop buffer_size (mem_bytes cl buffer)]>
                (dev_mem cl);
            kernel_args := kernel_args cl;
            next_mem := next_mem cl;
            cl_log := cl_log cl ++ [EnqueueFillBuffer buffer buffer_size] |} h.

(** What [clEnqueueReadBuffer] leaves in a host vector of [length arg]
    bytes. *)
Definition read_into (arg : list byte) (device : list byte) : list byte :=
  take (length arg) (device ++ drop (length device) arg).

(** The two host shadow vectors that [executeRun] points into. *)
Inductive HostPtr := ptr_input_host_buffer | ptr_output_host_buffer.

(** The two handle fields that [executeRun] points into. *)
Inductive MemPtr := ptr_x_vect | ptr_output.

Definition deref_host (mm : CLMemoryManager) (p : HostPtr) : list byte :=
  match p with
  | ptr_input_host_buffer => _input_host_buffer mm
  | ptr_output_host_buffer => _output_host_buffer mm
  end.

Definition deref_mem (mm : CLMemoryManager) (p : MemPtr) : cl_mem :=
  match p with
  | ptr_x_vect => _x_vect mm
  | ptr_output => _output mm
  end.

Definition store_host (p : HostPtr) (v : list byte) (mm : CLMemoryManager)
    : CLMemoryManager :=
  {| _matrix_idxs := _matrix_idxs mm; _matrix_vals := _matrix_vals mm;
     _x_vect := _x_vect mm; _y_vect := _y_vect mm; _output := _output mm;
     _temp_global := _temp_global mm;
     _input_idx := _input_idx mm; _output_idx := _output_idx mm;
     _input_host_buffer :=
       match p with
       | ptr_input_host_buffer => v
       | ptr_output_host_buffer => _input_host_buffer mm
       end;
     _output_host_buffer :=
       match p with
       | ptr_input_host_buffer => _output_host_buffer mm
       | ptr_output_host_buffer => v
       end;
     _temp_out_buffer := _temp_out_buffer mm |}.

Definition set_temp_out_buffer (v : list byte) (mm : CLMemoryManager)
    : CLMemoryManager :=
  {| _matrix_idxs := _matrix_idxs mm; _matrix_vals := _matrix_vals mm;
     _x_vect := _x_vect mm; _y_vect := _y_vect mm; _output := _output mm;
     _temp_global := _temp_global mm;
     _input_idx := _input_idx mm; _output_idx := _output_idx mm;
     _input_host_buffer := _input_host_buffer mm;
     _output_host_buffer := _output_host_buffer mm;
     _temp_out_buffer := v |}.

(** [readFromGlobalArg(arg, buffer)], [arg] being one of the two host
    shadow vectors.  The runtime refuses a read of no bytes and a read
    past the end of the buffer, and [checkCLError] then ends the process;
    by the convention above this is the read that succeeds. *)
Definition readFromGlobalArg (arg : HostPtr) (buffer : cl_mem) (h : Harness)
    : Harness :=
  let cl := _cl h in
  let mm := _mem_manager h in
  let host := deref_host mm arg in
  set_mem_manager (store_host arg (read_into host (mem_bytes cl buffer)) mm)
    (set_cl {| dev_mem := dev_mem cl;
               kernel_args := kernel_args cl;
               next_mem := next_mem cl;
               cl_log := cl_log cl ++ [EnqueueReadBuffer buffer (length host)] |}
       h).

(** [executeKernel(run)]: the elapsed time is [end - start] on
    [cl_ulong], turned into a count of nanoseconds (signed, 64 bits). *)
Definition executeKernel (run : Run) (h : Harness) : Z * Harness :=
  let cl := _cl h in
  let '(mem', (start, end_)) := _kernel h run (kernel_args cl) (dev_mem cl) in
  (to_signed 64 (wrap 64 (end_ - start)),
   set_cl {| dev_mem := mem';
             kernel_args := kernel_args cl;
             next_mem := next_mem cl;
             cl_log := cl_log cl ++ [EnqueueNDRangeKernel run] |} h).

(** The loop of [resetTempBuffers]; an index past the end of
    [_args.temp_globals] reads size 0. *)
Fixpoint resetTempBuffers_loop (temps : list cl_mem) (temp_index : nat)
    (h : Harness) : Harness :=
  match temps with
  | [] => h
  | arg :: temps' =>
      resetTempBuffers_loop temps' (S temp_index)
        (fillGlobalArg (nth temp_index (temp_globals (_args h)) 0%nat) arg h)
  end.

Definition resetTempBuffers (h : Harness) : Harness :=
  resetTempBuffers_loop (_temp_global (_mem_manager h)) 0 h.

(** Assignments to the fields of [_mem_manager] made by
    [allocateBuffers]. *)
Inductive Handle :=
  | f_matrix_idxs | f_matrix_vals | f_x_vect | f_y_vect | f_output.

Definition set_handle (f : Handle) (m : cl_mem) (mm : CLMemoryManager)
    : CLMemoryManager :=
  {| _matrix_idxs := match f with f_matrix_idxs => m | _ => _matrix_idxs mm end;
     _matrix_vals := match f with f_matrix_vals => m | _ => _matrix_vals mm end;
     _x_vect := match f with f_x_vect => m | _ => _x_vect mm end;
     _y_vect := match f with f_y_vect => m | _ => _y_vect mm end;
     _output := match f with f_output => m | _ => _output mm end;
     _temp_global := _temp_global mm;
     _input_idx := _input_idx mm; _output_idx := _output_idx mm;
     _input_host_buffer := _input_host_buffer mm;
     _output_host_buffer := _output_host_buffer mm;
     _temp_out_buffer := _temp_out_buffer mm |}.

Definition set_output_idx (arg_index : nat) (mm : CLMemoryManager)
    : CLMemoryManager :=
  {| _matrix_idxs := _matrix_idxs mm; _matrix_vals := _matrix_vals mm;
     _x_vect := _x_vect mm; _y_vect := _y_vect mm; _output := _output mm;
     _temp_global := _temp_global mm;
     _input_idx := _input_idx mm; _output_idx := arg_index;
     _input_host_buffer := _input_host_buffer mm;
     _output_host_buffer := _output_host_buffer mm;
     _temp_out_buffer := _temp_out_buffer mm |}.

(** [_mem_manager.f = m] *)
Definition assign (f : Handle) (m : cl_mem) (h : Harness) : Harness :=
  set_mem_manager (set_handle f m (_mem_manager h)) h.

Definition set_temp_global (temps : list cl_mem) (mm : CLMemoryManager)
    : CLMemoryManager :=
  {| _matrix_idxs := _matrix_idxs mm; _matrix_vals := _matrix_vals mm;
     _x_vect := _x_vect mm; _y_vect := _y_vect mm; _output := _output mm;
     _temp_global := temps;
     _input_idx := _input_idx mm; _output_idx := _output_idx mm;
     _input_host_buffer := _input_host_buffer mm;
     _output_host_buffer := _output_host_buffer mm;
     _temp_out_buffer := _temp_out_buffer mm |}.

(** The loop over [_args.temp_globals] in [allocateBuffers]; the store
    into [_temp_global[temp_index]] leaves the vector as it is when the
    index is past its end. *)
Fixpoint allocate_temp_globals (sizes : list nat) (temp_index arg_index : nat)
    (h : Harness) : nat * Harness :=
  match sizes with
  | [] => (arg_index, h)
  | size :: sizes' =>
      let '(buffer, h) := createGlobalArg size h in
      let h := set_mem_manager
                 (set_temp_global
                    (<[temp_index := buffer]> (_temp_global (_mem_manager h)))
                    (_mem_manager h)) h in
      let h := fillGlobalArg size buffer h in
      let h := setGlobalArg arg_index buffer h in
      allocate_temp_globals sizes' (S temp_index) (S arg_index) h
  end.

(** The loop over [_args.temp_locals] in [allocateBuffers]. *)
Fixpoint set_temp_locals (sizes : list nat) (arg_index : nat) (h : Harness)
    : nat * Harness :=
  match sizes with
  | [] => (arg_index, h)
  | size :: sizes' =>
      set_temp_locals sizes' (S arg_index) (setLocalArg arg_index size h)
  end.

(** The loop over [_args.size_args] in [allocateBuffers]. *)
Fixpoint set_size_args (sizes : list Z) (arg_index : nat) (h : Harness)
    : nat * Harness :=
  match sizes with
  | [] => (arg_index, h)
  | size :: sizes' =>
      set_size_args sizes' (S arg_index) (setValueArg 4 arg_index size h)
  end.

(** [allocateBuffers]: creates the buffers and lays the kernel arguments
    out from slot 0 on. *)
Definition allocateBuffers (h : Harness) : Harness :=
  let args := _args h in
  let arg_index := 0%nat in
  (* the matrix arguments *)
  let '(m, h) := createAndUploadGlobalArg (m_idxs args) false h in
  let h := assign f_matrix_idxs m h in
  let h := setGlobalArg arg_index (_matrix_idxs (_mem_manager h)) h in
  let arg_index := S arg_index in
  let '(m, h) := createAndUploadGlobalArg (m_vals args) false h in
  let h := assign f_matrix_vals m h in
  let h := setGlobalArg arg_index (_matrix_vals (_mem_manager h)) h in
  let arg_index := S arg_index in
  (* the vector arguments *)
  let '(m, h) := createAndUploadGlobalArg (x_vect args) true h in
  let h := assign f_x_vect m h in
  let h := setGlobalArg arg_index (_x_vect (_mem_manager h)) h in
  let arg_index := S arg_index in
  let '(m, h) := createAndUploadGlobalArg (y_vect args) true h in
  let h := assign f_y_vect m h in
  let h := setGlobalArg arg_index (_y_vect (_mem_manager h)) h in
  let arg_index := S arg_index in
  (* the constant arguments *)
  let h := setValueArg 4 arg_index (alpha args) h in
  let arg_index := S arg_index in
  let h := setValueArg 4 arg_index (beta args) h in
  let arg_index := S arg_index in
  (* the output argument *)
  let h := set_mem_manager (set_output_idx arg_index (_mem_manager h)) h in
  let '(m, h) := createGlobalArg (output args) h in
  let h := assign f_output m h in
  let h := setGlobalArg arg_index (_output (_mem_manager h)) h in
  let arg_index := S arg_index in
  (* temporary globals, temporary locals, sizes *)
  let '(arg_index, h) :=
    allocate_temp_globals (temp_globals args) 0 arg_index h in
  let '(arg_index, h) := set_temp_locals (temp_locals args) arg_index h in
  snd (set_size_args (size_args args) arg_index h).

(** [IterativeHarness::resetInputs] *)
Definition resetInputs (h : Harness) : Harness :=
  let h := writeToGlobalArg (m_idxs (_args h))
             (_matrix_idxs (_mem_manager h)) h in
  let h := writeToGlobalArg (m_vals (_args h))
             (_matrix_vals (_mem_manager h)) h in
  let h := setGlobalArg 2 (_x_vect (_mem_manager h)) h in
  let h := writeToGlobalArg (x_vect (_args h)) (_x_vect (_mem_manager h)) h in
  let h := setGlobalArg 3 (_y_vect (_mem_manager h)) h in
  let h := writeToGlobalArg (y_vect (_args h)) (_y_vect (_mem_manager h)) h in
  let h := setGlobalArg 6 (_output (_mem_manager h)) h in
  let h := fillGlobalArg (output (_args h)) (_output (_mem_manager h)) h in
  resetTempBuffers h.

(** ** The iteration loop of [HarnessBFS::executeRun] *)

(** Modelled from the spec: [assertBuffersNotEqual] is declared outside the
    sources at hand; the snapshot comparison is "used only for diagnostic
    assertion, not control flow", so it leaves the harness as it is. *)
Definition assertBuffersNotEqual (a b : list byte) (h : Harness) : Harness := h.

(** The local variables of [executeRun], with the harness they act on. *)
Record Locals := mkLocals {
  this : Harness;
  runtimes : list SqlStat;
  input_mem_ptr : MemPtr;
  output_mem_ptr : MemPtr;
  input_host_ptr : HostPtr;
  output_host_ptr : HostPtr;
  should_terminate : bool;
  iteration : Z
}.

(** The state on entry to the [do] loop. *)
Definition executeRun_init (h : Harness) : Locals :=
  {| this := h; runtimes := [];
     input_mem_ptr := ptr_x_vect; output_mem_ptr := ptr_output;
     input_host_ptr := ptr_input_host_buffer;
     output_host_ptr := ptr_output_host_buffer;
     should_terminate := false; iteration := 0 |}.

(** One pass through the body of the [do] loop. *)
Definition loop_body (run : Run) (trial : Z) (s : Locals) : option Locals :=
  let h := this s in
  (* std::copy of the output shadow into _temp_out_buffer *)
  let out := deref_host (_mem_manager h) (output_host_ptr s) in
  let h := set_mem_manager
             (set_temp_out_buffer
                (out ++ drop (length out) (_temp_out_buffer (_mem_manager h)))
                (_mem_manager h)) h in
  let h := resetTempBuffers h in
  let '(time, h) := executeKernel run h in
  let runtimes' :=
    runtimes s ++ [mkSqlStat time NOT_CHECKED (global1 run) (local1 run)
                     RAW_RESULT (Some trial) (Some (iteration s))] in
  let h := readFromGlobalArg (output_host_ptr s)
             (deref_mem (_mem_manager h) (output_mem_ptr s)) h in
  let h := assertBuffersNotEqual
             (deref_host (_mem_manager h) (output_host_ptr s))
             (_temp_out_buffer (_mem_manager h)) h in
  st ← should_terminate_iteration h
         (deref_host (_mem_manager h) (input_host_ptr s))
         (deref_host (_mem_manager h) (output_host_ptr s));
  (* std::swap, twice *)
  let input_mem_ptr' := output_mem_ptr s in
  let output_mem_ptr' := input_mem_ptr s in
  let input_host_ptr' := output_host_ptr s in
  let output_host_ptr' := input_host_ptr s in
  let h := setGlobalArg (_input_idx (_mem_manager h))
             (deref_mem (_mem_manager h) input_mem_ptr') h in
  let h := setGlobalArg (_output_idx (_mem_manager h))
             (deref_mem (_mem_manager h) output_mem_ptr') h in
  let h := setGlobalArg 3 (deref_mem (_mem_manager h) input_mem_ptr') h in
  Some {| this := h; runtimes := runtimes';
          input_mem_ptr := input_mem_ptr'; output_mem_ptr := output_mem_ptr';
          input_host_ptr := input_host_ptr';
          output_host_ptr := output_host_ptr';
          should_terminate := st; iteration := iteration s + 1 |}.

(** [do { body } while (!should_terminate);] *)
Fixpoint do_while (fuel : nat) (run : Run) (trial : Z) (s : Locals)
    : option Locals :=
  match fuel with
  | O => None
  | S fuel' =>
      s' ← loop_body run trial s;
      if should_terminate s' then Some s' else do_while fuel' run trial s'
  end.

Definition executeRun (fuel : nat) (run : Run) (trial : Z) (h : Harness)
    : option (list SqlStat * Harness) :=
  s ← do_while fuel run trial (executeRun_init h);
  Some (runtimes s, this s).

(** The state after [n] passes through the body, whatever the loop
    condition says. *)
Fixpoint iterate (n : nat) (run : Run) (trial : Z) (s : Locals)
    : option Locals :=
  match n with
  | O => Some s
  | S n' => s' ← iterate n' run trial s; loop_body run trial s'
  end.

(** ** Trial aggregation of [HarnessBFS::benchmark] *)

(** Modelled from the spec: [SqlStat::compare] lives in [sql_stat.h], which
    is not among the sources; the trial's records are sorted "by duration",
    ascending. *)
Definition compare (a b : SqlStat) : Prop := getTime a ≤ getTime b.

Global Instance compare_dec a b : Decision (compare a b).
Proof. unfold compare. apply _. Defined.

(** What [benchmark] does with the records of one trial: sort, append the
    median record, then accumulate and append the sum record.  [None] is an
    index past the end of the vector.  Durations are added in [Z]: the
    64-bit count of nanoseconds overflows only beyond 292 years.
    [merge_sort] gives one ascending order; [std::sort] may leave records
    of equal duration in another. *)
Definition trial_stats (run : Run) (t : Z) (run_runtimes : list SqlStat)
    : option (list SqlStat) :=
  let run_runtimes := merge_sort compare run_runtimes in
  m ← run_runtimes !! Z.to_nat (vsize run_runtimes / 2);
  let median_time := getTime m in
  let run_runtimes :=
    run_runtimes ++ [mkSqlStat median_time NOT_CHECKED (global1 run)
                       (local1 run) MEDIAN_RESULT (Some t) None] in
  let total_time :=
    foldl (λ time stat, time + getTime stat) 0 run_runtimes in
  Some (run_runtimes ++ [mkSqlStat total_time NOT_CHECKED (global1 run)
                           (local1 run) MULTI_ITERATION_SUM None None]).

(** The [for] loop over the trials; [remaining] is [_trials - t]. *)
Fixpoint benchmark_loop (fuel : nat) (run : Run) (remaining : nat) (t : Z)
    (h : Harness) (runtimes : list (list SqlStat))
    : option (list (list SqlStat) * Harness) :=
  match remaining with
  | O => Some (runtimes, h)
  | S remaining' =>
      '(run_runtimes, h) ← executeRun fuel run t h;
      run_runtimes ← trial_stats run t run_runtimes;
      benchmark_loop fuel run remaining' (t + 1) (resetInputs h)
        (runtimes ++ [run_runtimes])
  end.

(** [HarnessBFS::benchmark(run)]; every trial's loop gets [fuel] passes. *)
Definition benchmark (fuel : nat) (run : Run) (h : Harness)
    : option (list (list SqlStat) * Harness) :=
  benchmark_loop fuel run (Z.to_nat (_trials h)) 0 h [].

(** ** [Harness::check_result] *)

(** One [LOG_ERROR] line: expected value, index, value found. *)
Record Mismatch := mkMismatch {
  expected : Z; index : Z; found : Z
}.

Definition max_errors : Z := 20.

(** The checking loop; [i] is an [unsigned int]. *)
Fixpoint check_loop (fuel : nat) (gold : list Z) (res : list byte)
    (i : Z) (error_count : Z) (log : list Mismatch)
    : option (Z * list Mismatch) :=
  match fuel with
  | O => None
  | S fuel' =>
      if i <? vsize gold then
        let g := nth (Z.to_nat i) gold 0 in
        let r := load_int res i in
        if negb (g =? r) then
          let log := log ++ [mkMismatch g i r] in
          let error_count := error_count + 1 in
          if error_count =? max_errors then Some (error_count, log)
          else check_loop fuel' gold res (wrap 32 (i + 1)) error_count log
        else check_loop fuel' gold res (wrap 32 (i + 1)) error_count log
      else Some (error_count, log)
  end.

(** [check_result(gold)]: the verdict and the lines logged.  The fuel
    of the loop is one more than [gold.size()], which is enough whenever
    the counter does not wrap. *)
Definition check_result (this : Harness) (gold : list Z)
    : option (Correctness * list Mismatch) :=
  if vsize gold =? 0 then Some (NOT_CHECKED, [])
  else
    let res := _output_host_buffer (_mem_manager this) in
    let output_length := wrap 32 (vsize res * 1 / 4) in
    if output_length <? vsize gold then Some (BAD_LENGTH, [])
    else
      '(error_count, log) ← check_loop (S (length gold)) gold res 0 0 [];
      if 0 <? error_count then Some (BAD_VALUES, log)
      else Some (CORRECT, log).

(** ** Notions used in the statements *)

(** The argument bindings made by a sequence of API calls, in order. *)
Fixpoint rebinds (calls : list CLCall) : list (nat * KArg) :=
  match calls with
  | [] => []
  | SetKernelArg slot a :: calls' => (slot, a) :: rebinds calls'
  | _ :: calls' => rebinds calls'
  end.

(** The number of kernel launches in a sequence of API calls. *)
Fixpoint launches (calls : list CLCall) : nat :=
  match calls with
  | [] => 0%nat
  | EnqueueNDRangeKernel _ :: calls' => S (launches calls')
  | _ :: calls' => launches calls'
  end.

(** The calls made between an earlier state and a later one. *)
Definition calls_since (before after : Harness) : list CLCall :=
  drop (length (cl_log (_cl before))) (cl_log (_cl after)).

(** The two host shadow buffers agree on every pair of elements up to the
    shorter length. *)
Definition buffers_agree (a b : list byte) : Prop :=
  ∀ i, 0 ≤ i < Z.min (vsize a / 4) (vsize b / 4) →
       load_int a i = load_int b i.

Definition shadows_agree (h : Harness) : Prop :=
  buffers_agree (_input_host_buffer (_mem_manager h))
                (_output_host_buffer (_mem_manager h)).

(** The mismatches between the gold vector and the result, from index
    [i] on, in order. *)
Fixpoint mismatches_from (i : Z) (gold : list Z) (res : list byte)
    : list Mismatch :=
  match gold with
  | [] => []
  | g :: gold' =>
      let r := load_int res i in
      (if g =? r then [] else [mkMismatch g i r])
      ++ mismatches_from (i + 1) gold' res
  end.

Definition mismatches (gold : list Z) (res : list byte) : list Mismatch :=
  mismatches_from 0 gold res.

(** The paired elements below index [k], and below the shorter length
    [n], are equal. *)
Definition agree_below (input output : list byte) (n k : Z) : Prop :=
  ∀ j, 0 ≤ j < k → j < n → load_int input j = load_int output j.

(** The arithmetic total of a list of durations. *)
Definition total (durations : list Z) : Z := foldr Z.add 0 durations.

(** The verdict every record of [HarnessBFS] is built with. *)
Definition not_checked (r : SqlStat) : Prop := getCorrectness r = NOT_CHECKED.

(** Raw records with the given durations, as [executeRun] numbers them. *)
Definition raw_records (run : Run) (trial : Z) (first : Z) (times : list Z)
    : list SqlStat :=
  imap (λ k time, mkSqlStat time NOT_CHECKED (global1 run) (local1 run)
                    RAW_RESULT (Some trial) (Some (first + Z.of_nat k)))
       times.

(** The harness with other values of the three settings. *)
Definition set_config (trials timeout : Z) (delta : Q) (h : Harness)
    : Harness :=
  {| _kernel := _kernel h; _cl := _cl h; _args := _args h;
     _mem_manager := _mem_manager h; _trials := trials;
     _timeout := timeout; _delta := delta |}.

Definition map_this (f : Harness → Harness) (s : Locals) : Locals :=
  {| this := f (this s); runtimes := runtimes s;
     input_mem_ptr := input_mem_ptr s; output_mem_ptr := output_mem_ptr s;
     input_host_ptr := input_host_ptr s; output_host_ptr := output_host_ptr s;
     should_terminate := should_terminate s; iteration := iteration s |}.

(** What a step leaves alone, apart from the device memory and the log. *)
Record same_frame (h h' : Harness) : Prop := {
  frame_kernel : _kernel h' = _kernel h;
  frame_args : _args h' = _args h;
  frame_mem_manager : _mem_manager h' = _mem_manager h;
  frame_kernel_args : kernel_args (_cl h') = kernel_args (_cl h);
  frame_trials : _trials h' = _trials h;
  frame_timeout : _timeout h' = _timeout h;
  frame_delta : _delta h' = _delta h
}.

(** What one pass through the body of the loop does to the state. *)
Record body_spec (run : Run) (trial : Z) (s s' : Locals) : Prop := {
  body_runtimes :
    ∃ time, runtimes s' =
      runtimes s ++ [mkSqlStat time NOT_CHECKED (global1 run) (local1 run)
                       RAW_RESULT (Some trial) (Some (iteration s))];
  body_input_mem : input_mem_ptr s' = output_mem_ptr s;
  body_output_mem : output_mem_ptr s' = input_mem_ptr s;
  body_input_host : input_host_ptr s' = output_host_ptr s;
  body_output_host : output_host_ptr s' = input_host_ptr s;
  body_iteration : iteration s' = iteration s + 1;
  body_test :
    should_terminate_iteration (this s')
      (deref_host (_mem_manager (this s')) (input_host_ptr s))
      (deref_host (_mem_manager (this s')) (output_host_ptr s))
    = Some (should_terminate s');
  body_x_vect :
    _x_vect (_mem_manager (this s')) = _x_vect (_mem_manager (this s));
  body_output :
    _output (_mem_manager (this s')) = _output (_mem_manager (this s));
  body_input_idx :
    _input_idx (_mem_manager (this s')) = _input_idx (_mem_manager (this s));
  body_output_idx :
    _output_idx (_mem_manager (this s')) = _output_idx (_mem_manager (this s));
  body_calls :
    ∃ calls,
      cl_log (_cl (this s')) = cl_log (_cl (this s)) ++ calls
      ∧ launches calls = 1%nat
      ∧ rebinds calls =
          [(_input_idx (_mem_manager (this s)),
            GlobalArg (deref_mem (_mem_manager (this s)) (output_mem_ptr s)));
           (_output_idx (_mem_manager (this s)),
            GlobalArg (deref_mem (_mem_manager (this s)) (input_mem_ptr s)));
           (3%nat,
            GlobalArg (deref_mem (_mem_manager (this s)) (output_mem_ptr s)))];
  body_kernel : _kernel (this s') = _kernel (this s);
  body_temp_global :
    _temp_global (_mem_manager (this s'))
    = _temp_global (_mem_manager (this s));
  body_download :
    ∃ mem,
      deref_host (_mem_manager (this s')) (output_host_ptr s)
      = read_into (deref_host (_mem_manager (this s)) (output_host_ptr s))
          (default []
             ((_kernel (this s) run (kernel_args (_cl (this s))) mem).1
                !! deref_mem (_mem_manager (this s)) (output_mem_ptr s)));
  body_input_shadow :
    input_host_ptr s ≠ output_host_ptr s →
    deref_host (_mem_manager (this s')) (input_host_ptr s)
    = deref_host (_mem_manager (this s)) (input_host_ptr s);
  body_kernel_args :
    kernel_args (_cl (this s')) =
      <[3%nat :=
          GlobalArg (deref_mem (_mem_manager (this s)) (output_mem_ptr s))]>
        (<[_output_idx (_mem_manager (this s)) :=
             GlobalArg (deref_mem (_mem_manager (this s)) (input_mem_ptr s))]>
           (<[_input_idx (_mem_manager (this s)) :=
                GlobalArg (deref_mem (_mem_manager (this s))
                             (output_mem_ptr s))]>
              (kernel_args (_cl (this s)))))
}.

(** What holds after [n] passes of the loop started on harness [h]. *)
Record run_inv (run : Run) (trial : Z) (h : Harness) (n : nat) (s : Locals)
    : Prop := {
  inv_runtimes :
    ∃ times, length times = n ∧ runtimes s = raw_records run trial 0 times;
  inv_iteration : iteration s = Z.of_nat n;
  inv_input_mem :
    input_mem_ptr s = if Nat.odd n then ptr_output else ptr_x_vect;
  inv_output_mem :
    output_mem_ptr s = if Nat.odd n then ptr_x_vect else ptr_output;
  inv_input_host :
    input_host_ptr s =
      if Nat.odd n then ptr_output_host_buffer else ptr_input_host_buffer;
  inv_output_host :
    output_host_ptr s =
      if Nat.odd n then ptr_input_host_buffer else ptr_output_host_buffer;
  inv_x_vect : _x_vect (_mem_manager (this s)) = _x_vect (_mem_manager h);
  inv_output : _output (_mem_manager (this s)) = _output (_mem_manager h);
  inv_input_idx :
    _input_idx (_mem_manager (this s)) = _input_idx (_mem_manager h);
  inv_output_idx :
    _output_idx (_mem_manager (this s)) = _output_idx (_mem_manager h);
  inv_calls :
    ∃ calls,
      cl_log (_cl (this s)) = cl_log (_cl h) ++ calls
      ∧ launches calls = n
      ∧ length (rebinds calls) = (3 * n)%nat
      ∧ Forall (λ b, b.1 = _input_idx (_mem_manager h)
                     ∨ b.1 = _output_idx (_mem_manager h)
                     ∨ b.1 = 3%nat) (rebinds calls)
}.

(** Claim C3 as the specification states it: in every pass only
    the input slot and the output slot are rebound. *)
Definition rebinds_input_and_output_only : Prop :=
  ∀ run trial s s',
    loop_body run trial s = Some s' →
    ∀ slot,
      slot ∈ List.map fst (rebinds (calls_since (this s) (this s'))) →
      slot = _input_idx (_mem_manager (this s))
      ∨ slot = _output_idx (_mem_manager (this s)).

(** Claim C4 as the specification states it: the verdict of the
    checker on the final output buffer is what the benchmarked run
    reports. *)
Definition verdict_from_checker : Prop :=
  ∀ fuel run h gold recs h' verdict log,
    benchmark fuel run h = Some (recs, h') →
    check_result h' gold = Some (verdict, log) →
    ∃ trial_recs r,
      trial_recs ∈ recs ∧ r ∈ trial_recs ∧ getCorrectness r = verdict.

(** ** A small instance

    A kernel that raises every byte of its input vector by one up to a
    cap and writes the result to its output vector, on two-element
    vectors.  It reads the input handle from slot 2 and the output handle
    from slot 6, the places [allocateBuffers] gives them. *)

Definition bump (cap : Z) (b : byte) : byte :=
  if byte_val b <? cap
  then default b (Byte.of_N (Byte.to_N b + 1))
  else b.

Definition bump_kernel (cap : Z) : Kernel :=
  λ run args mem,
    match args !! 2%nat, args !! 6%nat with
    | Some (GlobalArg i), Some (GlobalArg o) =>
        let src := default [] (mem !! i) in
        (<[o := bump cap <$> src]> mem,
         (1000, 1000 + 5 + byte_val (nth 0 src x00)))
    | _, _ => (mem, (1000, 1000))
    end.

Definition example_run : Run := mkRun 64 1 1 16 1 1.

Definition example_args : ArgContainer :=
  {| m_idxs := [x00; x00; x00; x00];
     m_vals := [x01; x00; x00; x00];
     x_vect := replicate 8 x00;
     y_vect := replicate 8 x00;
     alpha := 1; beta := 0;
     output := 8;
     temp_globals := [4%nat];
     temp_locals := [16%nat];
     size_args := [2] |}.

(** Modelled from the spec: the constructor of [CLMemoryManager] is in
    [cl_memory_manager.h], which is not among the sources.  The input
    vector is the third entry of the argument layout of section 4.2, so
    [_input_idx] is 2, the slot [allocateBuffers] and [resetInputs] bind
    [_x_vect] to; the input shadow starts as the generated input vector. *)
Definition example_mem_manager : CLMemoryManager :=
  {| _matrix_idxs := 0%nat; _matrix_vals := 0%nat;
     _x_vect := 0%nat; _y_vect := 0%nat; _output := 0%nat;
     _temp_global := [0%nat];
     _input_idx := 2; _output_idx := 0;
     _input_host_buffer := x_vect example_args;
     _output_host_buffer := replicate 8 x00;
     _temp_out_buffer := replicate 8 x00 |}.

Definition example_harness (cap : Z) (trials : Z) : Harness :=
  allocateBuffers
    {| _kernel := bump_kernel cap;
       _cl := {| dev_mem := ∅; kernel_args := ∅; next_mem := 1%nat;
                 cl_log := [] |};
       _args := example_args;
       _mem_manager := example_mem_manager;
       _trials := trials; _timeout := 1000; _delta := 0%Q |}.

(** The state of the loop on the small instance after [n] passes. *)
Definition example_pass (cap : Z) (n : nat) : Locals :=
  default (executeRun_init (example_harness cap 1))
    (iterate n example_run 0 (executeRun_init (example_harness cap 1))).

(** The state on entry to the loop on the small instance with cap 3. *)
Definition example_entry : Locals := executeRun_init (example_harness 3 1).

Definition example_result (cap : Z) (fuel : nat) : list SqlStat * Harness :=
  default ([], example_harness cap 1)
    (executeRun fuel example_run 0 (example_harness cap 1)).

Definition example_benchmark : list (list SqlStat) * Harness :=
  default ([], example_harness 3 2)
    (benchmark 10 example_run (example_harness 3 2)).

(** A kernel that never settles: it fills its output vector with a
    pattern that depends on which of the two buffers that is. *)
Definition stuck_kernel : Kernel :=
  λ run args mem,
    match args !! 6%nat with
    | Some (GlobalArg o) =>
        (<[o := replicate 4 (if Nat.eqb o 3 then x02 else x01)]> mem,
         (1000, 1007))
    | _ => (mem, (1000, 1007))
    end.

Definition stuck_args : ArgContainer :=
  {| m_idxs := []; m_vals := [];
     x_vect := replicate 4 x00; y_vect := replicate 4 x00;
     alpha := 1; beta := 0; output := 4;
     temp_globals := []; temp_locals := []; size_args := [] |}.

Definition stuck_harness : Harness :=
  allocateBuffers
    {| _kernel := stuck_kernel;
       _cl := {| dev_mem := ∅; kernel_args := ∅; next_mem := 1%nat;
                 cl_log := [] |};
       _args := stuck_args;
       _mem_manager :=
         {| _matrix_idxs := 0%nat; _matrix_vals := 0%nat;
            _x_vect := 0%nat; _y_vect := 0%nat; _output := 0%nat;
            _temp_global := [];
            _input_idx := 2; _output_idx := 0;
            _input_host_buffer := replicate 4 x00;
            _output_host_buffer := replicate 4 x00;
            _temp_out_buffer := replicate 4 x00 |};
       _trials := 1; _timeout := 1000; _delta := 0%Q |}.

(** What every state of the loop on [stuck_harness] satisfies. *)
Record stuck_inv (s : Locals) : Prop := {
  stuck_kernel_eq : _kernel (this s) = stuck_kernel;
  stuck_x_vect : _x_vect (_mem_manager (this s)) = 3%nat;
  stuck_output : _output (_mem_manager (this s)) = 5%nat;
  stuck_output_idx : _output_idx (_mem_manager (this s)) = 6%nat;
  stuck_slot :
    kernel_args (_cl (this s)) !! 6%nat
    = Some (GlobalArg (deref_mem (_mem_manager (this s)) (output_mem_ptr s)));
  stuck_roles :
    (output_mem_ptr s = ptr_output ∧ input_mem_ptr s = ptr_x_vect
     ∧ output_host_ptr s = ptr_output_host_buffer
     ∧ input_host_ptr s = ptr_input_host_buffer
     ∧ (_input_host_buffer (_mem_manager (this s)) = replicate 4 x00
        ∨ _input_host_buffer (_mem_manager (this s)) = replicate 4 x02)
     ∧ length (_output_host_buffer (_mem_manager (this s))) = 4%nat)
    ∨ (output_mem_ptr s = ptr_x_vect ∧ input_mem_ptr s = ptr_output
       ∧ output_host_ptr s = ptr_input_host_buffer
       ∧ input_host_ptr s = ptr_output_host_buffer
       ∧ _output_host_buffer (_mem_manager (this s)) = replicate 4 x01
       ∧ length (_input_host_buffer (_mem_manager (this s))) = 4%nat)
}.

(** The four bytes of an [int], least significant first. *)
Definition int_bytes (v : Z) : list byte :=
  (λ k, default x00 (Byte.of_N (Z.to_N (wrap 32 v / 2 ^ (8 * k) mod 256))))
    <$> [0; 1; 2; 3].

Definition ints_bytes (vs : list Z) : list byte := vs ≫= int_bytes.

(** The harness with the given bytes in its output shadow buffer. *)
Definition with_output_host (bytes : list byte) (h : Harness) : Harness :=
  set_mem_manager
    (store_host ptr_output_host_buffer bytes (_mem_manager h)) h.

(** ** Further operations and notions *)

(** [Harness::lowerTimeout(measured_time)]: the measured time is a count
    of nanoseconds, [_timeout] a count of milliseconds; [duration_cast]
    truncates towards zero. *)
Definition lowerTimeout (measured_time : Z) (h : Harness) : Harness :=
  let ms_measured := Z.quot measured_time 1000000 in
  if ms_measured * 2 <? _timeout h
  then set_config (_trials h) (ms_measured * 2) (_delta h) h
  else h.

(** Twice a measured time in whole milliseconds. *)
Definition doubled_ms (measured_time : Z) : Z :=
  Z.quot measured_time 1000000 * 2.

(** The first [n] bytes of a device buffer are zero. *)
Definition zero_prefix (cl : CLState) (m : cl_mem) (n : nat) : Prop :=
  take n (mem_bytes cl m) = replicate n x00.

(** The device buffers that [_mem_manager] names. *)
Definition handles (mm : CLMemoryManager) : list cl_mem :=
  _matrix_idxs mm :: _matrix_vals mm :: _x_vect mm :: _y_vect mm
  :: _output mm :: _temp_global mm.

(** What [executeRun] leaves alone in [_mem_manager]: everything but the
    three host vectors. *)
Record same_handles (mm mm' : CLMemoryManager) : Prop := {
  same_matrix_idxs : _matrix_idxs mm' = _matrix_idxs mm;
  same_matrix_vals : _matrix_vals mm' = _matrix_vals mm;
  same_x_vect : _x_vect mm' = _x_vect mm;
  same_y_vect : _y_vect mm' = _y_vect mm;
  same_output : _output mm' = _output mm;
  same_temp_global : _temp_global mm' = _temp_global mm;
  same_input_idx : _input_idx mm' = _input_idx mm;
  same_output_idx : _output_idx mm' = _output_idx mm
}.

(** What [allocateBuffers] leaves alone: the kernel, the arguments it was
    built from, the settings, [_input_idx], the host vectors, the buffers
    that existed before; and it launches nothing. *)
Record alloc_frame (h h' : Harness) : Prop := {
  alloc_kernel : _kernel h' = _kernel h;
  alloc_args : _args h' = _args h;
  alloc_config :
    _trials h' = _trials h ∧ _timeout h' = _timeout h ∧ _delta h' = _delta h;
  alloc_input_idx :
    _input_idx (_mem_manager h') = _input_idx (_mem_manager h);
  alloc_host :
    _input_host_buffer (_mem_manager h') = _input_host_buffer (_mem_manager h)
    ∧ _output_host_buffer (_mem_manager h')
      = _output_host_buffer (_mem_manager h)
    ∧ _temp_out_buffer (_mem_manager h') = _temp_out_buffer (_mem_manager h);
  alloc_old_buffers :
    ∀ m, (m < next_mem (_cl h))%nat →
         dev_mem (_cl h') !! m = dev_mem (_cl h) !! m;
  alloc_launches : launches (calls_since h h') = 0%nat
}.

(** No partial sum of [durations], added from the left as
    [std::accumulate] does, leaves the range of a signed 64-bit count. *)
Definition sums_fit (durations : list Z) : Prop :=
  ∀ k : nat, - 2 ^ 63 ≤ total (take k durations) < 2 ^ 63.

(** What [benchmark] returns for trial [t] when the passes of that trial
    took [times]: the raw records in an order that is ascending by
    duration (which of the ascending orders is left open: records of equal
    duration may come either way), then the median record, then the sum
    record, which carries no trial number and whose duration is settled
    as long as the addition stays within 64 bits. *)
Definition trial_records (run : Run) (t : Z) (times : list Z)
    (trial_recs : list SqlStat) : Prop :=
  ∃ sorted m sum_time,
    sorted ≡ₚ raw_records run t 0 times
    ∧ Sorted compare sorted
    ∧ sorted !! (length times / 2)%nat = Some m
    ∧ trial_recs
      = sorted
        ++ [mkSqlStat (getTime m) NOT_CHECKED (global1 run) (local1 run)
              MEDIAN_RESULT (Some t) None;
            mkSqlStat sum_time NOT_CHECKED (global1 run) (local1 run)
              MULTI_ITERATION_SUM None None]
    ∧ (sums_fit (getTime <$> (sorted ++ [m])) →
       sum_time = total times + getTime m).

(** The number of raw records among the lists that [benchmark] returns:
    every list ends with a median and a sum record. *)
Definition raw_count (recs : list (list SqlStat)) : nat :=
  sum_list ((λ trial_recs, length trial_recs - 2)%nat <$> recs).

(** ** Further instances *)

(** The small instance before [allocateBuffers] has run. *)
Definition example_unallocated : Harness :=
  {| _kernel := bump_kernel 3;
     _cl := {| dev_mem := ∅; kernel_args := ∅; next_mem := 1%nat;
               cl_log := [] |};
     _args := example_args;
     _mem_manager := example_mem_manager;
     _trials := 1; _timeout := 1000; _delta := 0%Q |}.

(** The small instance with an output shadow of three bytes, less than
    one element. *)
Definition short_shadow_harness : Harness :=
  with_output_host [x00; x00; x00] (example_harness 3 1).

(** The small instance with a kernel that takes four nanoseconds in every
    pass, so that the durations of a trial are all equal; two trials. *)
Definition steady_kernel (cap : Z) : Kernel :=
  λ run args mem, ((bump_kernel cap run args mem).1, (1000, 1004)).

Definition steady_harness : Harness :=
  allocateBuffers
    {| _kernel := steady_kernel 3;
       _cl := {| dev_mem := ∅; kernel_args := ∅; next_mem := 1%nat;
                 cl_log := [] |};
       _args := example_args;
       _mem_manager := example_mem_manager;
       _trials := 2; _timeout := 1000; _delta := 0%Q |}.

Definition steady_benchmark : list (list SqlStat) * Harness :=
  default ([], steady_harness) (benchmark 10 example_run steady_harness).

(** A buffer of [2^34] zero bytes, that is [2^32] elements. *)
Definition huge_buffer : list byte := replicate (Z.to_nat (2 ^ 34)) x00.

(** The first pass of a second trial on the small instance with cap 1:
    the state after the pass that follows a run and a reset. *)
Definition example_second_trial : Locals :=
  default example_entry
    (loop_body example_run 1
       (executeRun_init (resetInputs (example_result 1 10).2))).

(** What the kernel reads in the pass that starts in state [s]: the
    buffer that the input pointer names, at the launch. *)
Definition kernel_input (s : Locals) : list byte :=
  mem_bytes (_cl (resetTempBuffers (this s)))
    (deref_mem (_mem_manager (this s)) (input_mem_ptr s)).

(** What the kernel has written in the pass from [s] to [s']: the buffer
    that the output pointer of [s] names, after the pass. *)
Definition kernel_output (s s' : Locals) : list byte :=
  mem_bytes (_cl (this s'))
    (deref_mem (_mem_manager (this s)) (output_mem_ptr s)).

(** The input shadow holds what the input buffer holds: the state in
    which a pass compares the output of the kernel with its input. *)
Record mirror_inv (h : Harness) (s : Locals) : Prop := {
  mirror_input :
    deref_host (_mem_manager (this s)) (input_host_ptr s)
    = mem_bytes (_cl (this s))
        (deref_mem (_mem_manager (this s)) (input_mem_ptr s));
  mirror_input_length :
    length (deref_host (_mem_manager (this s)) (input_host_ptr s))
    = length (_input_host_buffer (_mem_manager h));
  mirror_output_length :
    length (deref_host (_mem_manager (this s)) (output_host_ptr s))
    = length (_input_host_buffer (_mem_manager h));
  mirror_handles : same_handles (_mem_manager h) (_mem_manager (this s));
  mirror_pointers : input_host_ptr s ≠ output_host_ptr s
}.

(** The premise of the convergence property: in the run started on [h],
    pass [k] is the first in which the kernel writes out what it read.
    The passes are those of [iterate], which go on whatever the loop
    condition says. *)
Definition fixed_point_at (run : Run) (trial : Z) (h : Harness) (k : nat)
    : Prop :=
  (1 ≤ k)%nat
  ∧ is_Some (iterate k run trial (executeRun_init h))
  ∧ ∀ n s s',
      (n < k)%nat →
      iterate n run trial (executeRun_init h) = Some s →
      loop_body run trial s = Some s' →
      (kernel_output s s' = kernel_input s ↔ S n = k).

(** Two trials on the small instance with cap 1: the first trial after
    [n] passes, what the first trial returns, the second trial after [n]
    passes, and what [benchmark] returns. *)
Definition example_first_pass (n : nat) : Locals :=
  default example_entry
    (iterate n example_run 0 (executeRun_init (example_harness 1 2))).

Definition example_first_run : list SqlStat * Harness :=
  default ([], example_harness 1 2)
    (executeRun 10 example_run 0 (example_harness 1 2)).

Definition example_second_pass (n : nat) : Locals :=
  default example_entry
    (iterate n example_run 1
       (executeRun_init (resetInputs example_first_run.2))).

Definition example_stale_benchmark : list (list SqlStat) * Harness :=
  default ([], example_harness 1 2)
    (benchmark 10 example_run (example_harness 1 2)).

(** * Properties *)

(** ** Bytes and integers *)

Lemma byte_val_range b : 0 ≤ byte_val b < 256.
Proof.
  unfold byte_val. pose proof (Byte.to_N_bounded b). lia.
Qed.

Lemma byte_val_inj a b : byte_val a = byte_val b → a = b.
Proof.
  unfold byte_val. intros H. apply N2Z.inj in H.
  pose proof (Byte.of_to_N a) as Ha. rewrite H, Byte.of_to_N in Ha. congruence.
Qed.

Lemma load_word_range buf i : 0 ≤ load_word buf i < 2 ^ 32.
Proof.
  unfold load_word.
  pose proof (byte_val_range (byte_at buf (4 * i))).
  pose proof (byte_val_range (byte_at buf (4 * i + 1))).
  pose proof (byte_val_range (byte_at buf (4 * i + 2))).
  pose proof (byte_val_range (byte_at buf (4 * i + 3))).
  lia.
Qed.

Lemma to_signed_32_inj x y :
  0 ≤ x < 2 ^ 32 → 0 ≤ y < 2 ^ 32 → to_signed 32 x = to_signed 32 y → x = y.
Proof.
  unfold to_signed. intros Hx Hy.
  destruct (Z.ltb_spec x (2 ^ (32 - 1))), (Z.ltb_spec y (2 ^ (32 - 1))); lia.
Qed.

Lemma load_int_eq_bytes a b i j :
  load_int a i = load_int b j ↔ elem_bytes a i = elem_bytes b j.
Proof.
  unfold load_int, elem_bytes. split.
  - intros H. apply to_signed_32_inj in H; auto using load_word_range.
    unfold load_word in H.
    pose proof (byte_val_range (byte_at a (4 * i))).
    pose proof (byte_val_range (byte_at a (4 * i + 1))).
    pose proof (byte_val_range (byte_at a (4 * i + 2))).
    pose proof (byte_val_range (byte_at a (4 * i + 3))).
    pose proof (byte_val_range (byte_at b (4 * j))).
    pose proof (byte_val_range (byte_at b (4 * j + 1))).
    pose proof (byte_val_range (byte_at b (4 * j + 2))).
    pose proof (byte_val_range (byte_at b (4 * j + 3))).
    f_equal; [|f_equal; [|f_equal; [|f_equal]]]; apply byte_val_inj; lia.
  - intros H. injection H as H0 H1 H2 H3. unfold load_word. congruence.
Qed.

(** ** The termination test *)

Lemma vsize_div_nonneg {A} (buf : list A) : 0 ≤ vsize buf / 4.
Proof. unfold vsize. apply Z.div_pos; lia. Qed.

Section sti.
Variables (input output : list byte) (input_length output_length : Z).

Local Abbreviation n := (Z.min input_length output_length).
Local Abbreviation agree k := (agree_below input output n k).

Lemma sti_loop_unequal fuel i :
  sti_loop (S fuel) input output input_length output_length false i
  = Some false.
Proof. reflexivity. Qed.

Lemma sti_loop_guard i :
  (i <? input_length) && (i <? output_length) = bool_decide (i < n).
Proof.
  destruct (Z.ltb_spec i input_length), (Z.ltb_spec i output_length);
    simpl; symmetry;
    [apply bool_decide_eq_true | apply bool_decide_eq_false ..]; lia.
Qed.

(** Whatever the loop returns is the agreement of all paired elements,
    also when the counter has wrapped on the way. *)
Lemma sti_loop_sound fuel : ∀ i b,
  0 ≤ i < 2 ^ 32 → agree i →
  sti_loop fuel input output input_length output_length true i = Some b →
  (b = true ↔ agree n).
Proof.
  unfold agree_below.
  induction fuel as [|fuel IH]; intros i b Hi Hlow; simpl; [done|].
  rewrite sti_loop_guard. case_bool_decide as Hin.
  - destruct (Z.eqb_spec (load_int input i) (load_int output i)) as [He|Hne].
    + assert (Hlow' : ∀ j, 0 ≤ j < i + 1 → j < n →
                           load_int input j = load_int output j).
      { intros j Hj Hjn. destruct (decide (j = i)) as [->|]; [done|].
        apply Hlow; lia. }
      intros Hrun. unfold wrap in Hrun.
      destruct (decide (i + 1 < 2 ^ 32)) as [Hlt|Hge].
      * rewrite Z.mod_small in Hrun by lia. apply (IH (i + 1)); [lia|done|done].
      * replace (i + 1) with (2 ^ 32) in * by lia.
        rewrite Z.mod_same in Hrun by lia.
        apply (IH 0 b); [lia| |done]. intros j Hj; lia.
    + destruct fuel; simpl; [done|]. intros [= <-]. split; [done|].
      intros Hall. destruct Hne. apply Hall; lia.
  - intros [= <-]. split; [|done]. intros _ j Hj Hjn.
    apply Hlow; lia.
Qed.

(** Without a wrap of the counter the loop leaves within [n + 1] tests. *)
Lemma sti_loop_returns fuel : ∀ i,
  0 ≤ i ≤ n → n < 2 ^ 32 → (n - i < Z.of_nat fuel) →
  ∃ b, sti_loop fuel input output input_length output_length true i = Some b.
Proof.
  induction fuel as [|fuel IH]; intros i Hi Hn Hfuel; simpl; [lia|].
  rewrite sti_loop_guard. case_bool_decide as Hin; [|by eexists].
  destruct (load_int input i =? load_int output i).
  - unfold wrap. rewrite Z.mod_small by lia. apply IH; lia.
  - destruct fuel; [lia|]. by eexists.
Qed.
End sti.

Lemma should_terminate_iteration_sound this input output st :
  should_terminate_iteration this input output = Some st →
  (st = true ↔ buffers_agree input output).
Proof.
  unfold should_terminate_iteration, buffers_agree. intros H.
  apply sti_loop_sound in H; [|lia|intros j Hj; lia].
  rewrite H. unfold agree_below.
  split; [intros Hall j Hj|intros Hall j Hj _]; apply Hall; lia.
Qed.

Lemma should_terminate_iteration_returns this input output :
  Z.min (vsize input / 4) (vsize output / 4) < 2 ^ 32 →
  is_Some (should_terminate_iteration this input output).
Proof.
  intros Hn. unfold should_terminate_iteration.
  destruct (sti_loop_returns input output (vsize input / 4) (vsize output / 4)
              (S (Z.to_nat (Z.min (vsize input / 4) (vsize output / 4)))) 0)
    as [b Hb]; [|done| |by exists b];
    pose proof (vsize_div_nonneg input); pose proof (vsize_div_nonneg output);
    lia.
Qed.

(** C1.  Termination test.  For two host shadow buffers whose shorter
    one has fewer than [2^32] elements (every buffer the harness allocates:
    [main] caps an allocation at 1 GB), [should_terminate_iteration]
    returns, and it returns true if and only if every pair of [int]
    elements from position 0 up to the shorter length is equal; equality of
    the elements is equality of their four bytes, no tolerance enters; and
    the verdict is the same for every harness state, so it depends on the
    two buffers' bytes alone. *)
Theorem should_terminate_iteration_spec (this : Harness)
    (input output : list byte) :
  Z.min (vsize input / 4) (vsize output / 4) < 2 ^ 32 →
  ∃ b : bool,
    should_terminate_iteration this input output = Some b
    ∧ (b = true ↔
       ∀ i, 0 ≤ i < Z.min (vsize input / 4) (vsize output / 4) →
            load_int input i = load_int output i)
    ∧ (b = true ↔
       ∀ i, 0 ≤ i < Z.min (vsize input / 4) (vsize output / 4) →
            elem_bytes input i = elem_bytes output i)
    ∧ ∀ other : Harness,
        should_terminate_iteration other input output = Some b.
Proof.
  intros Hn.
  destruct (should_terminate_iteration_returns this input output Hn) as [b Hb].
  exists b. split; [done|].
  pose proof (should_terminate_iteration_sound _ _ _ _ Hb) as Hs.
  split; [exact Hs|]. split; [|intros other; exact Hb].
  rewrite Hs. unfold buffers_agree.
  split; intros H i Hi; apply load_int_eq_bytes, H, Hi.
Qed.

Section sti_fuel.
Variables (input output : list byte) (input_length output_length : Z).

Local Abbreviation n := (Z.min input_length output_length).
Local Abbreviation run fuel eq i :=
  (sti_loop fuel input output input_length output_length eq i).

Lemma sti_loop_more_fuel fuel : ∀ fuel' eq i b,
  run fuel eq i = Some b → (fuel ≤ fuel')%nat → run fuel' eq i = Some b.
Proof.
  induction fuel as [|fuel IH]; intros fuel' eq i b; simpl; [done|].
  intros Hrun Hle. destruct fuel' as [|fuel']; [lia|]. simpl.
  destruct (eq && (i <? input_length) && (i <? output_length)); [|done].
  apply (IH fuel'); [done|lia].
Qed.

Lemma sti_loop_None_agree f : ∀ i,
  0 ≤ i → i + Z.of_nat f ≤ 2 ^ 32 → 2 ^ 32 ≤ n →
  run (S f) true i = None →
  ∀ j, i ≤ j < i + Z.of_nat f → load_int input j = load_int output j.
Proof.
  induction f as [|f IH]; intros i Hi Hf Hn Hrun j Hj; [lia|].
  cbn [sti_loop] in Hrun. rewrite andb_true_l, sti_loop_guard in Hrun.
  rewrite bool_decide_eq_true_2 in Hrun by lia.
  destruct (Z.eqb_spec (load_int input i) (load_int output i)) as [He|Hne];
    [|done].
  destruct (decide (j = i)) as [->|Hji]; [done|].
  unfold wrap in Hrun. rewrite Z.mod_small in Hrun by lia.
  apply (IH (i + 1)); [lia|lia|done|done|lia].
Qed.

Lemma sti_loop_forever fuel : ∀ i,
  0 ≤ i < 2 ^ 32 → 2 ^ 32 ≤ n →
  (∀ j, 0 ≤ j < 2 ^ 32 → load_int input j = load_int output j) →
  run fuel true i = None.
Proof.
  induction fuel as [|fuel IH]; intros i Hi Hn Hall; [done|].
  cbn [sti_loop]. rewrite andb_true_l, sti_loop_guard.
  rewrite bool_decide_eq_true_2 by lia.
  rewrite (proj2 (Z.eqb_eq _ _) (Hall i Hi)).
  apply IH; [|done|done]. unfold wrap. apply Z.mod_pos_bound. lia.
Qed.
End sti_fuel.

(** The fuel of [should_terminate_iteration] loses nothing: when it is
    used up, no amount of fuel lets the loop leave. *)
Lemma should_terminate_iteration_fuel this input output :
  should_terminate_iteration this input output = None →
  ∀ fuel, sti_loop fuel input output (vsize input / 4) (vsize output / 4)
            true 0 = None.
Proof.
  intros Hnone fuel.
  set (n := Z.min (vsize input / 4) (vsize output / 4)).
  destruct (decide (n < 2 ^ 32)) as [Hlt|Hge].
  { destruct (should_terminate_iteration_returns this input output Hlt) as [b Hb].
    congruence. }
  unfold should_terminate_iteration in Hnone. fold n in Hnone.
  assert (∃ f, Z.of_nat f = 2 ^ 32) as [f Hf].
  { exists (Z.to_nat (2 ^ 32)). apply Z2Nat.id. lia. }
  assert (Hshort : sti_loop (S f) input output (vsize input / 4)
                     (vsize output / 4) true 0 = None).
  { destruct (sti_loop (S f) _ _ _ _ _ _) as [b|] eqn:Hb; [|done].
    apply (sti_loop_more_fuel _ _ _ _ _ (S (Z.to_nat n))) in Hb; [congruence|].
    lia. }
  apply sti_loop_forever; [lia|fold n; lia|].
  intros j Hj.
  apply (sti_loop_None_agree input output (vsize input / 4) (vsize output / 4)
           f 0); [lia|lia|fold n; lia|done|lia].
Qed.

(** ** One pass through the loop body *)

Lemma rebinds_app l1 l2 : rebinds (l1 ++ l2) = rebinds l1 ++ rebinds l2.
Proof.
  induction l1 as [|c l1 IH]; [done|]. destruct c; simpl; by rewrite ?IH.
Qed.

Lemma launches_app l1 l2 : launches (l1 ++ l2) = (launches l1 + launches l2)%nat.
Proof.
  induction l1 as [|c l1 IH]; [done|]. destruct c; simpl; by rewrite ?IH.
Qed.

Lemma resetTempBuffers_loop_frame temps : ∀ k h,
  same_frame h (resetTempBuffers_loop temps k h)
  ∧ ∃ calls,
      cl_log (_cl (resetTempBuffers_loop temps k h)) = cl_log (_cl h) ++ calls
      ∧ rebinds calls = [] ∧ launches calls = 0%nat.
Proof.
  induction temps as [|arg temps IH]; intros k h; simpl.
  - split; [by constructor|]. exists []. by rewrite app_nil_r.
  - destruct (IH (S k) (fillGlobalArg (nth k (temp_globals (_args h)) 0%nat)
                          arg h)) as [[] (calls & Hlog & Hre & Hla)].
    split; [by constructor|].
    exists (EnqueueFillBuffer arg (nth k (temp_globals (_args h)) 0%nat)
              :: calls).
    split; [|done].
    rewrite Hlog. simpl. by rewrite <-app_assoc.
Qed.

Lemma deref_mem_store_host p v mm q :
  deref_mem (store_host p v mm) q = deref_mem mm q.
Proof. by destruct q. Qed.

Lemma loop_body_spec run trial s s' :
  loop_body run trial s = Some s' → body_spec run trial s s'.
Proof.
  unfold loop_body. intros H.
  set (h1 := set_mem_manager _ (this s)) in H.
  destruct (resetTempBuffers_loop_frame (_temp_global (_mem_manager h1)) 0 h1)
    as [Hfr (fills & Hlog & Hre & Hla)].
  fold (resetTempBuffers h1) in Hfr, Hlog.
  set (h2 := resetTempBuffers h1) in *.
  unfold executeKernel in H.
  destruct (_kernel h2 run _ _) as [mem' [start end_]] eqn:Hk.
  set (h3 := set_cl _ h2) in H.
  set (h4 := readFromGlobalArg _ _ h3) in H.
  unfold assertBuffersNotEqual in H.
  destruct (should_terminate_iteration h4 _ _) as [st|] eqn:Hst; [|done].
  simpl in H. injection H as <-.
  destruct Hfr as [Hke _ Hmm Hka _ _ _].
  assert (Hd : ∀ q, deref_mem (_mem_manager h4) q
                    = deref_mem (_mem_manager (this s)) q).
  { intros q. subst h4 h3. simpl. rewrite Hmm. by destruct q. }
  assert (Hin : _input_idx (_mem_manager h4)
                = _input_idx (_mem_manager (this s))).
  { subst h4 h3. simpl. by rewrite Hmm. }
  assert (Hout : _output_idx (_mem_manager h4)
                 = _output_idx (_mem_manager (this s))).
  { subst h4 h3. simpl. by rewrite Hmm. }
  split; try exact Hst;
    simpl; rewrite ?Hd, ?Hin, ?Hout, ?Hmm, ?Hka, ?Hlog, ?Hke; simpl.
  all: try done.
  - by eexists.
  - eexists. split; [by rewrite <-!app_assoc|].
    rewrite !launches_app, !rebinds_app, Hre, Hla. done.
  - exists (dev_mem (_cl h2)). rewrite Hke, Hka in Hk. simpl in Hk.
    rewrite Hk. unfold mem_bytes. simpl.
    destruct (output_host_ptr s), (output_mem_ptr s); done.
  - intros Hne. destruct (input_host_ptr s), (output_host_ptr s); done.
Qed.

Lemma length_read_into host device :
  length (read_into host device) = length host.
Proof.
  unfold read_into. rewrite length_take, length_app, length_drop. lia.
Qed.

Lemma read_into_same_length host device :
  length device = length host → read_into host device = device.
Proof.
  intros Hlen. unfold read_into.
  rewrite <-Hlen, take_app_length. done.
Qed.

(** A pass through the body comes back whenever the shorter shadow buffer
    has fewer than [2^32] elements. *)
Lemma loop_body_returns run trial s :
  Z.min (vsize (deref_host (_mem_manager (this s)) (input_host_ptr s)) / 4)
        (vsize (deref_host (_mem_manager (this s)) (output_host_ptr s)) / 4)
  < 2 ^ 32 →
  is_Some (loop_body run trial s).
Proof.
  intros Hsmall. unfold loop_body.
  set (h1 := set_mem_manager _ (this s)).
  destruct (resetTempBuffers_loop_frame (_temp_global (_mem_manager h1)) 0 h1)
    as [[_ _ Hmm _ _ _ _] _].
  fold (resetTempBuffers h1) in Hmm.
  set (h2 := resetTempBuffers h1) in *.
  unfold executeKernel.
  destruct (_kernel h2 run _ _) as [mem' [start end_]].
  set (h3 := set_cl _ h2).
  set (h4 := readFromGlobalArg _ _ h3).
  unfold assertBuffersNotEqual.
  destruct (should_terminate_iteration_returns h4
              (deref_host (_mem_manager h4) (input_host_ptr s))
              (deref_host (_mem_manager h4) (output_host_ptr s)))
    as [st Hst]; [|by rewrite Hst].
  assert (Hlen : ∀ p, length (deref_host (_mem_manager h4) p)
                      = length (deref_host (_mem_manager (this s)) p)).
  { intros p. subst h4 h3. simpl. rewrite Hmm. subst h1. simpl.
    destruct p, (output_host_ptr s); simpl; by rewrite ?length_read_into. }
  unfold vsize in *. by rewrite !Hlen.
Qed.

Lemma loop_body_lengths run trial s s' p :
  loop_body run trial s = Some s' →
  length (deref_host (_mem_manager (this s')) p)
  = length (deref_host (_mem_manager (this s)) p).
Proof.
  unfold loop_body. intros H.
  set (h1 := set_mem_manager _ (this s)) in H.
  destruct (resetTempBuffers_loop_frame (_temp_global (_mem_manager h1)) 0 h1)
    as [[_ _ Hmm _ _ _ _] _].
  fold (resetTempBuffers h1) in Hmm.
  set (h2 := resetTempBuffers h1) in *.
  unfold executeKernel in H.
  destruct (_kernel h2 run _ _) as [mem' [start end_]].
  destruct (should_terminate_iteration _ _ _) as [st|]; [|done].
  simpl in H. injection H as <-. simpl. rewrite Hmm. subst h1. simpl.
  destruct p, (output_host_ptr s); simpl; by rewrite ?length_read_into.
Qed.

(** ** The [do] loop *)

Section loop.
Variables (run : Run) (trial : Z).

Lemma iterate_S_first n : ∀ s,
  iterate (S n) run trial s
  = loop_body run trial s ≫= iterate n run trial.
Proof.
  induction n as [|n IH]; intros s.
  - simpl. by destruct (loop_body run trial s).
  - change (iterate (S (S n)) run trial s)
      with (iterate (S n) run trial s ≫= loop_body run trial).
    rewrite IH. simpl. by destruct (loop_body run trial s).
Qed.

(** The loop leaves exactly at the first pass whose test succeeds. *)
Lemma do_while_Some fuel : ∀ s s',
  do_while fuel run trial s = Some s' →
  ∃ k, (1 ≤ k ≤ fuel)%nat
       ∧ iterate k run trial s = Some s'
       ∧ should_terminate s' = true
       ∧ ∀ j sj, (1 ≤ j < k)%nat → iterate j run trial s = Some sj →
                 should_terminate sj = false.
Proof.
  induction fuel as [|fuel IH]; intros s s'; simpl; [done|].
  destruct (loop_body run trial s) as [s1|] eqn:Hbody; simpl; [|done].
  destruct (should_terminate s1) eqn:Hst.
  - intros [= <-]. exists 1%nat. simpl. rewrite Hbody.
    repeat split; [lia|lia|done|]. intros; lia.
  - intros Hrun. destruct (IH _ _ Hrun) as (k & Hk & Hit & Hs' & Hbefore).
    exists (S k). rewrite iterate_S_first, Hbody.
    repeat split; [lia|lia|done|done|].
    intros j sj Hj. destruct j as [|j]; [lia|].
    rewrite iterate_S_first, Hbody.
    change (Some s1 ≫= iterate j run trial) with (iterate j run trial s1).
    destruct j as [|j].
    + by intros [= <-].
    + apply Hbefore. lia.
Qed.

Lemma do_while_at k : ∀ s sk fuel,
  (1 ≤ k)%nat →
  iterate k run trial s = Some sk →
  should_terminate sk = true →
  (∀ j sj, (1 ≤ j < k)%nat → iterate j run trial s = Some sj →
           should_terminate sj = false) →
  do_while fuel run trial s = if decide (k ≤ fuel)%nat then Some sk else None.
Proof.
  induction k as [|k IH]; intros s sk fuel Hk Hit Hst Hbefore; [lia|].
  rewrite iterate_S_first in Hit.
  destruct (loop_body run trial s) as [s1|] eqn:Hbody; [|done].
  change (Some s1 ≫= iterate k run trial) with (iterate k run trial s1) in Hit.
  destruct fuel as [|fuel]; [by case_decide; [lia|]|].
  cbn [do_while]. rewrite Hbody.
  change (Some s1 ≫= ?f) with (f s1). cbv beta.
  destruct k as [|k].
  - injection Hit as ->. rewrite Hst. case_decide; [done|lia].
  - rewrite (Hbefore 1%nat s1); [|lia|by simpl; rewrite Hbody].
    rewrite (IH s1 sk fuel); [|lia|done|done|].
    + repeat case_decide; (done || lia).
    + intros j sj Hj Hj'. apply (Hbefore (S j)); [lia|].
      by rewrite iterate_S_first, Hbody.
Qed.

Lemma do_while_None fuel : ∀ s,
  (∀ j sj, (1 ≤ j ≤ fuel)%nat → iterate j run trial s = Some sj →
           should_terminate sj = false) →
  do_while fuel run trial s = None.
Proof.
  induction fuel as [|fuel IH]; intros s Hnever; simpl; [done|].
  destruct (loop_body run trial s) as [s1|] eqn:Hbody; [|done]. simpl.
  rewrite (Hnever 1%nat s1); [|lia|by simpl; rewrite Hbody].
  apply IH. intros j sj Hj Hj'. apply (Hnever (S j)); [lia|].
  by rewrite iterate_S_first, Hbody.
Qed.
End loop.

Lemma raw_records_snoc run trial times time :
  raw_records run trial 0 (times ++ [time])
  = raw_records run trial 0 times
    ++ [mkSqlStat time NOT_CHECKED (global1 run) (local1 run) RAW_RESULT
          (Some trial) (Some (Z.of_nat (length times)))].
Proof.
  unfold raw_records. rewrite imap_app. simpl.
  by rewrite Nat.add_0_r.
Qed.

Lemma iterate_inv run trial h n : ∀ s,
  iterate n run trial (executeRun_init h) = Some s → run_inv run trial h n s.
Proof.
  induction n as [|n IH]; intros s.
  - intros [= <-]. split; simpl; try done.
    + by exists [].
    + exists []. by rewrite app_nil_r.
  - simpl. destruct (iterate n run trial (executeRun_init h)) as [s0|];
      [|done].
    simpl. intros Hbody. apply loop_body_spec in Hbody.
    destruct Hbody as [[time Ht] Him Hom Hih Hoh Hit _ Hx Ho Hii Hoi
                         (new & Hlog & Hla & Hre) _ _ _ _ _].
    destruct (IH s0 eq_refl) as [(times & Hl & Hr) Iit Iim Iom Iih Ioh Ix Io
                                   Iii Ioi (calls & Hlog0 & Hla0 & Hlen0 & Hall0)].
    split; rewrite ?Nat.odd_succ, <-?Nat.negb_odd; try congruence.
    + exists (times ++ [time]). rewrite length_app, raw_records_snoc. simpl.
      split; [lia|]. rewrite Ht, Hr, Iit. by subst n.
    + lia.
    + rewrite Him, Iom. by destruct (Nat.odd n).
    + rewrite Hom, Iim. by destruct (Nat.odd n).
    + rewrite Hih, Ioh. by destruct (Nat.odd n).
    + rewrite Hoh, Iih. by destruct (Nat.odd n).
    + exists (calls ++ new). rewrite Hlog, Hlog0, <-app_assoc.
      rewrite launches_app, rebinds_app, length_app, Hla, Hla0, Hlen0, Hre.
      repeat split; [lia|simpl; lia|].
      apply Forall_app. split; [done|].
      rewrite Iii, Ioi.
      repeat (apply List.Forall_cons; [simpl; auto|]). constructor.
Qed.

Lemma buffers_agree_sym a b : buffers_agree a b → buffers_agree b a.
Proof.
  unfold buffers_agree. intros H i Hi. symmetry. apply H. lia.
Qed.

(** From the first pass on, the loop condition is the agreement of the
    two shadow buffers. *)
Lemma iterate_should_terminate run trial h n s :
  iterate (S n) run trial (executeRun_init h) = Some s →
  should_terminate s = true ↔ shadows_agree (this s).
Proof.
  simpl. destruct (iterate n run trial (executeRun_init h)) as [s0|] eqn:Hn;
    [|done].
  simpl. intros Hbody. apply loop_body_spec in Hbody.
  pose proof (body_test _ _ _ _ Hbody) as Htest.
  destruct (iterate_inv _ _ _ _ _ Hn) as [_ _ _ _ Iih Ioh _ _ _ _ _].
  apply should_terminate_iteration_sound in Htest. rewrite Htest.
  rewrite Iih, Ioh. unfold shadows_agree.
  destruct (Nat.odd n); simpl; [|done].
  split; apply buffers_agree_sym.
Qed.

(** ** The loop does not read the settings *)

Section config.
Variables (trials timeout : Z) (delta : Q).
Local Abbreviation cfg := (set_config trials timeout delta).

Lemma resetTempBuffers_loop_config temps : ∀ k h,
  resetTempBuffers_loop temps k (cfg h)
  = cfg (resetTempBuffers_loop temps k h).
Proof.
  induction temps as [|arg temps IH]; intros k h; [done|].
  simpl. rewrite <-IH. done.
Qed.

Lemma loop_body_config run trial s :
  loop_body run trial (map_this cfg s)
  = map_this cfg <$> loop_body run trial s.
Proof.
  unfold loop_body, resetTempBuffers, executeKernel. simpl.
  change (set_mem_manager ?mm (cfg ?h)) with (cfg (set_mem_manager mm h)).
  rewrite resetTempBuffers_loop_config. simpl.
  match goal with
  | |- context [_kernel ?h ?r ?a ?m] =>
      destruct (_kernel h r a m) as [mem' [start end_]]
  end. simpl.
  unfold should_terminate_iteration.
  destruct (sti_loop _ _ _ _ _ _ _); done.
Qed.

Lemma do_while_config run trial fuel : ∀ s,
  do_while fuel run trial (map_this cfg s)
  = map_this cfg <$> do_while fuel run trial s.
Proof.
  induction fuel as [|fuel IH]; intros s; [done|].
  cbn [do_while]. rewrite loop_body_config.
  destruct (loop_body run trial s) as [s1|]; [|done]. simpl.
  destruct (should_terminate s1); [done|apply IH].
Qed.

Lemma executeRun_config run trial fuel h :
  executeRun fuel run trial (cfg h)
  = prod_map id cfg <$> executeRun fuel run trial h.
Proof.
  unfold executeRun.
  change (executeRun_init (cfg h)) with (map_this cfg (executeRun_init h)).
  rewrite do_while_config.
  by destruct (do_while fuel run trial (executeRun_init h)).
Qed.
End config.

(** ** Properties of [executeRun] *)

Lemma calls_since_app h h' calls :
  cl_log (_cl h') = cl_log (_cl h) ++ calls → calls_since h h' = calls.
Proof. unfold calls_since. intros ->. by rewrite drop_app_length. Qed.

Lemma length_raw_records run trial first times :
  length (raw_records run trial first times) = length times.
Proof. unfold raw_records. by rewrite length_imap. Qed.

Lemma executeRun_Some fuel run trial h recs h' :
  executeRun fuel run trial h = Some (recs, h') →
  ∃ k sk, (1 ≤ k ≤ fuel)%nat
    ∧ iterate k run trial (executeRun_init h) = Some sk
    ∧ should_terminate sk = true
    ∧ (∀ j sj, (1 ≤ j < k)%nat →
               iterate j run trial (executeRun_init h) = Some sj →
               should_terminate sj = false)
    ∧ recs = runtimes sk ∧ h' = this sk.
Proof.
  unfold executeRun.
  destruct (do_while fuel run trial (executeRun_init h)) as [s|] eqn:Hrun;
    [|done].
  simpl. intros [= <- <-].
  destruct (do_while_Some _ _ _ _ _ Hrun) as (k & Hk & Hit & Hst & Hbefore).
  by exists k, s.
Qed.

Lemma executeRun_at run trial h k sk fuel :
  (1 ≤ k)%nat →
  iterate k run trial (executeRun_init h) = Some sk →
  should_terminate sk = true →
  (∀ j sj, (1 ≤ j < k)%nat →
           iterate j run trial (executeRun_init h) = Some sj →
           should_terminate sj = false) →
  executeRun fuel run trial h
  = if decide (k ≤ fuel)%nat then Some (runtimes sk, this sk) else None.
Proof.
  intros Hk Hit Hst Hbefore. unfold executeRun.
  rewrite (do_while_at run trial k _ sk fuel Hk Hit Hst Hbefore).
  by case_decide.
Qed.

(** C9.  The only exit of the loop is a successful termination test.
    Whenever [executeRun] returns, the last pass made the test true (the
    shadows agree); if the test is false in every pass up to [fuel], the
    loop is still running after [fuel] passes, so a test that never
    becomes true means the loop never returns; if the test first becomes
    true in pass [k], the loop returns exactly at pass [k]; the value kept
    in [should_terminate] is the result of [should_terminate_iteration] on
    the two shadow buffers; and the settings [_trials], [_timeout] and
    [_delta] have no influence on the loop. *)
Theorem executeRun_exit_condition (run : Run) (trial : Z) (h : Harness) :
  (∀ fuel recs h',
     executeRun fuel run trial h = Some (recs, h') →
     ∃ k sk, (1 ≤ k ≤ fuel)%nat
       ∧ iterate k run trial (executeRun_init h) = Some sk
       ∧ should_terminate sk = true
       ∧ shadows_agree (this sk)
       ∧ h' = this sk ∧ length recs = k)
  ∧ (∀ fuel,
       (∀ j sj, (1 ≤ j ≤ fuel)%nat →
                iterate j run trial (executeRun_init h) = Some sj →
                should_terminate sj = false) →
       executeRun fuel run trial h = None)
  ∧ ((∀ j sj, (1 ≤ j)%nat →
              iterate j run trial (executeRun_init h) = Some sj →
              should_terminate sj = false) →
     ∀ fuel, executeRun fuel run trial h = None)
  ∧ (∀ k sk,
       (1 ≤ k)%nat →
       iterate k run trial (executeRun_init h) = Some sk →
       should_terminate sk = true →
       (∀ j sj, (1 ≤ j < k)%nat →
                iterate j run trial (executeRun_init h) = Some sj →
                should_terminate sj = false) →
       ∀ fuel, executeRun fuel run trial h
               = if decide (k ≤ fuel)%nat
                 then Some (runtimes sk, this sk) else None)
  ∧ (∀ j s sj,
       iterate j run trial (executeRun_init h) = Some s →
       loop_body run trial s = Some sj →
       should_terminate_iteration (this sj)
         (deref_host (_mem_manager (this sj)) (input_host_ptr s))
         (deref_host (_mem_manager (this sj)) (output_host_ptr s))
       = Some (should_terminate sj))
  ∧ (∀ trials timeout delta fuel,
       executeRun fuel run trial (set_config trials timeout delta h)
       = prod_map id (set_config trials timeout delta)
           <$> executeRun fuel run trial h).
Proof.
  split; [|split; [|split; [|split; [|split]]]].
  - intros fuel recs h' Hrun.
    destruct (executeRun_Some _ _ _ _ _ _ Hrun)
      as (k & sk & Hk & Hit & Hst & _ & -> & ->).
    exists k, sk. repeat split; try done; try lia.
    + destruct k as [|k]; [lia|].
      by apply (iterate_should_terminate run trial h k).
    + destruct (iterate_inv _ _ _ _ _ Hit)
        as [(times & Hlen & ->) _ _ _ _ _ _ _ _ _ _].
      by rewrite length_raw_records.
  - intros fuel Hnever. unfold executeRun.
    by rewrite do_while_None.
  - intros Hnever fuel. unfold executeRun.
    rewrite do_while_None; [done|]. intros j sj Hj. apply Hnever. lia.
  - intros k sk Hk Hit Hst Hbefore fuel. by apply executeRun_at.
  - intros j s sj _ Hbody. by destruct (loop_body_spec _ _ _ _ Hbody).
  - intros. apply executeRun_config.
Qed.

Lemma odd_true_iff n : Nat.odd n = true ↔ Nat.Odd n.
Proof. apply Nat.odd_spec. Qed.

Lemma odd_false_iff n : Nat.odd n = false ↔ Nat.Even n.
Proof.
  rewrite <-Nat.even_spec, <-Nat.negb_odd. by destruct (Nat.odd n).
Qed.

(** C8.  Role swap.  After [N] passes of the loop, the pointer that
    started as the input handle is the output pointer if and only if [N]
    is odd and the input pointer if and only if [N] is even, and likewise
    for the host shadows; the handles themselves stay in their fields (the
    swap exchanges pointers, not contents), and two more passes restore the
    roles. *)
Theorem role_swap_parity (run : Run) (trial : Z) (h : Harness) (N : nat)
    (s : Locals) :
  iterate N run trial (executeRun_init h) = Some s →
  let mm := _mem_manager (this s) in
  let original_input := deref_mem (_mem_manager h) ptr_x_vect in
  let original_output := deref_mem (_mem_manager h) ptr_output in
  (output_mem_ptr s = ptr_x_vect ↔ Nat.Odd N)
  ∧ (input_mem_ptr s = ptr_x_vect ↔ Nat.Even N)
  ∧ (input_mem_ptr s = ptr_output ↔ Nat.Odd N)
  ∧ (output_mem_ptr s = ptr_output ↔ Nat.Even N)
  ∧ (output_host_ptr s = ptr_input_host_buffer ↔ Nat.Odd N)
  ∧ (input_host_ptr s = ptr_input_host_buffer ↔ Nat.Even N)
  ∧ deref_mem mm (output_mem_ptr s)
    = (if Nat.odd N then original_input else original_output)
  ∧ deref_mem mm (input_mem_ptr s)
    = (if Nat.odd N then original_output else original_input)
  ∧ (original_input ≠ original_output →
     (deref_mem mm (output_mem_ptr s) = original_input ↔ Nat.Odd N)
     ∧ (deref_mem mm (input_mem_ptr s) = original_input ↔ Nat.Even N))
  ∧ (∀ s2, iterate (2 + N) run trial (executeRun_init h) = Some s2 →
       input_mem_ptr s2 = input_mem_ptr s
       ∧ output_mem_ptr s2 = output_mem_ptr s
       ∧ input_host_ptr s2 = input_host_ptr s
       ∧ output_host_ptr s2 = output_host_ptr s).
Proof.
  intros Hit.
  destruct (iterate_inv _ _ _ _ _ Hit) as [_ _ Him Hom Hih Hoh Hx Ho _ _ _].
  assert (Hperiod : ∀ s2,
            iterate (2 + N) run trial (executeRun_init h) = Some s2 →
            input_mem_ptr s2 = input_mem_ptr s
            ∧ output_mem_ptr s2 = output_mem_ptr s
            ∧ input_host_ptr s2 = input_host_ptr s
            ∧ output_host_ptr s2 = output_host_ptr s).
  { intros s2 Hit2.
    destruct (iterate_inv _ _ _ _ _ Hit2) as [_ _ Him2 Hom2 Hih2 Hoh2 _ _ _ _ _].
    rewrite Him, Hom, Hih, Hoh, Him2, Hom2, Hih2, Hoh2.
    change (2 + N)%nat with (S (S N)).
    by rewrite Nat.odd_succ, Nat.even_succ. }
  cbv zeta. rewrite Him, Hom, Hih, Hoh, <-odd_true_iff, <-odd_false_iff.
  rewrite Him, Hom, Hih, Hoh in Hperiod.
  destruct (Nat.odd N) eqn:Hodd; cbn [deref_mem]; rewrite ?Hx, ?Ho;
    (repeat split; try done); try (intros; congruence).
  all: by apply Hperiod.
Qed.

(** C3, amended to what the code does.  Every pass of the loop makes
    exactly three [setGlobalArg] calls: slot [_input_idx] and slot 3 get the
    new input buffer, slot [_output_idx] gets the new output buffer; every
    other slot keeps its binding, and over the whole run so far no other
    slot has been rebound. *)
Theorem loop_body_rebinds (run : Run) (trial : Z) (h : Harness) (n : nat)
    (s s' : Locals) :
  iterate n run trial (executeRun_init h) = Some s →
  loop_body run trial s = Some s' →
  let input_idx := _input_idx (_mem_manager h) in
  let output_idx := _output_idx (_mem_manager h) in
  let new_input := deref_mem (_mem_manager (this s')) (input_mem_ptr s') in
  let new_output := deref_mem (_mem_manager (this s')) (output_mem_ptr s') in
  rebinds (calls_since (this s) (this s'))
  = [(input_idx, GlobalArg new_input); (output_idx, GlobalArg new_output);
     (3%nat, GlobalArg new_input)]
  ∧ kernel_args (_cl (this s'))
    = <[3%nat := GlobalArg new_input]>
        (<[output_idx := GlobalArg new_output]>
           (<[input_idx := GlobalArg new_input]> (kernel_args (_cl (this s)))))
  ∧ (∀ slot, slot ≠ input_idx → slot ≠ output_idx → slot ≠ 3%nat →
       kernel_args (_cl (this s')) !! slot = kernel_args (_cl (this s)) !! slot)
  ∧ Forall (λ b, b.1 = input_idx ∨ b.1 = output_idx ∨ b.1 = 3%nat)
      (rebinds (calls_since h (this s')))
  ∧ length (rebinds (calls_since h (this s'))) = (3 * S n)%nat.
Proof.
  intros Hit Hbody. simpl.
  assert (Hit' : iterate (S n) run trial (executeRun_init h) = Some s').
  { simpl. by rewrite Hit. }
  destruct (iterate_inv _ _ _ _ _ Hit) as [_ _ _ _ _ _ _ _ Iii Ioi _].
  destruct (iterate_inv _ _ _ _ _ Hit')
    as [_ _ _ _ _ _ _ _ _ _ (calls & Hlog & _ & Hlen & Hall)].
  destruct (loop_body_spec _ _ _ _ Hbody)
    as [_ Him Hom _ _ _ _ Hx Ho _ _ (new & Hnew & _ & Hre) _ _ _ _ Hka].
  assert (Hd : ∀ q, deref_mem (_mem_manager (this s')) q
                    = deref_mem (_mem_manager (this s)) q).
  { intros []; simpl; congruence. }
  rewrite (calls_since_app _ _ _ Hnew), (calls_since_app _ _ _ Hlog).
  rewrite !Hd, Him, Hom, <-Iii, <-Ioi.
  repeat split; try done.
  - intros slot H1 H2 H3. rewrite Hka.
    by rewrite !lookup_insert_ne.
  - by rewrite Iii, Ioi.
Qed.

(** C10.  At least one pass.  Whenever [executeRun] returns, its
    sequence holds at least one raw record and the kernel was launched once
    per record, whatever the shadow buffers held on entry; so index [n/2]
    of the sorted sequence is in bounds and [trial_stats] finds its median.
    The first pass is made before any test: once it comes back there is one
    launch and one record, and if its test is true the loop returns with
    that single record. *)
Theorem executeRun_at_least_once (run : Run) (trial : Z) (h : Harness) :
  (∀ fuel recs h',
     executeRun fuel run trial h = Some (recs, h') →
     (1 ≤ length recs)%nat
     ∧ launches (calls_since h h') = length recs
     ∧ (length recs / 2 < length recs)%nat
     ∧ is_Some (merge_sort compare recs
                  !! Z.to_nat (vsize (merge_sort compare recs) / 2))
     ∧ is_Some (trial_stats run trial recs))
  ∧ (∀ s1,
       loop_body run trial (executeRun_init h) = Some s1 →
       launches (calls_since h (this s1)) = 1%nat
       ∧ length (runtimes s1) = 1%nat
       ∧ (should_terminate s1 = true →
          ∀ fuel, executeRun (S fuel) run trial h
                  = Some (runtimes s1, this s1)))
  ∧ (Z.min (vsize (_input_host_buffer (_mem_manager h)) / 4)
           (vsize (_output_host_buffer (_mem_manager h)) / 4) < 2 ^ 32 →
     is_Some (loop_body run trial (executeRun_init h))).
Proof.
  split; [|split; [|exact (loop_body_returns run trial (executeRun_init h))]].
  - intros fuel recs h' Hrun.
    destruct (executeRun_Some _ _ _ _ _ _ Hrun)
      as (k & sk & Hk & Hit & _ & _ & -> & ->).
    destruct (iterate_inv _ _ _ _ _ Hit)
      as [(times & Hlen & Hrec) _ _ _ _ _ _ _ _ _ (calls & Hlog & Hla & _)].
    rewrite (calls_since_app _ _ _ Hlog), Hrec, length_raw_records, Hlen, Hla.
    assert (Hidx : (Z.to_nat (vsize (merge_sort compare
                                       (raw_records run trial 0 times)) / 2)
                    < length (merge_sort compare
                                (raw_records run trial 0 times)))%nat).
    { unfold vsize. rewrite (merge_sort_Permutation compare _).
      rewrite length_raw_records, Hlen.
      apply Nat2Z.inj_lt. rewrite Z2Nat.id by (apply Z.div_pos; lia).
      apply Z.div_lt; lia. }
    apply lookup_lt_is_Some_2 in Hidx.
    repeat split; [lia|apply Nat.div_lt; lia|done|].
    unfold trial_stats. destruct Hidx as [m ->]. by eexists.
  - intros s1 Hbody.
    assert (Hit : iterate 1 run trial (executeRun_init h) = Some s1) by done.
    destruct (iterate_inv _ _ _ _ _ Hit)
      as [(times & Hlen & Hrec) _ _ _ _ _ _ _ _ _ (calls & Hlog & Hla & _)].
    rewrite (calls_since_app _ _ _ Hlog), Hrec, length_raw_records.
    repeat split; try done.
    intros Hst fuel. unfold executeRun. cbn [do_while].
    rewrite Hbody. simpl. rewrite Hst. simpl. by rewrite Hrec.
Qed.

(** ** Trial aggregation *)

Global Instance compare_total : Total compare.
Proof. intros a b. unfold compare. lia. Qed.

Lemma total_Permutation l1 l2 : l1 ≡ₚ l2 → total l1 = total l2.
Proof.
  induction 1; simpl; lia.
Qed.

Lemma total_app l1 l2 : total (l1 ++ l2) = total l1 + total l2.
Proof. induction l1; simpl; lia. Qed.

Lemma accumulate_total (l : list SqlStat) : ∀ a,
  foldl (λ time stat, time + getTime stat) a l = a + total (getTime <$> l).
Proof.
  induction l as [|x l IH]; intros a; [simpl; lia|].
  cbn [foldl]. rewrite IH, fmap_cons. unfold total. cbn [foldr]. lia.
Qed.

Lemma median_index (n : nat) : Z.to_nat (Z.of_nat n / 2) = (n / 2)%nat.
Proof.
  change 2 with (Z.of_nat 2). rewrite <-Nat2Z.inj_div. apply Nat2Z.id.
Qed.

(** What [trial_stats] returns, piece by piece. *)
Lemma trial_stats_unfold run t raw :
  (1 ≤ length raw)%nat →
  ∃ m,
    merge_sort compare raw !! (length raw / 2)%nat = Some m
    ∧ trial_stats run t raw
      = Some (merge_sort compare raw
              ++ [mkSqlStat (getTime m) NOT_CHECKED (global1 run)
                    (local1 run) MEDIAN_RESULT (Some t) None;
                  mkSqlStat (total (getTime <$> raw) + getTime m) NOT_CHECKED
                    (global1 run) (local1 run) MULTI_ITERATION_SUM None None]).
Proof.
  intros Hlen. unfold trial_stats, vsize.
  pose proof (merge_sort_Permutation compare raw) as Hperm.
  rewrite median_index, (Permutation_length Hperm).
  destruct (lookup_lt_is_Some_2 (merge_sort compare raw) (length raw / 2))
    as [m Hm].
  { rewrite (Permutation_length Hperm). apply Nat.div_lt; lia. }
  exists m. split; [done|]. rewrite Hm. simpl.
  rewrite accumulate_total, fmap_app, total_app, <-app_assoc. simpl.
  rewrite (total_Permutation _ _ (fmap_Permutation getTime _ _ Hperm)).
  replace (0 + (total (getTime <$> raw) + (getTime m + 0)))
    with (total (getTime <$> raw) + getTime m) by lia.
  done.
Qed.

(** C5.  Median.  For a trial with [n >= 1] raw records, [trial_stats]
    returns the records sorted by duration followed by a median record and
    a sum record, and the duration of the median record is the element at
    index [n/2] (integer division) of the durations in ascending order; it
    is one of the durations, never an average. *)
Theorem trial_stats_median (run : Run) (t : Z) (raw : list SqlStat) :
  (1 ≤ length raw)%nat →
  ∃ sorted median sum,
    trial_stats run t raw = Some (sorted ++ [median; sum])
    ∧ sorted ≡ₚ raw
    ∧ Sorted compare sorted
    ∧ getStatType median = MEDIAN_RESULT
    ∧ getStatType sum = MULTI_ITERATION_SUM
    ∧ (∀ durations,
         Sorted Z.le durations → durations ≡ₚ getTime <$> raw →
         durations !! (length raw / 2)%nat = Some (getTime median)).
Proof.
  intros Hlen. destruct (trial_stats_unfold run t raw Hlen) as (m & Hm & ->).
  eexists _, _, _. split; [done|].
  split; [apply merge_sort_Permutation|].
  split; [apply (Sorted_merge_sort compare)|].
  do 2 (split; [done|]).
  intros durations Hsorted Hperm. cbn [getTime].
  assert (durations = getTime <$> merge_sort compare raw) as ->.
  { apply (Sorted_unique Z.le); [done| |].
    - apply (Sorted_fmap getTime compare Z.le); [done|].
      apply (Sorted_merge_sort compare).
    - rewrite Hperm. apply fmap_Permutation. symmetry.
      apply merge_sort_Permutation. }
  by rewrite list_lookup_fmap, Hm.
Qed.

(** The sum record holds the total of the raw durations plus the median
    duration, since the median record is already in the vector when the
    total is accumulated. *)
Lemma trial_stats_sum (run : Run) (t : Z) (raw : list SqlStat) :
  (1 ≤ length raw)%nat →
  ∃ sorted median sum,
    trial_stats run t raw = Some (sorted ++ [median; sum])
    ∧ getTime sum = total (getTime <$> raw) + getTime median.
Proof.
  intros Hlen. destruct (trial_stats_unfold run t raw Hlen) as (m & Hm & ->).
  by eexists _, _, _.
Qed.

(** C2, evaluated on the code.  For raw durations [5; 1; 3] the sum
    record holds 12, not 9: the median record (3) is pushed onto the vector
    before the total is accumulated over the whole vector. *)
Theorem trial_stats_sum_includes_median :
  (List.map getStatType
     <$> trial_stats example_run 0 (raw_records example_run 0 0 [5; 1; 3]))
  = Some [RAW_RESULT; RAW_RESULT; RAW_RESULT; MEDIAN_RESULT;
          MULTI_ITERATION_SUM]
  ∧ (List.map getTime
       <$> trial_stats example_run 0 (raw_records example_run 0 0 [5; 1; 3]))
    = Some [1; 3; 5; 3; 12]
  ∧ total [5; 1; 3] = 9
  ∧ 12 = total [5; 1; 3] + 3.
Proof. by vm_compute. Qed.

(** ** The correctness checker *)

Lemma mismatches_from_elem res gold : ∀ i m,
  m ∈ mismatches_from i gold res ↔
  ∃ k : nat, gold !! k = Some (expected m)
             ∧ index m = i + Z.of_nat k
             ∧ found m = load_int res (i + Z.of_nat k)
             ∧ expected m ≠ found m.
Proof.
  induction gold as [|g gold IH]; intros i m; simpl.
  - split; [by intros ?%elem_of_nil|]. by intros (k & Hk & _).
  - rewrite elem_of_app, IH. split.
    + intros [Hm|(k & Hk & Hi & Hf & Hne)].
      * destruct (Z.eqb_spec g (load_int res i)) as [|Hne];
          [by apply elem_of_nil in Hm|].
        apply list_elem_of_singleton in Hm as ->. exists 0%nat. simpl.
        rewrite Z.add_0_r. by repeat split.
      * exists (S k). split; [exact Hk|].
        replace (i + Z.of_nat (S k)) with (i + 1 + Z.of_nat k) by lia.
        by repeat split.
    + intros ([|k] & Hk & Hi & Hf & Hne).
      * left. injection Hk as ->. change (Z.of_nat 0) with 0 in Hi, Hf.
        rewrite Z.add_0_r in Hi, Hf.
        destruct (Z.eqb_spec (expected m) (load_int res i)) as [|_];
          [congruence|].
        apply list_elem_of_singleton. destruct m; simpl in *; congruence.
      * right. exists k. split; [exact Hk|].
        replace (i + 1 + Z.of_nat k) with (i + Z.of_nat (S k)) by lia.
        by repeat split.
Qed.

Lemma mismatches_from_sorted res gold : ∀ i,
  Forall (λ m, i ≤ index m) (mismatches_from i gold res)
  ∧ Sorted (λ a b, index a < index b) (mismatches_from i gold res).
Proof.
  induction gold as [|g gold IH]; intros i; simpl; [by split|].
  destruct (IH (i + 1)) as [Hall Hsorted].
  assert (Hall' : Forall (λ m, i ≤ index m) (mismatches_from (i + 1) gold res)).
  { eapply Forall_impl; [exact Hall|]. simpl. intros; lia. }
  destruct (g =? load_int res i); simpl; [done|].
  split; [by constructor|]. constructor; [done|].
  destruct Hall as [|m ms Hm _]; constructor. simpl. lia.
Qed.

Section check_loop.
Variables (gold : list Z) (res : list byte).
Hypothesis gold_small : vsize gold < 2 ^ 32.

Lemma check_loop_spec rest : ∀ fuel done_ log,
  gold = done_ ++ rest →
  (length rest < fuel)%nat →
  (length log < 20)%nat →
  check_loop fuel gold res (vsize done_) (vsize log) log
  = Some (vsize (take 20 (log ++ mismatches_from (vsize done_) rest res)),
          take 20 (log ++ mismatches_from (vsize done_) rest res)).
Proof.
  induction rest as [|g rest IH]; intros fuel done_ log Hgold Hfuel Hlog;
    (destruct fuel as [|fuel]; [simpl in Hfuel; lia|]); cbn [check_loop].
  - rewrite app_nil_r in Hgold. subst done_.
    rewrite (proj2 (Z.ltb_ge _ _)) by lia.
    simpl. rewrite app_nil_r, take_ge by lia. done.
  - assert (Hsize : vsize gold = vsize done_ + 1 + vsize rest).
    { unfold vsize. rewrite Hgold, length_app. simpl. lia. }
    assert (Hrest : 0 ≤ vsize rest) by (unfold vsize; lia).
    assert (Hdone : 0 ≤ vsize done_) by (unfold vsize; lia).
    rewrite (proj2 (Z.ltb_lt _ _)) by lia.
    assert (Hnth : nth (Z.to_nat (vsize done_)) gold 0 = g).
    { unfold vsize. rewrite Nat2Z.id, Hgold. apply nth_middle. }
    rewrite Hnth. unfold wrap. rewrite Z.mod_small by lia.
    assert (Hnext : vsize done_ + 1 = vsize (done_ ++ [g])).
    { unfold vsize. rewrite length_app. simpl. lia. }
    assert (Hgold' : gold = (done_ ++ [g]) ++ rest).
    { by rewrite <-app_assoc. }
    cbn [mismatches_from].
    destruct (Z.eqb_spec g (load_int res (vsize done_))) as [He|Hne];
      cbn [negb app].
    + rewrite Hnext. apply IH; [done|simpl in Hfuel; lia|done].
    + set (m := mkMismatch g (vsize done_) (load_int res (vsize done_))).
      assert (Hlog' : vsize log + 1 = vsize (log ++ [m])).
      { unfold vsize. rewrite length_app. simpl. lia. }
      replace (log ++ m :: mismatches_from (vsize done_ + 1) rest res)
        with ((log ++ [m]) ++ mismatches_from (vsize done_ + 1) rest res)
        by (by rewrite <-app_assoc).
      unfold max_errors.
      destruct (Z.eqb_spec (vsize log + 1) 20) as [Hfull|Hroom].
      * assert (length (log ++ [m]) = 20%nat) as Hlen.
        { unfold vsize in Hlog', Hfull. lia. }
        rewrite take_app_length' by done.
        rewrite Hfull. unfold vsize. by rewrite Hlen.
      * rewrite Hlog', Hnext. apply IH; [done|simpl in Hfuel; lia|].
        unfold vsize in Hlog', Hroom. rewrite length_app. simpl. lia.
Qed.
End check_loop.

(** C6.  Correctness checker.  For a gold vector of fewer than [2^32]
    elements and an output shadow of fewer than [2^32] elements,
    [check_result] returns not-checked for an empty gold vector; otherwise
    bad-length when the output holds fewer elements than the gold vector;
    otherwise it compares the first [gold.size()] elements in order, logs
    the first 20 mismatches at most (expected value, index, value found),
    and returns bad-values if there is a mismatch and correct if there is
    none. *)
Theorem check_result_spec (this : Harness) (gold : list Z) :
  let res := _output_host_buffer (_mem_manager this) in
  vsize gold < 2 ^ 32 →
  vsize res / 4 < 2 ^ 32 →
  ∃ verdict log,
    check_result this gold = Some (verdict, log)
    ∧ (gold = [] → verdict = NOT_CHECKED ∧ log = [])
    ∧ (gold ≠ [] → vsize res / 4 < vsize gold →
       verdict = BAD_LENGTH ∧ log = [])
    ∧ (gold ≠ [] → vsize gold ≤ vsize res / 4 →
       log = take 20 (mismatches gold res)
       ∧ (length log ≤ 20)%nat
       ∧ (verdict = BAD_VALUES ↔ mismatches gold res ≠ [])
       ∧ (verdict = CORRECT ↔ mismatches gold res = []))
    ∧ (∀ m, m ∈ mismatches gold res ↔
            ∃ k : nat, gold !! k = Some (expected m)
                       ∧ index m = Z.of_nat k
                       ∧ found m = load_int res (Z.of_nat k)
                       ∧ expected m ≠ found m)
    ∧ Sorted (λ a b, index a < index b) (mismatches gold res).
Proof.
  intros res Hgold Hres. unfold check_result. fold res.
  assert (Hchar : (∀ m, m ∈ mismatches gold res ↔
            ∃ k : nat, gold !! k = Some (expected m)
                       ∧ index m = Z.of_nat k
                       ∧ found m = load_int res (Z.of_nat k)
                       ∧ expected m ≠ found m)
    ∧ Sorted (λ a b, index a < index b) (mismatches gold res)).
  { split; [|apply mismatches_from_sorted].
    intros m. unfold mismatches. rewrite mismatches_from_elem.
    by setoid_rewrite Z.add_0_l. }
  destruct (Z.eqb_spec (vsize gold) 0) as [Hempty|Hnonempty].
  { exists NOT_CHECKED, []. split; [done|]. split; [done|].
    assert (gold = []) as -> by (by destruct gold).
    split; [done|]. split; [done|]. exact Hchar. }
  assert (gold ≠ []) as Hne by (by intros ->).
  unfold wrap. rewrite Z.mul_1_r.
  rewrite Z.mod_small by (split; [apply vsize_div_nonneg|done]).
  destruct (Z.ltb_spec (vsize res / 4) (vsize gold)) as [Hshort|Hlong].
  { exists BAD_LENGTH, []. repeat split; try done; try lia.
    all: apply Hchar. }
  pose proof (check_loop_spec gold res Hgold gold (S (length gold)) [] []
                eq_refl ltac:(lia) ltac:(simpl; lia)) as Hloop.
  change (vsize (@nil Z)) with 0 in Hloop.
  change (vsize (@nil Mismatch)) with 0 in Hloop.
  rewrite Hloop. clear Hloop.
  cbn [app mbind option_bind]. fold (mismatches gold res).
  destruct (mismatches gold res) as [|m ms].
  - exists CORRECT, []. split; [done|]. split; [done|]. split; [lia|].
    split; [|exact Hchar]. intros _ _.
    split; [done|]. split; [simpl; lia|]. by split.
  - exists BAD_VALUES, (take 20 (m :: ms)).
    split.
    { cbn [take]. unfold vsize. cbn [length].
      by rewrite (proj2 (Z.ltb_lt _ _)) by lia. }
    split; [done|]. split; [lia|]. split; [|exact Hchar]. intros _ _.
    split; [done|]. split; [rewrite length_take; lia|]. by split.
Qed.

(** ** Verdicts recorded by [benchmark] *)

Lemma raw_records_not_checked run trial first times :
  Forall not_checked (raw_records run trial first times).
Proof.
  apply Forall_forall. intros r Hr.
  apply elem_of_lookup_imap_1 in Hr as (k & time & -> & _). done.
Qed.

Lemma executeRun_not_checked fuel run trial h recs h' :
  executeRun fuel run trial h = Some (recs, h') → Forall not_checked recs.
Proof.
  intros Hrun.
  destruct (executeRun_Some _ _ _ _ _ _ Hrun)
    as (k & sk & _ & Hit & _ & _ & -> & _).
  destruct (iterate_inv _ _ _ _ _ Hit) as [(times & _ & ->) _ _ _ _ _ _ _ _ _ _].
  apply raw_records_not_checked.
Qed.

Lemma trial_stats_not_checked run t recs out :
  Forall not_checked recs → trial_stats run t recs = Some out →
  Forall not_checked out.
Proof.
  unfold trial_stats. intros Hall.
  destruct (merge_sort compare recs !! _) as [m|]; [|done].
  simpl. intros [= <-].
  rewrite !Forall_app. repeat split; [|by repeat constructor..].
  eapply Permutation_Forall; [|exact Hall].
  symmetry. apply merge_sort_Permutation.
Qed.

Lemma benchmark_loop_not_checked fuel run remaining : ∀ t h acc recs h',
  benchmark_loop fuel run remaining t h acc = Some (recs, h') →
  length recs = (length acc + remaining)%nat
  ∧ (Forall (Forall not_checked) acc → Forall (Forall not_checked) recs).
Proof.
  induction remaining as [|remaining IH]; intros t h acc recs h'; simpl.
  - intros [= <- <-]. split; [lia|done].
  - destruct (executeRun fuel run t h) as [[rr h1]|] eqn:Hrun; [|done]. simpl.
    destruct (trial_stats run t rr) as [rr'|] eqn:Hstats; [|done]. simpl.
    intros Hloop. destruct (IH _ _ _ _ _ Hloop) as [Hlen Hall].
    rewrite length_app in Hlen. simpl in Hlen. split; [lia|].
    intros Hacc. apply Hall, Forall_app. split; [done|].
    constructor; [|done].
    eapply trial_stats_not_checked; [|done].
    by eapply executeRun_not_checked.
Qed.

(** C4, amended to what the code does.  [HarnessBFS::benchmark] takes no
    gold vector and never calls the checker: it returns one sequence per
    trial, and every record in it (raw, median, sum) carries not-checked,
    whatever the output buffer holds; [check_result] on an empty gold
    vector yields not-checked. *)
Theorem benchmark_records_not_checked (fuel : nat) (run : Run) (h : Harness)
    (recs : list (list SqlStat)) (h' : Harness) :
  benchmark fuel run h = Some (recs, h') →
  length recs = Z.to_nat (_trials h)
  ∧ (∀ trial_recs r, trial_recs ∈ recs → r ∈ trial_recs →
       getCorrectness r = NOT_CHECKED)
  ∧ (∀ this, check_result this [] = Some (NOT_CHECKED, [])).
Proof.
  unfold benchmark. intros Hrun.
  destruct (benchmark_loop_not_checked _ _ _ _ _ _ _ _ Hrun) as [Hlen Hall].
  split; [done|]. split; [|done].
  intros trial_recs r Ht Hr.
  specialize (Hall (List.Forall_nil _)).
  rewrite Forall_forall in Hall. specialize (Hall _ Ht).
  rewrite Forall_forall in Hall. by apply Hall.
Qed.

(** ** The instance that never settles *)

Lemma stuck_inv_init : stuck_inv (executeRun_init stuck_harness).
Proof.
  split; try (vm_compute; reflexivity).
  left. repeat split; try (vm_compute; reflexivity). left. vm_compute. reflexivity.
Qed.

Lemma stuck_step run trial s :
  stuck_inv s →
  ∃ s', loop_body run trial s = Some s'
        ∧ should_terminate s' = false ∧ stuck_inv s'.
Proof.
  intros [Hk Hx Ho Hoi Hslot Hroles].
  destruct (loop_body_returns run trial s) as [s' Hbody].
  { destruct Hroles as [(_ & _ & -> & -> & Hin & Hout)
                       |(_ & _ & -> & -> & Hout & Hin)]; simpl;
      unfold vsize; [rewrite Hout; destruct Hin as [-> | ->]
                    |rewrite Hout, Hin]; done. }
  exists s'. split; [done|].
  pose proof (loop_body_spec _ _ _ _ Hbody) as Hspec.
  destruct (body_download _ _ _ _ Hspec) as [mem Hdown].
  pose proof (body_test _ _ _ _ Hspec) as Htest.
  apply should_terminate_iteration_sound in Htest.
  rewrite Hk in Hdown. unfold stuck_kernel in Hdown.
  rewrite Hslot in Hdown. simpl in Hdown.
  rewrite lookup_insert_eq in Hdown. simpl in Hdown.
  assert (Hd : ∀ q, deref_mem (_mem_manager (this s')) q
                    = deref_mem (_mem_manager (this s)) q).
  { intros []; simpl; [apply (body_x_vect _ _ _ _ Hspec)
                      |apply (body_output _ _ _ _ Hspec)]. }
  assert (Hslot' :
    kernel_args (_cl (this s')) !! 6%nat
    = Some (GlobalArg (deref_mem (_mem_manager (this s')) (output_mem_ptr s')))).
  { rewrite (body_kernel_args _ _ _ _ Hspec), Hoi, Hd.
    rewrite lookup_insert_ne by done. rewrite lookup_insert_eq.
    by rewrite (body_output_mem _ _ _ _ Hspec). }
  destruct Hroles as [(Hom & Him & Hoh & Hih & Hin & Hout)
                     |(Hom & Him & Hoh & Hih & Hout & Hin)].
  - rewrite Hom, Hoh in Hdown. simpl in Hdown. rewrite Ho in Hdown.
    rewrite read_into_same_length in Hdown by (by rewrite Hout).
    pose proof (body_input_shadow _ _ _ _ Hspec) as Hsame.
    rewrite Hih, Hoh in Hsame. simpl in Hsame.
    specialize (Hsame ltac:(done)).
    rewrite Hih, Hoh in Htest. simpl in Htest.
    rewrite Hsame, Hdown in Htest.
    split.
    + apply not_true_is_false. intros Hst. apply Htest in Hst.
      destruct Hin as [Hin|Hin]; rewrite Hin in Hst;
        specialize (Hst 0 ltac:(split; by vm_compute));
        vm_compute in Hst; discriminate.
    + split; rewrite ?(body_kernel _ _ _ _ Hspec),
        ?(body_x_vect _ _ _ _ Hspec), ?(body_output _ _ _ _ Hspec),
        ?(body_output_idx _ _ _ _ Hspec); try done.
      right.
      rewrite (body_output_mem _ _ _ _ Hspec), (body_input_mem _ _ _ _ Hspec),
        (body_output_host _ _ _ _ Hspec), (body_input_host _ _ _ _ Hspec).
      rewrite Hom, Him, Hoh, Hih, Hdown, Hsame.
      repeat split. by destruct Hin as [-> | ->].
  - rewrite Hom, Hoh in Hdown. simpl in Hdown. rewrite Hx in Hdown.
    rewrite read_into_same_length in Hdown by (by rewrite Hin).
    pose proof (body_input_shadow _ _ _ _ Hspec) as Hsame.
    rewrite Hih, Hoh in Hsame. simpl in Hsame.
    specialize (Hsame ltac:(done)).
    rewrite Hih, Hoh in Htest. simpl in Htest.
    rewrite Hsame, Hdown, Hout in Htest.
    split.
    + apply not_true_is_false. intros Hst. apply Htest in Hst.
      specialize (Hst 0 ltac:(split; by vm_compute)).
      vm_compute in Hst. discriminate.
    + split; rewrite ?(body_kernel _ _ _ _ Hspec),
        ?(body_x_vect _ _ _ _ Hspec), ?(body_output _ _ _ _ Hspec),
        ?(body_output_idx _ _ _ _ Hspec); try done.
      left.
      rewrite (body_output_mem _ _ _ _ Hspec), (body_input_mem _ _ _ _ Hspec),
        (body_output_host _ _ _ _ Hspec), (body_input_host _ _ _ _ Hspec).
      rewrite Hom, Him, Hoh, Hih, Hdown, Hsame, Hout.
      repeat split. by right.
Qed.

Lemma stuck_iterate run trial j : ∀ sj,
  iterate j run trial (executeRun_init stuck_harness) = Some sj →
  stuck_inv sj ∧ ((1 ≤ j)%nat → should_terminate sj = false).
Proof.
  induction j as [|j IH]; intros sj.
  - intros [= <-]. split; [apply stuck_inv_init|lia].
  - simpl.
    destruct (iterate j run trial (executeRun_init stuck_harness)) as [s|];
      [|done].
    simpl. intros Hbody. destruct (IH s eq_refl) as [Hinv _].
    destruct (stuck_step run trial s Hinv) as (s' & Hbody' & Hst & Hinv').
    rewrite Hbody in Hbody'. injection Hbody' as <-. done.
Qed.

(** The loop on [stuck_harness] is still running after any number of
    passes. *)
Lemma stuck_runs_on run trial j :
  ∃ sj, iterate j run trial (executeRun_init stuck_harness) = Some sj.
Proof.
  induction j as [|j [s Hs]]; [by eexists|].
  destruct (stuck_iterate run trial j s Hs) as [Hinv _].
  destruct (stuck_step run trial s Hinv) as (s' & Hbody & _).
  exists s'. simpl. by rewrite Hs.
Qed.

(** ** The properties at concrete inputs *)

Lemma should_terminate_iteration_spec_witness :
  let input := ints_bytes [1; -2; 3] ++ [x07] in
  let output := ints_bytes [1; -2] in
  Z.min (vsize input / 4) (vsize output / 4) < 2 ^ 32
  ∧ ∃ b : bool,
      should_terminate_iteration (example_harness 3 1) input output = Some b
      ∧ (b = true ↔
         ∀ i, 0 ≤ i < Z.min (vsize input / 4) (vsize output / 4) →
              load_int input i = load_int output i)
      ∧ (b = true ↔
         ∀ i, 0 ≤ i < Z.min (vsize input / 4) (vsize output / 4) →
              elem_bytes input i = elem_bytes output i)
      ∧ ∀ other : Harness,
          should_terminate_iteration other input output = Some b.
Proof.
  intros input output.
  assert (H : Z.min (vsize input / 4) (vsize output / 4) < 2 ^ 32)
    by reflexivity.
  split; [exact H|].
  exact (should_terminate_iteration_spec (example_harness 3 1) input output H).
Defined.

Example should_terminate_iteration_examples :
  should_terminate_iteration stuck_harness
    (ints_bytes [1; -2; 3] ++ [x07]) (ints_bytes [1; -2]) = Some true
  ∧ should_terminate_iteration stuck_harness
      (ints_bytes [1; -2; 3]) (ints_bytes [1; 2; 3]) = Some false
  ∧ should_terminate_iteration stuck_harness [] (ints_bytes [5]) = Some true
  ∧ load_int (ints_bytes [1; -2; 3]) 1 = -2.
Proof. by vm_compute. Qed.

Lemma trial_stats_median_witness :
  let raw := raw_records example_run 0 0 [5; 1; 3] in
  (1 ≤ length raw)%nat
  ∧ ∃ sorted median sum,
      trial_stats example_run 0 raw = Some (sorted ++ [median; sum])
      ∧ getStatType median = MEDIAN_RESULT
      ∧ getTime median = 3.
Proof.
  intros raw.
  assert (H : (1 ≤ length raw)%nat) by (simpl; lia).
  split; [exact H|].
  destruct (trial_stats_median example_run 0 raw H)
    as (sorted & median & sum & Heq & _ & _ & Hkind & _ & Hmed).
  exists sorted, median, sum. split; [exact Heq|]. split; [exact Hkind|].
  assert (Hsorted : Sorted Z.le [1; 3; 5]) by (repeat constructor; done).
  assert (Hperm : [1; 3; 5] ≡ₚ getTime <$> raw).
  { symmetry. apply (Permutation_cons_append [1; 3] 5). }
  specialize (Hmed [1; 3; 5] Hsorted Hperm). simpl in Hmed. congruence.
Defined.

Example trial_stats_median_examples :
  (List.map getTime
     <$> trial_stats example_run 0 (raw_records example_run 0 0 [5; 1; 3]))
  = Some [1; 3; 5; 3; 12]
  ∧ (List.map getTime
       <$> trial_stats example_run 0 (raw_records example_run 0 0 [4; 2; 6; 8]))
    = Some [2; 4; 6; 8; 6; 26]
  ∧ trial_stats example_run 0 [] = None.
Proof. by vm_compute. Qed.

Lemma check_result_spec_witness :
  let this := with_output_host (ints_bytes [1; 9; 3; 4]) (example_harness 3 1) in
  let gold := [1; 2; 3] in
  let res := _output_host_buffer (_mem_manager this) in
  vsize gold < 2 ^ 32
  ∧ vsize res / 4 < 2 ^ 32
  ∧ check_result this gold = Some (BAD_VALUES, [mkMismatch 2 1 9]).
Proof.
  intros this gold res.
  assert (H1 : vsize gold < 2 ^ 32) by reflexivity.
  assert (H2 : vsize res / 4 < 2 ^ 32) by reflexivity.
  split; [exact H1|]. split; [exact H2|].
  destruct (check_result_spec this gold H1 H2)
    as (verdict & log & Heq & _ & _ & Hvalues & _).
  destruct Hvalues as (Hlog & _ & Hbad & _).
  { discriminate. }
  { vm_compute. discriminate. }
  rewrite Heq. f_equal. f_equal.
  - apply Hbad. vm_compute. discriminate.
  - rewrite Hlog. reflexivity.
Defined.

Example check_result_examples :
  let checked out gold :=
    check_result (with_output_host (ints_bytes out) stuck_harness) gold in
  checked [1; 2] [1; 2; 3] = Some (BAD_LENGTH, [])
  ∧ checked [1; 9; 3] [1; 2; 3] = Some (BAD_VALUES, [mkMismatch 2 1 9])
  ∧ checked [] [] = Some (NOT_CHECKED, [])
  ∧ checked [4; 5; 6] [] = Some (NOT_CHECKED, [])
  ∧ checked [1; 2; 3] [1; 2; 3] = Some (CORRECT, [])
  ∧ checked [1; 2; 3; 4] [1; 2; 3] = Some (CORRECT, [])
  ∧ (length <$> (snd <$> checked (replicate 30 0) (replicate 25 1)))
    = Some 20%nat.
Proof. by vm_compute. Qed.

(** The first four passes of the loop on the small instance come back. *)
Lemma example_passes n :
  (n ≤ 4)%nat →
  iterate n example_run 0 (executeRun_init (example_harness 3 1))
  = Some (example_pass 3 n).
Proof.
  intros Hn.
  assert (n = 0 ∨ n = 1 ∨ n = 2 ∨ n = 3 ∨ n = 4)%nat
    as [-> | [-> | [-> | [-> | ->]]]] by lia;
    vm_compute; reflexivity.
Defined.

Lemma example_flags j sj :
  (1 ≤ j < 4)%nat →
  iterate j example_run 0 (executeRun_init (example_harness 3 1)) = Some sj →
  should_terminate sj = false.
Proof.
  intros Hj Hit. rewrite example_passes in Hit by lia. injection Hit as <-.
  assert (j = 1 ∨ j = 2 ∨ j = 3)%nat as [-> | [-> | ->]] by lia;
    vm_compute; reflexivity.
Defined.

Lemma role_swap_parity_witness :
  iterate 3 example_run 0 (executeRun_init (example_harness 3 1))
  = Some (example_pass 3 3)
  ∧ output_mem_ptr (example_pass 3 3) = ptr_x_vect
  ∧ input_mem_ptr (example_pass 3 3) = ptr_output
  ∧ deref_mem (_mem_manager (this (example_pass 3 3)))
      (output_mem_ptr (example_pass 3 3))
    = _x_vect (_mem_manager (example_harness 3 1)).
Proof.
  assert (H : iterate 3 example_run 0 (executeRun_init (example_harness 3 1))
              = Some (example_pass 3 3)) by (vm_compute; reflexivity).
  split; [exact H|].
  destruct (role_swap_parity example_run 0 (example_harness 3 1) 3
              (example_pass 3 3) H)
    as (Hout & _ & Hin & _ & _ & _ & Hhandle & _).
  assert (Hodd : Nat.Odd 3) by (exists 1%nat; reflexivity).
  split; [apply Hout, Hodd|]. split; [apply Hin, Hodd|].
  rewrite Hhandle. reflexivity.
Defined.

Lemma loop_body_rebinds_witness :
  let h := example_harness 3 1 in
  let s' := example_pass 3 1 in
  loop_body example_run 0 (executeRun_init h) = Some s'
  ∧ rebinds (calls_since (this (executeRun_init h)) (this s'))
    = [(2%nat, GlobalArg 5%nat); (6%nat, GlobalArg 3%nat);
       (3%nat, GlobalArg 5%nat)]
  ∧ ∀ slot, slot ≠ 2%nat → slot ≠ 6%nat → slot ≠ 3%nat →
      kernel_args (_cl (this s')) !! slot
      = kernel_args (_cl (this (executeRun_init h))) !! slot.
Proof.
  intros h s'.
  assert (H : loop_body example_run 0 (executeRun_init h) = Some s')
    by (vm_compute; reflexivity).
  split; [exact H|].
  destruct (loop_body_rebinds example_run 0 h 0 (executeRun_init h) s'
              eq_refl H) as (Hre & _ & Hframe & _).
  assert (Hi : _input_idx (_mem_manager h) = 2%nat)
    by (vm_compute; reflexivity).
  assert (Ho : _output_idx (_mem_manager h) = 6%nat)
    by (vm_compute; reflexivity).
  split.
  - rewrite Hre. vm_compute. reflexivity.
  - intros slot H2 H6 H3. apply Hframe; [by rewrite Hi|by rewrite Ho|done].
Defined.

Lemma benchmark_records_not_checked_witness :
  benchmark 10 example_run (example_harness 3 2) = Some example_benchmark
  ∧ length example_benchmark.1 = 2%nat
  ∧ ∀ trial_recs r, trial_recs ∈ example_benchmark.1 → r ∈ trial_recs →
      getCorrectness r = NOT_CHECKED.
Proof.
  assert (H : benchmark 10 example_run (example_harness 3 2)
              = Some (example_benchmark.1, example_benchmark.2))
    by (vm_compute; reflexivity).
  split; [vm_compute; reflexivity|].
  destruct (benchmark_records_not_checked 10 example_run (example_harness 3 2)
              _ _ H) as (Hlen & Hall & _).
  split; [exact Hlen|exact Hall].
Defined.

Lemma executeRun_exit_condition_witness :
  (∃ k sk, (1 ≤ k ≤ 10)%nat
     ∧ iterate k example_run 0 (executeRun_init (example_harness 3 1)) = Some sk
     ∧ should_terminate sk = true ∧ shadows_agree (this sk)
     ∧ (example_result 3 10).2 = this sk
     ∧ length (example_result 3 10).1 = k)
  ∧ executeRun 3 example_run 0 (example_harness 3 1) = None
  ∧ (∀ fuel, executeRun fuel example_run 0 stuck_harness = None)
  ∧ (∀ fuel, executeRun fuel example_run 0 (example_harness 3 1)
             = if decide (4 ≤ fuel)%nat
               then Some (runtimes (example_pass 3 4), this (example_pass 3 4))
               else None).
Proof.
  destruct (executeRun_exit_condition example_run 0 (example_harness 3 1))
    as (Hexit & Hwithin & _ & Hat & _).
  destruct (executeRun_exit_condition example_run 0 stuck_harness)
    as (_ & _ & Hnever & _).
  pose proof example_flags as Hflags.
  split; [|split; [|split]].
  - apply (Hexit 10%nat (example_result 3 10).1 (example_result 3 10).2).
    vm_compute. reflexivity.
  - apply (Hwithin 3%nat). intros j sj Hj. apply Hflags. lia.
  - apply Hnever. intros j sj Hj Hit.
    by apply (stuck_iterate example_run 0 j sj Hit).
  - apply (Hat 4%nat (example_pass 3 4)).
    + lia.
    + vm_compute. reflexivity.
    + vm_compute. reflexivity.
    + exact Hflags.
Defined.

Lemma executeRun_at_least_once_witness :
  (shadows_agree (example_harness 3 1)
   ∧ executeRun 10 example_run 0 (example_harness 3 1)
     = Some ((example_result 3 10).1, (example_result 3 10).2)
   ∧ length (example_result 3 10).1 = 4%nat
   ∧ launches (calls_since (example_harness 3 1) (example_result 3 10).2)
     = 4%nat
   ∧ is_Some (trial_stats example_run 0 (example_result 3 10).1))
  ∧ (shadows_agree (example_harness 0 1)
     ∧ is_Some (loop_body example_run 0
                  (executeRun_init (example_harness 0 1)))
     ∧ ∀ fuel, executeRun (S fuel) example_run 0 (example_harness 0 1)
               = Some (runtimes (example_pass 0 1), this (example_pass 0 1))).
Proof.
  split.
  - destruct (executeRun_at_least_once example_run 0 (example_harness 3 1))
      as (Hreturned & _ & _).
    assert (Hrun : executeRun 10 example_run 0 (example_harness 3 1)
                   = Some ((example_result 3 10).1, (example_result 3 10).2))
      by (vm_compute; reflexivity).
    destruct (Hreturned 10%nat _ _ Hrun) as (_ & Hla & _ & _ & Hstats).
    split.
    { refine (proj1 (should_terminate_iteration_sound (example_harness 3 1)
                       _ _ true _) eq_refl).
      vm_compute. reflexivity. }
    split; [exact Hrun|]. split; [vm_compute; reflexivity|].
    split; [rewrite Hla; vm_compute; reflexivity|exact Hstats].
  - destruct (executeRun_at_least_once example_run 0 (example_harness 0 1))
      as (_ & Hfirst & Hcomes).
    assert (Hbody : loop_body example_run 0
                      (executeRun_init (example_harness 0 1))
                    = Some (example_pass 0 1)) by (vm_compute; reflexivity).
    destruct (Hfirst _ Hbody) as (_ & _ & Hret).
    split.
    { refine (proj1 (should_terminate_iteration_sound (example_harness 0 1)
                       _ _ true _) eq_refl).
      vm_compute. reflexivity. }
    split; [apply Hcomes; vm_compute; reflexivity|].
    apply Hret. vm_compute. reflexivity.
Defined.

(** ** Where the specification and the code part ways *)

(** Whenever slot 3 is neither the input slot nor the output slot, a
    pass refutes [rebinds_input_and_output_only]. *)
Lemma rebinds_input_and_output_only_fails run trial s s' :
  loop_body run trial s = Some s' →
  _input_idx (_mem_manager (this s)) ≠ 3%nat →
  _output_idx (_mem_manager (this s)) ≠ 3%nat →
  ¬ rebinds_input_and_output_only.
Proof.
  intros Hbody Hin Hout Hclaim.
  destruct (body_calls _ _ _ _ (loop_body_spec _ _ _ _ Hbody))
    as (calls & Hlog & _ & Hre).
  destruct (Hclaim run trial s s' Hbody 3%nat) as [H3|H3]; [|congruence..].
  rewrite (calls_since_app _ _ _ Hlog), Hre.
  apply list_elem_of_In. simpl. auto.
Qed.

(** A run on which the checker would answer correct refutes
    [verdict_from_checker]: no record carries that verdict. *)
Lemma verdict_from_checker_fails fuel run h gold recs h' :
  benchmark fuel run h = Some (recs, h') →
  check_result h' gold = Some (CORRECT, []) →
  ¬ verdict_from_checker.
Proof.
  intros Hrun Hcheck Hclaim.
  destruct (Hclaim fuel run h gold recs h' CORRECT [] Hrun Hcheck)
    as (trial_recs & r & Ht & Hr & Hv).
  destruct (benchmark_loop_not_checked _ _ _ _ _ _ _ _ Hrun) as [_ Hall].
  specialize (Hall (List.Forall_nil _)).
  rewrite Forall_forall in Hall. specialize (Hall _ Ht).
  rewrite Forall_forall in Hall. specialize (Hall _ Hr).
  unfold not_checked in Hall. congruence.
Qed.

(** C3 as stated fails on the small instance: the input slot is 2, the
    output slot is 6, and the pass also rebinds slot 3, from the y vector
    (buffer 4) to the new input (buffer 5); so it is not the case that
    only the input and the output slot are rebound. *)
Lemma loop_body_rebinds_counterexample :
  (loop_body example_run 0 example_entry = Some (example_pass 3 1)
   ∧ _input_idx (_mem_manager (this example_entry)) = 2%nat
   ∧ _output_idx (_mem_manager (this example_entry)) = 6%nat
   ∧ List.map fst
       (rebinds (calls_since (this example_entry) (this (example_pass 3 1))))
     = [2%nat; 6%nat; 3%nat]
   ∧ kernel_args (_cl (this example_entry)) !! 3%nat
     = Some (GlobalArg 4%nat)
   ∧ kernel_args (_cl (this (example_pass 3 1))) !! 3%nat
     = Some (GlobalArg 5%nat))
  ∧ ¬ rebinds_input_and_output_only.
Proof.
  split; [by vm_compute|].
  apply (rebinds_input_and_output_only_fails example_run 0 example_entry
           (example_pass 3 1)).
  - vm_compute. reflexivity.
  - vm_compute. discriminate.
  - vm_compute. discriminate.
Qed.

(** C4 as stated fails on the small instance: the checker calls the final
    output correct against this gold vector, and no record carries that
    verdict; all twelve say not-checked. *)
Lemma benchmark_verdict_counterexample :
  (benchmark 10 example_run (example_harness 3 2)
   = Some (example_benchmark.1, example_benchmark.2)
   ∧ check_result example_benchmark.2 [50529027; 50529027]
     = Some (CORRECT, [])
   ∧ List.map (List.map getCorrectness) example_benchmark.1
     = [replicate 6 NOT_CHECKED; replicate 6 NOT_CHECKED])
  ∧ ¬ verdict_from_checker.
Proof.
  split; [by vm_compute|].
  apply (verdict_from_checker_fails 10 example_run (example_harness 3 2)
           [50529027; 50529027] example_benchmark.1 example_benchmark.2);
    vm_compute; reflexivity.
Qed.

(** Two passes, spelled out: what holds of the first and of the second
    holds of every pass below 2. *)
Lemma two_passes run trial h s1 s2 (P : nat → Locals → Locals → Prop) :
  loop_body run trial (executeRun_init h) = Some s1 →
  loop_body run trial s1 = Some s2 →
  P 0%nat (executeRun_init h) s1 →
  P 1%nat s1 s2 →
  ∀ n s s', (n < 2)%nat →
            iterate n run trial (executeRun_init h) = Some s →
            loop_body run trial s = Some s' →
            P n s s'.
Proof.
  intros H1 H2 P0 P1 n s s' Hn Hit Hbody.
  destruct n as [|[|n]]; [| |lia].
  - cbn [iterate] in Hit. injection Hit as <-.
    rewrite H1 in Hbody. by injection Hbody as <-.
  - cbn [iterate mbind option_bind] in Hit. rewrite H1 in Hit.
    injection Hit as <-. rewrite H2 in Hbody. by injection Hbody as <-.
Qed.

Lemma fixed_point_at_2 run trial h s1 s2 :
  loop_body run trial (executeRun_init h) = Some s1 →
  loop_body run trial s1 = Some s2 →
  kernel_output (executeRun_init h) s1 ≠ kernel_input (executeRun_init h) →
  kernel_output s1 s2 = kernel_input s1 →
  fixed_point_at run trial h 2.
Proof.
  intros H1 H2 Hne Heq. split; [lia|]. split.
  - exists s2. cbn [iterate mbind option_bind]. rewrite H1. exact H2.
  - apply (two_passes run trial h s1 s2
             (λ n s s', kernel_output s s' = kernel_input s ↔ S n = 2%nat)
             H1 H2).
    + split; [intros He; by destruct Hne|lia].
    + split; [done|by intros _].
Qed.

Lemma example_first_fixed_point :
  fixed_point_at example_run 0 (example_harness 1 2) 2.
Proof.
  apply (fixed_point_at_2 example_run 0 (example_harness 1 2)
           (example_first_pass 1) (example_first_pass 2)).
  - vm_compute. reflexivity.
  - vm_compute. reflexivity.
  - intros H. vm_compute in H. discriminate H.
  - vm_compute. reflexivity.
Qed.

(** C7.  Convergence at the fixed point fails in a trial that follows
    another one.  On the small instance with cap 1 and two trials the
    kernel turns the vector of zeros into the vector of ones and leaves
    that one as it is: in either trial its output differs from its input
    in pass 1 and equals it in pass 2.  The first trial returns at pass 2
    with two raw records.  [resetInputs] then restores the device buffers
    and the argument slots, not the host shadows: the second trial starts
    with the kernel input and the argument table of the first and with an
    input shadow that still holds the ones.  Its first test compares the
    downloaded output with that shadow, and the trial returns at pass 1
    with a single raw record, one pass before the output of the kernel
    equals its input. *)
Theorem second_trial_stops_early :
  fixed_point_at example_run 0 (example_harness 1 2) 2
  ∧ (∀ fuel, (2 ≤ fuel)%nat →
       executeRun fuel example_run 0 (example_harness 1 2)
       = Some (example_first_run.1, example_first_run.2))
  ∧ length example_first_run.1 = 2%nat
  ∧ fixed_point_at example_run 1 (resetInputs example_first_run.2) 2
  ∧ kernel_input (example_second_pass 0) = kernel_input (example_first_pass 0)
  ∧ kernel_args (_cl (this (example_second_pass 0)))
    = kernel_args (_cl (this (example_first_pass 0)))
  ∧ kernel_input (example_second_pass 0) = replicate 8 x00
  ∧ kernel_output (example_second_pass 0) (example_second_pass 1)
    = replicate 8 x01
  ∧ _input_host_buffer (_mem_manager (this (example_second_pass 0)))
    = replicate 8 x01
  ∧ (∀ fuel, (1 ≤ fuel)%nat →
       executeRun fuel example_run 1 (resetInputs example_first_run.2)
       = Some (runtimes (example_second_pass 1),
               this (example_second_pass 1)))
  ∧ length (runtimes (example_second_pass 1)) = 1%nat
  ∧ benchmark 10 example_run (example_harness 1 2)
    = Some (example_stale_benchmark.1, example_stale_benchmark.2)
  ∧ List.map (List.map getStatType) example_stale_benchmark.1
    = [[RAW_RESULT; RAW_RESULT; MEDIAN_RESULT; MULTI_ITERATION_SUM];
       [RAW_RESULT; MEDIAN_RESULT; MULTI_ITERATION_SUM]].
Proof.
  split; [exact example_first_fixed_point|]. split.
  { intros fuel Hfuel.
    rewrite (executeRun_at example_run 0 (example_harness 1 2) 2
               (example_first_pass 2) fuel).
    - rewrite decide_True by lia. vm_compute. reflexivity.
    - lia.
    - vm_compute. reflexivity.
    - vm_compute. reflexivity.
    - intros j sj Hj Hit. assert (j = 1%nat) as -> by lia.
      assert (H1 : iterate 1 example_run 0
                     (executeRun_init (example_harness 1 2))
                   = Some (example_first_pass 1)) by (vm_compute; reflexivity).
      assert (Hf : should_terminate (example_first_pass 1) = false)
        by (vm_compute; reflexivity).
      rewrite H1 in Hit. apply (inj Some) in Hit. by rewrite <-Hit. }
  split; [vm_compute; reflexivity|]. split.
  { apply (fixed_point_at_2 example_run 1 (resetInputs example_first_run.2)
             (example_second_pass 1) (example_second_pass 2)).
    - vm_compute. reflexivity.
    - vm_compute. reflexivity.
    - intros H. vm_compute in H. discriminate H.
    - vm_compute. reflexivity. }
  do 5 (split; [vm_compute; reflexivity|]). split.
  { intros fuel Hfuel.
    rewrite (executeRun_at example_run 1 (resetInputs example_first_run.2) 1
               (example_second_pass 1) fuel).
    - by rewrite decide_True by lia.
    - lia.
    - vm_compute. reflexivity.
    - vm_compute. reflexivity.
    - intros j sj Hj. lia. }
  do 2 (split; [vm_compute; reflexivity|]). vm_compute. reflexivity.
Qed.

(** * Further properties of the harness *)

(** ** Device buffers *)

Lemma mem_bytes_fill_eq size m h :
  mem_bytes (_cl (fillGlobalArg size m h)) m
  = replicate size x00 ++ drop size (mem_bytes (_cl h) m).
Proof. unfold mem_bytes at 1. simpl. by rewrite lookup_insert_eq. Qed.

Lemma mem_bytes_fill_ne size m m' h :
  m ≠ m' →
  mem_bytes (_cl (fillGlobalArg size m h)) m' = mem_bytes (_cl h) m'.
Proof. intros Hne. unfold mem_bytes. simpl. by rewrite lookup_insert_ne. Qed.

Lemma mem_bytes_write_eq v m h :
  mem_bytes (_cl (writeToGlobalArg v m h)) m
  = v ++ drop (length v) (mem_bytes (_cl h) m).
Proof. unfold mem_bytes at 1. simpl. by rewrite lookup_insert_eq. Qed.

Lemma mem_bytes_write_ne v m m' h :
  m ≠ m' →
  mem_bytes (_cl (writeToGlobalArg v m h)) m' = mem_bytes (_cl h) m'.
Proof. intros Hne. unfold mem_bytes. simpl. by rewrite lookup_insert_ne. Qed.

Lemma mem_bytes_setGlobalArg arg mem h m :
  mem_bytes (_cl (setGlobalArg arg mem h)) m = mem_bytes (_cl h) m.
Proof. done. Qed.

Lemma take_replicate_drop (n k : nat) (l : list byte) :
  take n l = replicate n x00 →
  take n (replicate k x00 ++ drop k l) = replicate n x00.
Proof.
  intros Hzero. destruct (decide (n ≤ k)%nat) as [Hle|Hgt].
  - rewrite take_app_le by (rewrite length_replicate; lia).
    rewrite take_replicate. f_equal. lia.
  - rewrite take_app_ge by (rewrite length_replicate; lia).
    rewrite length_replicate, take_drop_commute.
    replace (k + (n - k))%nat with n by lia.
    rewrite Hzero, drop_replicate, <-replicate_add. f_equal. lia.
Qed.

(** A fill of any buffer keeps a zero prefix of any buffer. *)
Lemma zero_prefix_fill size m h m' n :
  zero_prefix (_cl h) m' n →
  zero_prefix (_cl (fillGlobalArg size m h)) m' n.
Proof.
  unfold zero_prefix. intros Hzero.
  destruct (decide (m = m')) as [<-|Hne].
  - rewrite mem_bytes_fill_eq. by apply take_replicate_drop.
  - by rewrite mem_bytes_fill_ne.
Qed.

Lemma zero_prefix_fill_eq size m h :
  zero_prefix (_cl (fillGlobalArg size m h)) m size.
Proof.
  unfold zero_prefix. rewrite mem_bytes_fill_eq.
  rewrite take_app_length'; [done|by rewrite length_replicate].
Qed.

Lemma resetTempBuffers_loop_keeps_zero temps : ∀ k h m n,
  zero_prefix (_cl h) m n →
  zero_prefix (_cl (resetTempBuffers_loop temps k h)) m n.
Proof.
  induction temps as [|arg temps IH]; intros k h m n Hz; [done|].
  cbn [resetTempBuffers_loop]. apply IH. by apply zero_prefix_fill.
Qed.

Lemma resetTempBuffers_loop_zero temps : ∀ k h j m,
  temps !! j = Some m →
  zero_prefix (_cl (resetTempBuffers_loop temps k h)) m
    (nth (k + j) (temp_globals (_args h)) 0%nat).
Proof.
  induction temps as [|arg temps IH]; intros k h j m Hj; [done|].
  cbn [resetTempBuffers_loop].
  destruct j as [|j].
  - injection Hj as ->. rewrite Nat.add_0_r.
    apply resetTempBuffers_loop_keeps_zero, zero_prefix_fill_eq.
  - replace (k + S j)%nat with (S k + j)%nat by lia.
    apply (IH (S k) (fillGlobalArg _ arg h) j m Hj).
Qed.

Lemma resetTempBuffers_loop_other temps : ∀ k h m,
  m ∉ temps →
  mem_bytes (_cl (resetTempBuffers_loop temps k h)) m = mem_bytes (_cl h) m.
Proof.
  induction temps as [|arg temps IH]; intros k h m Hm; [done|].
  apply not_elem_of_cons in Hm as [Hne Hm].
  cbn [resetTempBuffers_loop]. rewrite IH by done.
  by apply mem_bytes_fill_ne.
Qed.

Lemma resetTempBuffers_loop_length temps : ∀ k h m,
  (∀ j m', temps !! j = Some m' →
     (nth (k + j) (temp_globals (_args h)) 0 ≤ length (mem_bytes (_cl h) m'))%nat) →
  length (mem_bytes (_cl (resetTempBuffers_loop temps k h)) m)
  = length (mem_bytes (_cl h) m).
Proof.
  induction temps as [|arg temps IH]; intros k h m Hfit; [done|].
  cbn [resetTempBuffers_loop].
  assert (Hstep : ∀ m', length (mem_bytes
                    (_cl (fillGlobalArg (nth k (temp_globals (_args h)) 0%nat)
                            arg h)) m')
                  = length (mem_bytes (_cl h) m')).
  { intros m'. destruct (decide (arg = m')) as [<-|Hne].
    - rewrite mem_bytes_fill_eq, length_app, length_replicate, length_drop.
      specialize (Hfit 0%nat arg eq_refl). rewrite Nat.add_0_r in Hfit. lia.
    - by rewrite mem_bytes_fill_ne. }
  rewrite IH; [apply Hstep|].
  intros j m' Hj. rewrite Hstep.
  replace (S k + j)%nat with (k + S j)%nat by lia.
  apply (Hfit (S j) m' Hj).
Qed.

(** X1.  [resetTempBuffers] zeroes the temporary buffers and nothing else.
    Afterwards temporary buffer [j] starts with [_args.temp_globals[j]]
    zero bytes; a buffer that is not a temporary one is as before; the
    argument table and [_mem_manager] are as before; no kernel is launched
    and no argument is bound; and when every fill fits its buffer, no
    buffer changes its size. *)
Theorem resetTempBuffers_zeroes (h : Harness) :
  (∀ j m, _temp_global (_mem_manager h) !! j = Some m →
     take (nth j (temp_globals (_args h)) 0%nat)
          (mem_bytes (_cl (resetTempBuffers h)) m)
     = replicate (nth j (temp_globals (_args h)) 0%nat) x00)
  ∧ (∀ m, m ∉ _temp_global (_mem_manager h) →
       mem_bytes (_cl (resetTempBuffers h)) m = mem_bytes (_cl h) m)
  ∧ kernel_args (_cl (resetTempBuffers h)) = kernel_args (_cl h)
  ∧ _mem_manager (resetTempBuffers h) = _mem_manager h
  ∧ launches (calls_since h (resetTempBuffers h)) = 0%nat
  ∧ rebinds (calls_since h (resetTempBuffers h)) = []
  ∧ ((∀ j m, _temp_global (_mem_manager h) !! j = Some m →
        (nth j (temp_globals (_args h)) 0 ≤ length (mem_bytes (_cl h) m))%nat) →
     ∀ m, length (mem_bytes (_cl (resetTempBuffers h)) m)
          = length (mem_bytes (_cl h) m)).
Proof.
  unfold resetTempBuffers.
  destruct (resetTempBuffers_loop_frame (_temp_global (_mem_manager h)) 0 h)
    as [[_ _ Hmm Hka _ _ _] (calls & Hlog & Hre & Hla)].
  split; [|split; [|split; [|split; [|split; [|split]]]]]; try done.
  - intros j m Hj.
    apply (resetTempBuffers_loop_zero _ 0 h j m Hj).
  - intros m Hm. by apply resetTempBuffers_loop_other.
  - by rewrite (calls_since_app _ _ _ Hlog).
  - by rewrite (calls_since_app _ _ _ Hlog).
  - intros Hfit m. by apply resetTempBuffers_loop_length.
Qed.

Lemma deref_host_read p m h :
  deref_host (_mem_manager (readFromGlobalArg p m h)) p
  = read_into (deref_host (_mem_manager h) p) (mem_bytes (_cl h) m).
Proof. by destruct p. Qed.

Lemma read_into_prefix host device :
  (length host ≤ length device)%nat →
  read_into host device = take (length host) device.
Proof. intros Hle. unfold read_into. by rewrite take_app_le. Qed.

(** X2.  Upload, then download.  When a vector [v] that fits the buffer
    is written to a device buffer and the buffer is then read into a host
    shadow that is no longer than [v], the shadow holds the leading bytes
    of [v] ([v] itself when the lengths are equal); the other shadow, the
    other buffers and the size of the buffer are as before, and the buffer
    starts with [v]. *)
Theorem upload_download_round_trip (p : HostPtr) (m : cl_mem)
    (v : list byte) (h : Harness) :
  (length v ≤ length (mem_bytes (_cl h) m))%nat →
  (length (deref_host (_mem_manager h) p) ≤ length v)%nat →
  let h' := readFromGlobalArg p m (writeToGlobalArg v m h) in
  deref_host (_mem_manager h') p
  = take (length (deref_host (_mem_manager h) p)) v
  ∧ (length (deref_host (_mem_manager h) p) = length v →
     deref_host (_mem_manager h') p = v)
  ∧ (∀ q, q ≠ p →
       deref_host (_mem_manager h') q = deref_host (_mem_manager h) q)
  ∧ take (length v) (mem_bytes (_cl h') m) = v
  ∧ length (mem_bytes (_cl h') m) = length (mem_bytes (_cl h) m)
  ∧ (∀ m', m' ≠ m → mem_bytes (_cl h') m' = mem_bytes (_cl h) m').
Proof.
  intros Hfit Hlen h'.
  assert (Hhost : deref_host (_mem_manager h') p
                  = take (length (deref_host (_mem_manager h) p)) v).
  { subst h'. rewrite deref_host_read, mem_bytes_write_eq.
    change (_mem_manager (writeToGlobalArg v m h)) with (_mem_manager h).
    rewrite read_into_prefix by (rewrite length_app; lia).
    by rewrite take_app_le. }
  assert (Hdev : ∀ m', mem_bytes (_cl h') m'
                       = mem_bytes (_cl (writeToGlobalArg v m h)) m') by done.
  split; [exact Hhost|]. split; [|split; [|split; [|split]]].
  - intros Heq. rewrite Hhost, Heq. apply take_ge. lia.
  - intros q Hq. subst h'. by destruct p, q.
  - rewrite Hdev, mem_bytes_write_eq. by rewrite take_app_length.
  - rewrite Hdev, mem_bytes_write_eq, length_app, length_drop. lia.
  - intros m' Hm'. rewrite Hdev. by apply mem_bytes_write_ne.
Qed.

(** ** Elapsed time *)

Lemma to_signed_64_small x : 0 ≤ x < 2 ^ 63 → to_signed 64 x = x.
Proof.
  intros Hx. unfold to_signed.
  destruct (Z.ltb_spec x (2 ^ (64 - 1))); [done|]. simpl in *. lia.
Qed.

Lemma to_signed_64_large x :
  2 ^ 63 ≤ x < 2 ^ 64 → to_signed 64 x = x - 2 ^ 64.
Proof.
  intros Hx. unfold to_signed.
  destruct (Z.ltb_spec x (2 ^ (64 - 1))); [simpl in *; lia|done].
Qed.

(** X3.  [executeKernel] launches the kernel once and returns the
    difference of the two profiling time stamps, taken on 64 unsigned bits
    and read as a signed count of nanoseconds: it is [end - start] whenever
    that lies within the signed range, so an end stamp before the start
    stamp gives a negative duration, and it is off by [2^64] otherwise.
    The device memory becomes what the kernel left; the argument table and
    [_mem_manager] are as before. *)
Theorem executeKernel_elapsed (run : Run) (h : Harness)
    (mem' : gmap cl_mem (list byte)) (start end_ : Z) :
  _kernel h run (kernel_args (_cl h)) (dev_mem (_cl h))
  = (mem', (start, end_)) →
  0 ≤ start < 2 ^ 64 → 0 ≤ end_ < 2 ^ 64 →
  ∃ time h',
    executeKernel run h = (time, h')
    ∧ (- 2 ^ 63 ≤ end_ - start < 2 ^ 63 → time = end_ - start)
    ∧ (2 ^ 63 ≤ end_ - start → time = end_ - start - 2 ^ 64)
    ∧ (end_ - start < - 2 ^ 63 → time = end_ - start + 2 ^ 64)
    ∧ - 2 ^ 63 ≤ time < 2 ^ 63
    ∧ dev_mem (_cl h') = mem'
    ∧ kernel_args (_cl h') = kernel_args (_cl h)
    ∧ _mem_manager h' = _mem_manager h
    ∧ calls_since h h' = [EnqueueNDRangeKernel run].
Proof.
  intros Hk Hs He. unfold executeKernel. rewrite Hk.
  eexists _, _. split; [reflexivity|].
  assert (Hnonneg : 0 ≤ end_ - start → wrap 64 (end_ - start) = end_ - start).
  { intros Hd. unfold wrap. apply Z.mod_small. lia. }
  assert (Hneg : end_ - start < 0 →
                 wrap 64 (end_ - start) = end_ - start + 2 ^ 64).
  { intros Hd. unfold wrap. symmetry.
    apply (Z.mod_unique_pos _ _ (-1)); lia. }
  split; [|split; [|split; [|split]]].
  - intros Hd. destruct (decide (0 ≤ end_ - start)) as [Hp|Hn].
    + rewrite Hnonneg by done. apply to_signed_64_small. lia.
    + rewrite Hneg by lia. rewrite to_signed_64_large by lia. lia.
  - intros Hd. rewrite Hnonneg by lia. apply to_signed_64_large. lia.
  - intros Hd. rewrite Hneg by lia. apply to_signed_64_small. lia.
  - destruct (decide (0 ≤ end_ - start)) as [Hp|Hn].
    + rewrite Hnonneg by done.
      destruct (decide (end_ - start < 2 ^ 63)).
      * rewrite to_signed_64_small by lia. lia.
      * rewrite to_signed_64_large by lia. lia.
    + rewrite Hneg by lia.
      destruct (decide (end_ - start + 2 ^ 64 < 2 ^ 63)).
      * rewrite to_signed_64_small by lia. lia.
      * rewrite to_signed_64_large by lia. lia.
  - simpl. repeat split. unfold calls_since. simpl.
    by rewrite drop_app_length.
Qed.

(** ** [resetInputs] *)

Lemma resetTempBuffers_frame h :
  same_frame h (resetTempBuffers h)
  ∧ ∃ calls,
      cl_log (_cl (resetTempBuffers h)) = cl_log (_cl h) ++ calls
      ∧ rebinds calls = [] ∧ launches calls = 0%nat.
Proof. apply resetTempBuffers_loop_frame. Qed.

Lemma resetInputs_effect h :
  _mem_manager (resetInputs h) = _mem_manager h
  ∧ kernel_args (_cl (resetInputs h))
    = <[6%nat := GlobalArg (_output (_mem_manager h))]>
        (<[3%nat := GlobalArg (_y_vect (_mem_manager h))]>
           (<[2%nat := GlobalArg (_x_vect (_mem_manager h))]>
              (kernel_args (_cl h))))
  ∧ _args (resetInputs h) = _args h
  ∧ _kernel (resetInputs h) = _kernel h
  ∧ ∃ calls,
      cl_log (_cl (resetInputs h)) = cl_log (_cl h) ++ calls
      ∧ rebinds calls
        = [(2%nat, GlobalArg (_x_vect (_mem_manager h)));
           (3%nat, GlobalArg (_y_vect (_mem_manager h)));
           (6%nat, GlobalArg (_output (_mem_manager h)))]
      ∧ launches calls = 0%nat.
Proof.
  unfold resetInputs.
  match goal with |- context [resetTempBuffers ?x] => set (h8 := x) end.
  destruct (resetTempBuffers_frame h8)
    as [[Hk Ha Hmm Hka _ _ _] (calls & Hlog & Hre & Hla)].
  rewrite Hk, Ha, Hmm, Hka.
  do 4 (split; [done|]).
  assert (Hcalls : ∃ calls8, cl_log (_cl h8) = cl_log (_cl h) ++ calls8
            ∧ rebinds calls8
              = [(2%nat, GlobalArg (_x_vect (_mem_manager h)));
                 (3%nat, GlobalArg (_y_vect (_mem_manager h)));
                 (6%nat, GlobalArg (_output (_mem_manager h)))]
            ∧ launches calls8 = 0%nat).
  { eexists. split.
    - subst h8. cbn. rewrite <-!(assoc_L (++)). reflexivity.
    - done. }
  destruct Hcalls as (calls8 & Hlog8 & Hre8 & Hla8).
  exists (calls8 ++ calls). split; [|split].
  - by rewrite Hlog, Hlog8, <-(assoc_L (++)).
  - by rewrite rebinds_app, Hre, Hre8.
  - by rewrite launches_app, Hla, Hla8.
Qed.

(** X4.  What [resetInputs] binds and what it leaves alone.  It binds
    slot 2 to the x vector, slot 3 to the y vector and slot 6 to the
    output buffer, these three slots whatever [_input_idx] and
    [_output_idx] say, and no other slot; it launches no kernel; and it
    leaves [_mem_manager] as it is, so the two host shadow buffers keep
    what the last run left in them. *)
Theorem resetInputs_bindings (h : Harness) :
  _mem_manager (resetInputs h) = _mem_manager h
  ∧ kernel_args (_cl (resetInputs h))
    = <[6%nat := GlobalArg (_output (_mem_manager h))]>
        (<[3%nat := GlobalArg (_y_vect (_mem_manager h))]>
           (<[2%nat := GlobalArg (_x_vect (_mem_manager h))]>
              (kernel_args (_cl h))))
  ∧ rebinds (calls_since h (resetInputs h))
    = [(2%nat, GlobalArg (_x_vect (_mem_manager h)));
       (3%nat, GlobalArg (_y_vect (_mem_manager h)));
       (6%nat, GlobalArg (_output (_mem_manager h)))]
  ∧ launches (calls_since h (resetInputs h)) = 0%nat
  ∧ (∀ slot, slot ≠ 2%nat → slot ≠ 3%nat → slot ≠ 6%nat →
       kernel_args (_cl (resetInputs h)) !! slot = kernel_args (_cl h) !! slot)
  ∧ _args (resetInputs h) = _args h
  ∧ _kernel (resetInputs h) = _kernel h.
Proof.
  destruct (resetInputs_effect h)
    as (Hmm & Hargs & Ha & Hk & calls & Hlog & Hre & Hla).
  rewrite (calls_since_app _ _ _ Hlog).
  do 4 (split; [done|]). split; [|done].
  intros slot H2 H3 H6. rewrite Hargs.
  by rewrite !lookup_insert_ne.
Qed.

Section reset_device.
Variable h : Harness.

Local Abbreviation mm := (_mem_manager h).
Local Abbreviation args := (_args h).

(** The state that [resetInputs] hands to [resetTempBuffers]. *)
Local Abbreviation before_temps :=
  (fillGlobalArg (output args) (_output mm)
     (setGlobalArg 6 (_output mm)
        (writeToGlobalArg (y_vect args) (_y_vect mm)
           (setGlobalArg 3 (_y_vect mm)
              (writeToGlobalArg (x_vect args) (_x_vect mm)
                 (setGlobalArg 2 (_x_vect mm)
                    (writeToGlobalArg (m_vals args) (_matrix_vals mm)
                       (writeToGlobalArg (m_idxs args) (_matrix_idxs mm)
                          h)))))))).

Lemma resetInputs_unfold : resetInputs h = resetTempBuffers before_temps.
Proof. reflexivity. Qed.

Lemma resetInputs_other m :
  m ∉ handles mm → mem_bytes (_cl (resetInputs h)) m = mem_bytes (_cl h) m.
Proof.
  unfold handles. rewrite !not_elem_of_cons.
  intros (Ha & Hb & Hx & Hy & Ho & Ht).
  rewrite resetInputs_unfold. unfold resetTempBuffers.
  rewrite resetTempBuffers_loop_other by done.
  rewrite mem_bytes_fill_ne, mem_bytes_setGlobalArg by done.
  rewrite mem_bytes_write_ne, mem_bytes_setGlobalArg by done.
  rewrite mem_bytes_write_ne, mem_bytes_setGlobalArg by done.
  rewrite !mem_bytes_write_ne by done. done.
Qed.

Lemma resetInputs_contents :
  NoDup (handles mm) →
  mem_bytes (_cl (resetInputs h)) (_matrix_idxs mm)
  = m_idxs args
    ++ drop (length (m_idxs args)) (mem_bytes (_cl h) (_matrix_idxs mm))
  ∧ mem_bytes (_cl (resetInputs h)) (_matrix_vals mm)
    = m_vals args
      ++ drop (length (m_vals args)) (mem_bytes (_cl h) (_matrix_vals mm))
  ∧ mem_bytes (_cl (resetInputs h)) (_x_vect mm)
    = x_vect args
      ++ drop (length (x_vect args)) (mem_bytes (_cl h) (_x_vect mm))
  ∧ mem_bytes (_cl (resetInputs h)) (_y_vect mm)
    = y_vect args
      ++ drop (length (y_vect args)) (mem_bytes (_cl h) (_y_vect mm))
  ∧ mem_bytes (_cl (resetInputs h)) (_output mm)
    = replicate (output args) x00
      ++ drop (output args) (mem_bytes (_cl h) (_output mm)).
Proof.
  unfold handles. rewrite !NoDup_cons, !not_elem_of_cons.
  intros ((Hab & Hax & Hay & Hao & Hat) & (Hbx & Hby & Hbo & Hbt)
          & (Hxy & Hxo & Hxt) & (Hyo & Hyt) & Hot & _).
  rewrite resetInputs_unfold. unfold resetTempBuffers.
  rewrite !resetTempBuffers_loop_other by done.
  repeat split.
  - rewrite mem_bytes_fill_ne, mem_bytes_setGlobalArg by done.
    rewrite mem_bytes_write_ne, mem_bytes_setGlobalArg by done.
    rewrite mem_bytes_write_ne, mem_bytes_setGlobalArg by done.
    rewrite mem_bytes_write_ne by done. apply mem_bytes_write_eq.
  - rewrite mem_bytes_fill_ne, mem_bytes_setGlobalArg by done.
    rewrite mem_bytes_write_ne, mem_bytes_setGlobalArg by done.
    rewrite mem_bytes_write_ne, mem_bytes_setGlobalArg by done.
    rewrite mem_bytes_write_eq.
    by rewrite mem_bytes_write_ne by done.
  - rewrite mem_bytes_fill_ne, mem_bytes_setGlobalArg by done.
    rewrite mem_bytes_write_ne, mem_bytes_setGlobalArg by done.
    rewrite mem_bytes_write_eq, mem_bytes_setGlobalArg.
    by rewrite !mem_bytes_write_ne by done.
  - rewrite mem_bytes_fill_ne, mem_bytes_setGlobalArg by done.
    rewrite mem_bytes_write_eq, mem_bytes_setGlobalArg.
    rewrite mem_bytes_write_ne, mem_bytes_setGlobalArg by done.
    by rewrite !mem_bytes_write_ne by done.
  - rewrite mem_bytes_fill_eq, mem_bytes_setGlobalArg.
    rewrite mem_bytes_write_ne, mem_bytes_setGlobalArg by done.
    rewrite mem_bytes_write_ne, mem_bytes_setGlobalArg by done.
    by rewrite !mem_bytes_write_ne by done.
Qed.

Lemma resetInputs_temps j m :
  _temp_global mm !! j = Some m →
  take (nth j (temp_globals args) 0%nat) (mem_bytes (_cl (resetInputs h)) m)
  = replicate (nth j (temp_globals args) 0%nat) x00.
Proof.
  intros Hj. rewrite resetInputs_unfold.
  apply (resetTempBuffers_loop_zero _ 0 before_temps j m Hj).
Qed.
End reset_device.

(** X5.  What [resetInputs] leaves on the device.  When the buffers that
    [_mem_manager] names are pairwise distinct, the two matrix buffers, the
    x vector and the y vector start with the vectors of [_args] again,
    the output buffer starts with [_args.output] zero bytes, temporary
    buffer [j] starts with [_args.temp_globals[j]] zero bytes, and every
    other buffer is as before; a buffer of exactly the size of its vector
    holds exactly that vector. *)
Theorem resetInputs_device (h : Harness) :
  NoDup (handles (_mem_manager h)) →
  let mm := _mem_manager h in
  let args := _args h in
  let old := mem_bytes (_cl h) in
  let new := mem_bytes (_cl (resetInputs h)) in
  new (_matrix_idxs mm)
  = m_idxs args ++ drop (length (m_idxs args)) (old (_matrix_idxs mm))
  ∧ new (_matrix_vals mm)
    = m_vals args ++ drop (length (m_vals args)) (old (_matrix_vals mm))
  ∧ new (_x_vect mm)
    = x_vect args ++ drop (length (x_vect args)) (old (_x_vect mm))
  ∧ new (_y_vect mm)
    = y_vect args ++ drop (length (y_vect args)) (old (_y_vect mm))
  ∧ new (_output mm)
    = replicate (output args) x00 ++ drop (output args) (old (_output mm))
  ∧ (∀ j m, _temp_global mm !! j = Some m →
       take (nth j (temp_globals args) 0%nat) (new m)
       = replicate (nth j (temp_globals args) 0%nat) x00)
  ∧ (∀ m, m ∉ handles mm → new m = old m)
  ∧ (length (old (_x_vect mm)) = length (x_vect args) →
     new (_x_vect mm) = x_vect args)
  ∧ (length (old (_y_vect mm)) = length (y_vect args) →
     new (_y_vect mm) = y_vect args)
  ∧ (length (old (_output mm)) = output args →
     new (_output mm) = replicate (output args) x00).
Proof.
  intros Hnd mm args old new. subst mm args old new.
  destruct (resetInputs_contents h Hnd) as (Ha & Hb & Hx & Hy & Ho).
  split; [done|]. split; [done|]. split; [done|]. split; [done|].
  split; [done|]. split; [apply resetInputs_temps|].
  split; [apply resetInputs_other|]. split; [|split].
  - intros Hlen. rewrite Hx, drop_ge by lia. apply app_nil_r.
  - intros Hlen. rewrite Hy, drop_ge by lia. apply app_nil_r.
  - intros Hlen. rewrite Ho, drop_ge by lia. apply app_nil_r.
Qed.

(** ** The device during one pass *)

Lemma resetTempBuffers_loop_cl temps : ∀ k h h',
  _cl h = _cl h' → _args h = _args h' →
  _cl (resetTempBuffers_loop temps k h) = _cl (resetTempBuffers_loop temps k h').
Proof.
  induction temps as [|arg temps IH]; intros k h h' Hcl Hargs; [done|].
  cbn [resetTempBuffers_loop]. apply IH; [|done].
  unfold fillGlobalArg. simpl. by rewrite Hcl, Hargs.
Qed.

Lemma resetTempBuffers_next_mem h :
  next_mem (_cl (resetTempBuffers h)) = next_mem (_cl h).
Proof.
  unfold resetTempBuffers. generalize 0%nat.
  generalize (_temp_global (_mem_manager h)). intros temps. revert h.
  induction temps as [|arg temps IH]; intros h k; [done|].
  cbn [resetTempBuffers_loop]. by rewrite IH.
Qed.

Lemma same_handles_refl mm : same_handles mm mm.
Proof. by constructor. Qed.

Lemma same_handles_trans mm1 mm2 mm3 :
  same_handles mm1 mm2 → same_handles mm2 mm3 → same_handles mm1 mm3.
Proof. intros [] []. constructor; congruence. Qed.

Lemma loop_body_effect run trial s s' :
  loop_body run trial s = Some s' →
  let h := this s in
  let out := deref_host (_mem_manager h) (output_host_ptr s) in
  ∃ mem' start end_,
    _kernel h run (kernel_args (_cl h)) (dev_mem (_cl (resetTempBuffers h)))
    = (mem', (start, end_))
    ∧ dev_mem (_cl (this s')) = mem'
    ∧ last (runtimes s')
      = Some (mkSqlStat (to_signed 64 (wrap 64 (end_ - start))) NOT_CHECKED
                (global1 run) (local1 run) RAW_RESULT (Some trial)
                (Some (iteration s)))
    ∧ deref_host (_mem_manager (this s')) (output_host_ptr s)
      = read_into out
          (default [] (mem' !! deref_mem (_mem_manager h) (output_mem_ptr s)))
    ∧ _temp_out_buffer (_mem_manager (this s'))
      = out ++ drop (length out) (_temp_out_buffer (_mem_manager h))
    ∧ same_handles (_mem_manager h) (_mem_manager (this s'))
    ∧ _args (this s') = _args h
    ∧ next_mem (_cl (this s')) = next_mem (_cl h).
Proof.
  intros H h out. unfold loop_body in H.
  set (h1 := set_mem_manager _ (this s)) in H.
  destruct (resetTempBuffers_loop_frame (_temp_global (_mem_manager h1)) 0 h1)
    as [Hfr _].
  fold (resetTempBuffers h1) in Hfr.
  assert (Hcl : _cl (resetTempBuffers h1) = _cl (resetTempBuffers h)).
  { by apply resetTempBuffers_loop_cl. }
  pose proof (resetTempBuffers_next_mem h) as Hnext.
  set (h2 := resetTempBuffers h1) in *.
  unfold executeKernel in H.
  destruct (_kernel h2 run _ _) as [mem' [start end_]] eqn:Hk.
  destruct (should_terminate_iteration _ _ _) as [st|] eqn:Hst; [|done].
  simpl in H. injection H as <-.
  destruct Hfr as [Hke Hargs Hmm Hka _ _ _].
  exists mem', start, end_.
  rewrite Hke, Hka, Hcl in Hk. simpl in Hk.
  split; [exact Hk|]. split; [done|].
  split; [simpl; by rewrite last_snoc|].
  simpl. rewrite Hmm, Hargs, Hcl, Hnext. subst h1. simpl.
  split; [|split; [|split; [|done]]].
  - unfold mem_bytes. simpl.
    destruct (output_host_ptr s), (output_mem_ptr s); done.
  - by destruct (output_host_ptr s).
  - by constructor; destruct (output_host_ptr s).
Qed.

(** X6.  The device during one pass.  In every pass the kernel runs on
    the argument table as the pass found it and on the device memory as
    [resetTempBuffers] leaves it, so between two launches nothing but the
    zero fill of the temporary buffers touches the device; after the pass
    the device memory is what the kernel left (the download and the three
    rebinds write nothing to it); the record added holds the elapsed time
    of this launch; the output shadow holds what was read from the buffer
    the output pointer named, the leading bytes of it when the buffer is
    at least as long; and [_temp_out_buffer] starts with the output shadow
    as it was before the pass. *)
Theorem loop_body_device (run : Run) (trial : Z) (s s' : Locals) :
  loop_body run trial s = Some s' →
  let h := this s in
  let out := deref_host (_mem_manager h) (output_host_ptr s) in
  let target := deref_mem (_mem_manager h) (output_mem_ptr s) in
  ∃ mem' start end_ record,
    _kernel h run (kernel_args (_cl h)) (dev_mem (_cl (resetTempBuffers h)))
    = (mem', (start, end_))
    ∧ dev_mem (_cl (this s')) = mem'
    ∧ runtimes s' = runtimes s ++ [record]
    ∧ getTime record = to_signed 64 (wrap 64 (end_ - start))
    ∧ deref_host (_mem_manager (this s')) (output_host_ptr s)
      = read_into out (mem_bytes (_cl (this s')) target)
    ∧ ((length out ≤ length (mem_bytes (_cl (this s')) target))%nat →
       deref_host (_mem_manager (this s')) (output_host_ptr s)
       = take (length out) (mem_bytes (_cl (this s')) target))
    ∧ take (length out) (_temp_out_buffer (_mem_manager (this s'))) = out
    ∧ _args (this s') = _args h
    ∧ next_mem (_cl (this s')) = next_mem (_cl h).
Proof.
  intros H h out target.
  destruct (loop_body_effect run trial s s' H)
    as (mem' & start & end_ & Hk & Hmem & Hlast & Hread & Hsnap & _ & Hargs
        & Hnext).
  destruct (body_runtimes _ _ _ _ (loop_body_spec _ _ _ _ H)) as [time Hrt].
  rewrite Hrt, last_snoc in Hlast. injection Hlast as Htime.
  exists mem', start, end_. eexists. split; [exact Hk|].
  split; [exact Hmem|]. split; [exact Hrt|]. split; [exact Htime|].
  assert (Hdev : mem_bytes (_cl (this s')) target
                 = default [] (mem' !! target)).
  { unfold mem_bytes. by rewrite Hmem. }
  rewrite Hdev. split; [exact Hread|]. split.
  - intros Hle. fold h out in Hread. fold target in Hread. rewrite Hread.
    by apply read_into_prefix.
  - split; [|done]. fold h out in Hsnap. rewrite Hsnap.
    by rewrite take_app_length.
Qed.

(** ** What a run leaves in place *)

Lemma iterate_frame run trial h n : ∀ s,
  iterate n run trial (executeRun_init h) = Some s →
  same_handles (_mem_manager h) (_mem_manager (this s))
  ∧ _args (this s) = _args h
  ∧ _kernel (this s) = _kernel h
  ∧ next_mem (_cl (this s)) = next_mem (_cl h)
  ∧ ∀ slot, slot ≠ _input_idx (_mem_manager h) →
            slot ≠ _output_idx (_mem_manager h) → slot ≠ 3%nat →
            kernel_args (_cl (this s)) !! slot = kernel_args (_cl h) !! slot.
Proof.
  induction n as [|n IH]; intros s.
  - intros [= <-]. split; [apply same_handles_refl|done].
  - cbn [iterate].
    destruct (iterate n run trial (executeRun_init h)) as [sn|]; [|done].
    cbn [mbind option_bind]. intros Hbody.
    destruct (IH sn eq_refl) as (Hh & Ha & Hk & Hn & Hslots).
    destruct (loop_body_effect run trial sn s Hbody)
      as (_ & _ & _ & _ & _ & _ & _ & _ & Hh' & Ha' & Hn').
    pose proof (loop_body_spec _ _ _ _ Hbody) as Hspec.
    split; [by eapply same_handles_trans|].
    split; [congruence|]. split; [rewrite <-Hk; apply Hspec|].
    split; [congruence|].
    intros slot Hi Ho H3. rewrite (body_kernel_args _ _ _ _ Hspec).
    rewrite (same_input_idx _ _ Hh), (same_output_idx _ _ Hh).
    rewrite !lookup_insert_ne by done. by apply Hslots.
Qed.

(** The three slots that [resetInputs] binds undo what the passes of a
    run have bound, when the slots of the input and of the output are among
    them. *)
Lemma reset_restores_table h h1 :
  same_handles (_mem_manager h) (_mem_manager h1) →
  (∀ slot, slot ≠ _input_idx (_mem_manager h) →
           slot ≠ _output_idx (_mem_manager h) → slot ≠ 3%nat →
           kernel_args (_cl h1) !! slot = kernel_args (_cl h) !! slot) →
  kernel_args (_cl h) !! 2%nat = Some (GlobalArg (_x_vect (_mem_manager h))) →
  kernel_args (_cl h) !! 3%nat = Some (GlobalArg (_y_vect (_mem_manager h))) →
  kernel_args (_cl h) !! 6%nat = Some (GlobalArg (_output (_mem_manager h))) →
  _input_idx (_mem_manager h) ∈ [2; 3; 6]%nat →
  _output_idx (_mem_manager h) ∈ [2; 3; 6]%nat →
  kernel_args (_cl (resetInputs h1)) = kernel_args (_cl h).
Proof.
  intros [_ _ Hx Hy Ho _ _ _] Hslots H2 H3 H6 Hin Hout.
  destruct (resetInputs_effect h1) as (_ & Hargs & _).
  apply map_eq. intros slot. rewrite Hargs, Hx, Hy, Ho.
  destruct (decide (slot = 6%nat)) as [->|N6];
    [by rewrite lookup_insert_eq|rewrite lookup_insert_ne by done].
  destruct (decide (slot = 3%nat)) as [->|N3];
    [by rewrite lookup_insert_eq|rewrite lookup_insert_ne by done].
  destruct (decide (slot = 2%nat)) as [->|N2];
    [by rewrite lookup_insert_eq|rewrite lookup_insert_ne by done].
  apply Hslots; [| |done].
  - intros ->.
    repeat (apply elem_of_cons in Hin as [Hin|Hin]; [congruence|]).
    by apply elem_of_nil in Hin.
  - intros ->.
    repeat (apply elem_of_cons in Hout as [Hout|Hout]; [congruence|]).
    by apply elem_of_nil in Hout.
Qed.

(** X7.  A reset after a run restores the argument table.  On a harness
    whose slots 2, 3 and 6 hold the x vector, the y vector and the output
    buffer, as [allocateBuffers] leaves them, and whose [_input_idx] and
    [_output_idx] are among 2, 3 and 6, [resetInputs] after a run that
    returned gives back the argument table the run started from; the
    handles are the same; the host shadow buffers are those the run left,
    not those it started from. *)
Theorem resetInputs_after_executeRun (fuel : nat) (run : Run) (trial : Z)
    (h : Harness) (recs : list SqlStat) (h' : Harness) :
  executeRun fuel run trial h = Some (recs, h') →
  kernel_args (_cl h) !! 2%nat = Some (GlobalArg (_x_vect (_mem_manager h))) →
  kernel_args (_cl h) !! 3%nat = Some (GlobalArg (_y_vect (_mem_manager h))) →
  kernel_args (_cl h) !! 6%nat = Some (GlobalArg (_output (_mem_manager h))) →
  _input_idx (_mem_manager h) ∈ [2; 3; 6]%nat →
  _output_idx (_mem_manager h) ∈ [2; 3; 6]%nat →
  kernel_args (_cl (resetInputs h')) = kernel_args (_cl h)
  ∧ same_handles (_mem_manager h) (_mem_manager (resetInputs h'))
  ∧ _input_host_buffer (_mem_manager (resetInputs h'))
    = _input_host_buffer (_mem_manager h')
  ∧ _output_host_buffer (_mem_manager (resetInputs h'))
    = _output_host_buffer (_mem_manager h')
  ∧ _args (resetInputs h') = _args h.
Proof.
  intros Hrun H2 H3 H6 Hin Hout.
  destruct (executeRun_Some _ _ _ _ _ _ Hrun)
    as (k & sk & Hk & Hit & _ & _ & _ & ->).
  destruct (iterate_frame run trial h k sk Hit) as (Hh & Ha & _ & _ & Hslots).
  destruct (resetInputs_effect (this sk)) as (Hmm & _ & Ha' & _).
  split; [by apply reset_restores_table|].
  split; [by rewrite Hmm|]. split; [by rewrite Hmm|].
  split; [by rewrite Hmm|congruence].
Qed.

(** ** [allocateBuffers] *)

Local Open Scope nat_scope.

Lemma set_temp_locals_spec sizes : ∀ ai h,
  (set_temp_locals sizes ai h).1 = ai + length sizes
  ∧ (∀ slot, kernel_args (_cl (set_temp_locals sizes ai h).2) !! slot
       = if decide (ai ≤ slot < ai + length sizes)
         then LocalArg <$> sizes !! (slot - ai)
         else kernel_args (_cl h) !! slot)
  ∧ dev_mem (_cl (set_temp_locals sizes ai h).2) = dev_mem (_cl h)
  ∧ next_mem (_cl (set_temp_locals sizes ai h).2) = next_mem (_cl h)
  ∧ _mem_manager (set_temp_locals sizes ai h).2 = _mem_manager h
  ∧ _args (set_temp_locals sizes ai h).2 = _args h
  ∧ _kernel (set_temp_locals sizes ai h).2 = _kernel h
  ∧ (_trials (set_temp_locals sizes ai h).2 = _trials h
     ∧ _timeout (set_temp_locals sizes ai h).2 = _timeout h
     ∧ _delta (set_temp_locals sizes ai h).2 = _delta h)
  ∧ ∃ calls, cl_log (_cl (set_temp_locals sizes ai h).2)
             = cl_log (_cl h) ++ calls
             ∧ launches calls = 0.
Proof.
  induction sizes as [|size sizes IH]; intros ai h.
  - cbn [set_temp_locals fst snd length]. split; [lia|]. split.
    + intros slot. by rewrite decide_False by lia.
    + repeat split. exists []. by rewrite app_nil_r.
  - cbn [set_temp_locals length].
    destruct (IH (S ai) (setLocalArg ai size h))
      as (-> & Hslots & -> & -> & -> & -> & -> & Hcfg & calls & -> & Hla).
    split; [lia|]. split; [|repeat split; try apply Hcfg].
    + intros slot. rewrite Hslots. simpl.
      destruct (decide (slot = ai)) as [->|Hne].
      * rewrite decide_False by lia. rewrite lookup_insert_eq.
        rewrite decide_True by lia. by rewrite Nat.sub_diag.
      * rewrite lookup_insert_ne by done.
        destruct (decide (S ai ≤ slot < S ai + length sizes)).
        -- rewrite !decide_True by lia.
           by replace (slot - ai) with (S (slot - S ai)) by lia.
        -- by rewrite !decide_False by lia.
    + exists (SetKernelArg ai (LocalArg size) :: calls).
      split; [simpl; by rewrite <-app_assoc|done].
Qed.

Lemma set_size_args_spec sizes : ∀ ai h,
  (set_size_args sizes ai h).1 = ai + length sizes
  ∧ (∀ slot, kernel_args (_cl (set_size_args sizes ai h).2) !! slot
       = if decide (ai ≤ slot < ai + length sizes)
         then ValueArg 4 <$> sizes !! (slot - ai)
         else kernel_args (_cl h) !! slot)
  ∧ dev_mem (_cl (set_size_args sizes ai h).2) = dev_mem (_cl h)
  ∧ next_mem (_cl (set_size_args sizes ai h).2) = next_mem (_cl h)
  ∧ _mem_manager (set_size_args sizes ai h).2 = _mem_manager h
  ∧ _args (set_size_args sizes ai h).2 = _args h
  ∧ _kernel (set_size_args sizes ai h).2 = _kernel h
  ∧ (_trials (set_size_args sizes ai h).2 = _trials h
     ∧ _timeout (set_size_args sizes ai h).2 = _timeout h
     ∧ _delta (set_size_args sizes ai h).2 = _delta h)
  ∧ ∃ calls, cl_log (_cl (set_size_args sizes ai h).2)
             = cl_log (_cl h) ++ calls
             ∧ launches calls = 0.
Proof.
  induction sizes as [|size sizes IH]; intros ai h.
  - cbn [set_size_args fst snd length]. split; [lia|]. split.
    + intros slot. by rewrite decide_False by lia.
    + repeat split. exists []. by rewrite app_nil_r.
  - cbn [set_size_args length].
    destruct (IH (S ai) (setValueArg 4 ai size h))
      as (-> & Hslots & -> & -> & -> & -> & -> & Hcfg & calls & -> & Hla).
    split; [lia|]. split; [|repeat split; try apply Hcfg].
    + intros slot. rewrite Hslots. simpl.
      destruct (decide (slot = ai)) as [->|Hne].
      * rewrite decide_False by lia. rewrite lookup_insert_eq.
        rewrite decide_True by lia. by rewrite Nat.sub_diag.
      * rewrite lookup_insert_ne by done.
        destruct (decide (S ai ≤ slot < S ai + length sizes)).
        -- rewrite !decide_True by lia.
           by replace (slot - ai) with (S (slot - S ai)) by lia.
        -- by rewrite !decide_False by lia.
    + exists (SetKernelArg ai (ValueArg 4 size) :: calls).
      split; [simpl; by rewrite <-app_assoc|done].
Qed.

Lemma allocate_temp_globals_spec sizes : ∀ ti ai h,
  (allocate_temp_globals sizes ti ai h).1 = ai + length sizes
  ∧ (∀ slot, kernel_args (_cl (allocate_temp_globals sizes ti ai h).2) !! slot
       = if decide (ai ≤ slot < ai + length sizes)
         then Some (GlobalArg (next_mem (_cl h) + (slot - ai)))
         else kernel_args (_cl h) !! slot)
  ∧ (∀ m, dev_mem (_cl (allocate_temp_globals sizes ti ai h).2) !! m
       = if decide (next_mem (_cl h) ≤ m < next_mem (_cl h) + length sizes)
         then (λ size, replicate size x00) <$> sizes !! (m - next_mem (_cl h))
         else dev_mem (_cl h) !! m)
  ∧ next_mem (_cl (allocate_temp_globals sizes ti ai h).2)
    = next_mem (_cl h) + length sizes
  ∧ _mem_manager (allocate_temp_globals sizes ti ai h).2
    = set_temp_global
        (_temp_global (_mem_manager (allocate_temp_globals sizes ti ai h).2))
        (_mem_manager h)
  ∧ length (_temp_global (_mem_manager (allocate_temp_globals sizes ti ai h).2))
    = length (_temp_global (_mem_manager h))
  ∧ (∀ j, _temp_global (_mem_manager (allocate_temp_globals sizes ti ai h).2)
          !! j
       = if decide (ti ≤ j < ti + length sizes
                    ∧ j < length (_temp_global (_mem_manager h)))
         then Some (next_mem (_cl h) + (j - ti))
         else _temp_global (_mem_manager h) !! j)
  ∧ _args (allocate_temp_globals sizes ti ai h).2 = _args h
  ∧ _kernel (allocate_temp_globals sizes ti ai h).2 = _kernel h
  ∧ (_trials (allocate_temp_globals sizes ti ai h).2 = _trials h
     ∧ _timeout (allocate_temp_globals sizes ti ai h).2 = _timeout h
     ∧ _delta (allocate_temp_globals sizes ti ai h).2 = _delta h)
  ∧ ∃ calls, cl_log (_cl (allocate_temp_globals sizes ti ai h).2)
             = cl_log (_cl h) ++ calls
             ∧ launches calls = 0.
Proof.
  induction sizes as [|size sizes IH]; intros ti ai h.
  - cbn [allocate_temp_globals fst snd length]. split; [lia|]. split.
    { intros slot. by rewrite decide_False by lia. }
    split.
    { intros m. by rewrite decide_False by lia. }
    split; [lia|]. split; [by destruct (_mem_manager h)|]. split; [done|].
    split.
    { intros j. by rewrite decide_False by lia. }
    repeat split. exists []. by rewrite app_nil_r.
  - cbn [allocate_temp_globals createGlobalArg length].
    match goal with
    | |- context [allocate_temp_globals sizes (S ti) (S ai) ?x] =>
        set (h1 := x)
    end.
    destruct (IH (S ti) (S ai) h1)
      as (-> & Hslots & Hmem & -> & Hmm & Hlen & Htg & -> & -> & Hcfg
          & calls & -> & Hla).
    assert (Hnext : next_mem (_cl h1) = S (next_mem (_cl h))) by done.
    assert (Hlen1 : length (_temp_global (_mem_manager h1))
                    = length (_temp_global (_mem_manager h))).
    { subst h1. simpl. by rewrite length_insert. }
    rewrite Hnext in *.
    split; [lia|]. split; [|split; [|split; [lia|]]].
    + intros slot. rewrite Hslots.
      destruct (decide (slot = ai)) as [->|Hne].
      * rewrite decide_False by lia. rewrite decide_True by lia.
        subst h1. simpl. rewrite lookup_insert_eq.
        do 2 f_equal. lia.
      * destruct (decide (S ai ≤ slot < S ai + length sizes)).
        -- rewrite !decide_True by lia. do 2 f_equal. lia.
        -- rewrite !decide_False by lia. subst h1. simpl.
           by rewrite lookup_insert_ne.
    + intros m. rewrite Hmem.
      destruct (decide (m = next_mem (_cl h))) as [->|Hne].
      * rewrite decide_False by lia. rewrite decide_True by lia.
        rewrite Nat.sub_diag. subst h1. simpl.
        rewrite lookup_insert_eq. unfold mem_bytes. simpl.
        rewrite lookup_insert_eq. simpl.
        by rewrite drop_replicate, Nat.sub_diag, app_nil_r.
      * destruct (decide (S (next_mem (_cl h)) ≤ m
                          < S (next_mem (_cl h)) + length sizes)).
        -- rewrite !decide_True by lia.
           by replace (m - next_mem (_cl h))
             with (S (m - S (next_mem (_cl h)))) by lia.
        -- rewrite !decide_False by lia. subst h1. simpl.
           by rewrite !lookup_insert_ne.
    + split; [rewrite Hmm; reflexivity|]. split; [congruence|]. split.
      * intros j. rewrite Htg, Hlen1.
        destruct (decide (j = ti)) as [->|Hne].
        -- rewrite decide_False by lia. subst h1. simpl.
           destruct (decide (ti < length (_temp_global (_mem_manager h)))).
           ++ rewrite decide_True by lia.
              rewrite list_lookup_insert_eq by done. f_equal. lia.
           ++ rewrite decide_False by lia.
              by rewrite list_insert_ge by lia.
        -- destruct (decide (S ti ≤ j < S ti + length sizes
                             ∧ j < length (_temp_global (_mem_manager h)))).
           ++ rewrite !decide_True by lia. f_equal. lia.
           ++ rewrite !decide_False by lia. subst h1. simpl.
              by rewrite list_lookup_insert_ne.
      * split; [done|]. split; [done|]. split; [apply Hcfg|].
        exists (CreateBuffer (next_mem (_cl h)) size
                :: EnqueueFillBuffer (next_mem (_cl h)) size
                :: SetKernelArg ai (GlobalArg (next_mem (_cl h))) :: calls).
        split; [|done]. subst h1. simpl. by rewrite <-!app_assoc.
Qed.

(** The state [allocateBuffers] reaches before its three loops. *)
Local Abbreviation fixed_part h0 :=
  (let args := _args h0 in
   let '(m, h) := createAndUploadGlobalArg (m_idxs args) false h0 in
   let h := assign f_matrix_idxs m h in
   let h := setGlobalArg 0 (_matrix_idxs (_mem_manager h)) h in
   let '(m, h) := createAndUploadGlobalArg (m_vals args) false h in
   let h := assign f_matrix_vals m h in
   let h := setGlobalArg 1 (_matrix_vals (_mem_manager h)) h in
   let '(m, h) := createAndUploadGlobalArg (x_vect args) true h in
   let h := assign f_x_vect m h in
   let h := setGlobalArg 2 (_x_vect (_mem_manager h)) h in
   let '(m, h) := createAndUploadGlobalArg (y_vect args) true h in
   let h := assign f_y_vect m h in
   let h := setGlobalArg 3 (_y_vect (_mem_manager h)) h in
   let h := setValueArg 4 4 (alpha args) h in
   let h := setValueArg 4 5 (beta args) h in
   let h := set_mem_manager (set_output_idx 6 (_mem_manager h)) h in
   let '(m, h) := createGlobalArg (output args) h in
   let h := assign f_output m h in
   setGlobalArg 6 (_output (_mem_manager h)) h).

Lemma loops_commute (tg tl : list nat) (sa : list Z) (h : Harness) :
  (let '(arg_index, h) := allocate_temp_globals tg 0 7 h in
   let '(arg_index, h) := set_temp_locals tl arg_index h in
   snd (set_size_args sa arg_index h))
  = (set_size_args sa (7 + length tg + length tl)
       (set_temp_locals tl (7 + length tg)
          (allocate_temp_globals tg 0 7 h).2).2).2.
Proof.
  pose proof (allocate_temp_globals_spec tg 0 7 h) as (H1 & _).
  destruct (allocate_temp_globals tg 0 7 h) as [ai1 h1].
  cbn [fst snd] in *. subst ai1.
  pose proof (set_temp_locals_spec tl (7 + length tg) h1) as (H2 & _).
  destruct (set_temp_locals tl (7 + length tg) h1) as [ai2 h2].
  cbn [fst snd] in *. subst ai2. reflexivity.
Qed.

Local Ltac run_fixed_part :=
  cbv beta iota zeta delta
    [allocateBuffers createAndUploadGlobalArg createGlobalArg assign
     setGlobalArg setValueArg set_cl set_mem_manager set_handle
     set_output_idx _cl _mem_manager _args cl_log dev_mem kernel_args
     next_mem _kernel _trials _timeout _delta _matrix_idxs _matrix_vals
     _x_vect _y_vect _output _temp_global _input_idx _output_idx
     _input_host_buffer _output_host_buffer _temp_out_buffer].

Lemma allocateBuffers_unfold h0 :
  allocateBuffers h0
  = (set_size_args (size_args (_args h0))
       (7 + length (temp_globals (_args h0)) + length (temp_locals (_args h0)))
       (set_temp_locals (temp_locals (_args h0))
          (7 + length (temp_globals (_args h0)))
          (allocate_temp_globals (temp_globals (_args h0)) 0 7
             (fixed_part h0)).2).2).2.
Proof.
  destruct h0 as [k [dm ka nm log] args mm tr tm de].
  destruct mm as [mi mv xv yv ov tg ii oi ih oh th].
  run_fixed_part. apply loops_commute.
Qed.

Lemma fixed_part_state h0 :
  let n := next_mem (_cl h0) in
  let a := _args h0 in
  kernel_args (_cl (fixed_part h0))
  = <[6 := GlobalArg (S (S (S (S n))))]>
      (<[5 := ValueArg 4 (beta a)]>
         (<[4 := ValueArg 4 (alpha a)]>
            (<[3 := GlobalArg (S (S (S n)))]>
               (<[2 := GlobalArg (S (S n))]>
                  (<[1 := GlobalArg (S n)]>
                     (<[0 := GlobalArg n]> (kernel_args (_cl h0))))))))
  ∧ dev_mem (_cl (fixed_part h0))
    = <[S (S (S (S n))) := replicate (output a) x00]>
        (<[S (S (S n)) := y_vect a]>
           (<[S (S n) := x_vect a]>
              (<[S n := m_vals a]> (<[n := m_idxs a]> (dev_mem (_cl h0))))))
  ∧ next_mem (_cl (fixed_part h0)) = S (S (S (S (S n))))
  ∧ _mem_manager (fixed_part h0)
    = {| _matrix_idxs := n; _matrix_vals := S n; _x_vect := S (S n);
         _y_vect := S (S (S n)); _output := S (S (S (S n)));
         _temp_global := _temp_global (_mem_manager h0);
         _input_idx := _input_idx (_mem_manager h0); _output_idx := 6;
         _input_host_buffer := _input_host_buffer (_mem_manager h0);
         _output_host_buffer := _output_host_buffer (_mem_manager h0);
         _temp_out_buffer := _temp_out_buffer (_mem_manager h0) |}
  ∧ _args (fixed_part h0) = a
  ∧ _kernel (fixed_part h0) = _kernel h0
  ∧ (_trials (fixed_part h0) = _trials h0
     ∧ _timeout (fixed_part h0) = _timeout h0
     ∧ _delta (fixed_part h0) = _delta h0)
  ∧ ∃ calls, cl_log (_cl (fixed_part h0)) = cl_log (_cl h0) ++ calls
             ∧ launches calls = 0.
Proof.
  intros n a. subst n a.
  destruct h0 as [k [dm ka nm log] args mm tr tm de].
  destruct mm as [mi mv xv yv ov tg ii oi ih oh th].
  run_fixed_part.
  do 6 (split; [reflexivity|]). split; [by repeat split|].
  eexists. split; [rewrite <-!app_assoc; reflexivity|reflexivity].
Qed.

Section allocate.
Variable h0 : Harness.

Local Abbreviation a := (_args h0).
Local Abbreviation n := (next_mem (_cl h0)).
Local Abbreviation T := (length (temp_globals (_args h0))).
Local Abbreviation L := (length (temp_locals (_args h0))).

(** The argument table and the device memory before the three loops. *)
Local Abbreviation fixed_slots :=
  (insert 6 (GlobalArg (n + 4))
     (insert 5 (ValueArg 4 (beta a))
        (insert 4 (ValueArg 4 (alpha a))
           (insert 3 (GlobalArg (n + 3))
              (insert 2 (GlobalArg (n + 2))
                 (insert 1 (GlobalArg (n + 1))
                    (insert 0 (GlobalArg n) (kernel_args (_cl h0)))))))))
  (only parsing).
Local Abbreviation fixed_buffers :=
  (insert (n + 4) (replicate (output a) x00)
     (insert (n + 3) (y_vect a)
        (insert (n + 2) (x_vect a)
           (insert (n + 1) (m_vals a)
              (insert n (m_idxs a) (dev_mem (_cl h0)))))))
  (only parsing).

Lemma allocateBuffers_slot slot :
  kernel_args (_cl (allocateBuffers h0)) !! slot
  = if decide (7 + T + L ≤ slot < 7 + T + L + length (size_args a))
    then ValueArg 4 <$> size_args a !! (slot - (7 + T + L))
    else if decide (7 + T ≤ slot < 7 + T + L)
    then LocalArg <$> temp_locals a !! (slot - (7 + T))
    else if decide (7 ≤ slot < 7 + T)
    then Some (GlobalArg (n + 5 + (slot - 7)))
    else fixed_slots !! slot.
Proof.
  rewrite allocateBuffers_unfold.
  destruct (set_size_args_spec (size_args a) (7 + T + L)
              (set_temp_locals (temp_locals a) (7 + T)
                 (allocate_temp_globals (temp_globals a) 0 7
                    (fixed_part h0)).2).2)
    as (_ & -> & _).
  destruct (set_temp_locals_spec (temp_locals a) (7 + T)
              (allocate_temp_globals (temp_globals a) 0 7 (fixed_part h0)).2)
    as (_ & -> & _).
  destruct (allocate_temp_globals_spec (temp_globals a) 0 7 (fixed_part h0))
    as (_ & -> & _).
  destruct (fixed_part_state h0) as (-> & _ & -> & _).
  replace (S (S (S (S (S n))))) with (n + 5) by lia.
  replace (S (S (S (S n)))) with (n + 4) by lia.
  replace (S (S (S n))) with (n + 3) by lia.
  replace (S (S n)) with (n + 2) by lia.
  replace (S n) with (n + 1) by lia.
  reflexivity.
Qed.

Lemma allocateBuffers_mem m :
  dev_mem (_cl (allocateBuffers h0)) !! m
  = if decide (n + 5 ≤ m < n + 5 + T)
    then (λ size, replicate size x00) <$> temp_globals a !! (m - (n + 5))
    else fixed_buffers !! m.
Proof.
  rewrite allocateBuffers_unfold.
  destruct (set_size_args_spec (size_args a) (7 + T + L)
              (set_temp_locals (temp_locals a) (7 + T)
                 (allocate_temp_globals (temp_globals a) 0 7
                    (fixed_part h0)).2).2)
    as (_ & _ & -> & _).
  destruct (set_temp_locals_spec (temp_locals a) (7 + T)
              (allocate_temp_globals (temp_globals a) 0 7 (fixed_part h0)).2)
    as (_ & _ & -> & _).
  destruct (allocate_temp_globals_spec (temp_globals a) 0 7 (fixed_part h0))
    as (_ & _ & -> & _).
  destruct (fixed_part_state h0) as (_ & -> & -> & _).
  replace (S (S (S (S (S n))))) with (n + 5) by lia.
  replace (S (S (S (S n)))) with (n + 4) by lia.
  replace (S (S (S n))) with (n + 3) by lia.
  replace (S (S n)) with (n + 2) by lia.
  replace (S n) with (n + 1) by lia.
  reflexivity.
Qed.

Lemma allocateBuffers_mem_manager :
  _mem_manager (allocateBuffers h0)
  = {| _matrix_idxs := n; _matrix_vals := n + 1; _x_vect := n + 2;
       _y_vect := n + 3; _output := n + 4;
       _temp_global := _temp_global (_mem_manager (allocateBuffers h0));
       _input_idx := _input_idx (_mem_manager h0); _output_idx := 6;
       _input_host_buffer := _input_host_buffer (_mem_manager h0);
       _output_host_buffer := _output_host_buffer (_mem_manager h0);
       _temp_out_buffer := _temp_out_buffer (_mem_manager h0) |}
  ∧ length (_temp_global (_mem_manager (allocateBuffers h0)))
    = length (_temp_global (_mem_manager h0))
  ∧ ∀ j, _temp_global (_mem_manager (allocateBuffers h0)) !! j
         = if decide (j < T ∧ j < length (_temp_global (_mem_manager h0)))
           then Some (n + 5 + j)
           else _temp_global (_mem_manager h0) !! j.
Proof.
  rewrite allocateBuffers_unfold.
  destruct (set_size_args_spec (size_args a) (7 + T + L)
              (set_temp_locals (temp_locals a) (7 + T)
                 (allocate_temp_globals (temp_globals a) 0 7
                    (fixed_part h0)).2).2)
    as (_ & _ & _ & _ & -> & _).
  destruct (set_temp_locals_spec (temp_locals a) (7 + T)
              (allocate_temp_globals (temp_globals a) 0 7 (fixed_part h0)).2)
    as (_ & _ & _ & _ & -> & _).
  destruct (allocate_temp_globals_spec (temp_globals a) 0 7 (fixed_part h0))
    as (_ & _ & _ & _ & Hmm & Hlen & Htg & _).
  destruct (fixed_part_state h0) as (_ & _ & Hn & Hfm & _).
  rewrite Hn, Hfm in *. cbn [_temp_global] in *.
  split; [|split; [exact Hlen|]].
  - rewrite Hmm at 1. unfold set_temp_global.
    cbn [_matrix_idxs _matrix_vals _x_vect _y_vect _output _input_idx
         _output_idx _input_host_buffer _output_host_buffer _temp_out_buffer].
    f_equal; lia.
  - intros j. rewrite Htg.
    destruct (decide (j < T ∧ j < length (_temp_global (_mem_manager h0)))).
    + rewrite decide_True by lia. f_equal. lia.
    + rewrite decide_False by lia. reflexivity.
Qed.

Lemma allocateBuffers_frame : alloc_frame h0 (allocateBuffers h0).
Proof.
  destruct allocateBuffers_mem_manager as (Hmm & _ & _).
  destruct (fixed_part_state h0)
    as (_ & _ & _ & _ & Hfa & Hfk & Hfc & c0 & Hflog & H0).
  assert (Hrest :
    _kernel (allocateBuffers h0) = _kernel h0
    ∧ _args (allocateBuffers h0) = _args h0
    ∧ (_trials (allocateBuffers h0) = _trials h0
       ∧ _timeout (allocateBuffers h0) = _timeout h0
       ∧ _delta (allocateBuffers h0) = _delta h0)
    ∧ ∃ calls, cl_log (_cl (allocateBuffers h0)) = cl_log (_cl h0) ++ calls
               ∧ launches calls = 0).
  { rewrite allocateBuffers_unfold.
    destruct (set_size_args_spec (size_args a) (7 + T + L)
                (set_temp_locals (temp_locals a) (7 + T)
                   (allocate_temp_globals (temp_globals a) 0 7
                      (fixed_part h0)).2).2)
      as (_ & _ & _ & _ & _ & -> & -> & (-> & -> & ->) & c3 & -> & H3).
    destruct (set_temp_locals_spec (temp_locals a) (7 + T)
                (allocate_temp_globals (temp_globals a) 0 7
                   (fixed_part h0)).2)
      as (_ & _ & _ & _ & _ & -> & -> & (-> & -> & ->) & c2 & -> & H2).
    destruct (allocate_temp_globals_spec (temp_globals a) 0 7 (fixed_part h0))
      as (_ & _ & _ & _ & _ & _ & _ & -> & -> & (-> & -> & ->) & c1 & -> & H1).
    split; [exact Hfk|]. split; [exact Hfa|]. split; [exact Hfc|].
    exists (c0 ++ c1 ++ c2 ++ c3). split.
    - rewrite Hflog, <-!app_assoc. reflexivity.
    - rewrite !launches_app, H0, H1, H2, H3. reflexivity. }
  destruct Hrest as (Hk & Ha & Hcfg & calls & Hlog & Hla).
  split.
  - exact Hk.
  - exact Ha.
  - exact Hcfg.
  - rewrite Hmm. reflexivity.
  - rewrite Hmm. repeat split.
  - intros m Hm. rewrite allocateBuffers_mem.
    rewrite decide_False by lia.
    rewrite !lookup_insert_ne by lia. reflexivity.
  - rewrite (calls_since_app _ _ _ Hlog). exact Hla.
Qed.

Lemma allocateBuffers_next_mem :
  next_mem (_cl (allocateBuffers h0)) = n + 5 + T.
Proof.
  rewrite allocateBuffers_unfold.
  destruct (set_size_args_spec (size_args a) (7 + T + L)
              (set_temp_locals (temp_locals a) (7 + T)
                 (allocate_temp_globals (temp_globals a) 0 7
                    (fixed_part h0)).2).2)
    as (_ & _ & _ & -> & _).
  destruct (set_temp_locals_spec (temp_locals a) (7 + T)
              (allocate_temp_globals (temp_globals a) 0 7 (fixed_part h0)).2)
    as (_ & _ & _ & -> & _).
  destruct (allocate_temp_globals_spec (temp_globals a) 0 7 (fixed_part h0))
    as (_ & _ & _ & -> & _).
  destruct (fixed_part_state h0) as (_ & _ & -> & _). lia.
Qed.
End allocate.

(** X8.  The layout that [allocateBuffers] sets up.  On a harness whose
    [_temp_global] vector has one entry per temporary buffer, the five
    buffers and the temporary buffers get fresh, pairwise distinct handles;
    the slots are, from 0 on: matrix indices, matrix values, x vector, y
    vector, alpha, beta, output (so [_output_idx] is 6), then the temporary
    buffers, then the local sizes, then the size arguments, and a slot past
    these is as before; the four uploaded buffers hold the vectors of
    [_args], the output buffer has [_args.output] bytes, the temporary
    buffers are zero; nothing is launched, and the buffers that existed,
    the host vectors and [_input_idx] are as before.  The slots 2, 3 and 6
    that [resetInputs] binds are those of the x vector, the y vector and
    the output buffer: a reset right after the allocation leaves the
    argument table as it is. *)
Theorem allocateBuffers_layout (h0 : Harness) :
  length (_temp_global (_mem_manager h0)) = length (temp_globals (_args h0)) →
  let h := allocateBuffers h0 in
  let a := _args h0 in
  let n := next_mem (_cl h0) in
  let T := length (temp_globals a) in
  let L := length (temp_locals a) in
  handles (_mem_manager h) = seq n (5 + T)
  ∧ NoDup (handles (_mem_manager h))
  ∧ _output_idx (_mem_manager h) = 6
  ∧ kernel_args (_cl h) !! 0 = Some (GlobalArg (_matrix_idxs (_mem_manager h)))
  ∧ kernel_args (_cl h) !! 1 = Some (GlobalArg (_matrix_vals (_mem_manager h)))
  ∧ kernel_args (_cl h) !! 2 = Some (GlobalArg (_x_vect (_mem_manager h)))
  ∧ kernel_args (_cl h) !! 3 = Some (GlobalArg (_y_vect (_mem_manager h)))
  ∧ kernel_args (_cl h) !! 4 = Some (ValueArg 4 (alpha a))
  ∧ kernel_args (_cl h) !! 5 = Some (ValueArg 4 (beta a))
  ∧ kernel_args (_cl h) !! 6 = Some (GlobalArg (_output (_mem_manager h)))
  ∧ (∀ j m, _temp_global (_mem_manager h) !! j = Some m →
       kernel_args (_cl h) !! (7 + j) = Some (GlobalArg m))
  ∧ (∀ j size, temp_locals a !! j = Some size →
       kernel_args (_cl h) !! (7 + T + j) = Some (LocalArg size))
  ∧ (∀ j size, size_args a !! j = Some size →
       kernel_args (_cl h) !! (7 + T + L + j) = Some (ValueArg 4 size))
  ∧ (∀ slot, 7 + T + L + length (size_args a) ≤ slot →
       kernel_args (_cl h) !! slot = kernel_args (_cl h0) !! slot)
  ∧ mem_bytes (_cl h) (_matrix_idxs (_mem_manager h)) = m_idxs a
  ∧ mem_bytes (_cl h) (_matrix_vals (_mem_manager h)) = m_vals a
  ∧ mem_bytes (_cl h) (_x_vect (_mem_manager h)) = x_vect a
  ∧ mem_bytes (_cl h) (_y_vect (_mem_manager h)) = y_vect a
  ∧ length (mem_bytes (_cl h) (_output (_mem_manager h))) = output a
  ∧ (∀ j m size, _temp_global (_mem_manager h) !! j = Some m →
       temp_globals a !! j = Some size →
       mem_bytes (_cl h) m = replicate size x00)
  ∧ next_mem (_cl h) = n + 5 + T
  ∧ alloc_frame h0 h
  ∧ kernel_args (_cl (resetInputs h)) = kernel_args (_cl h).
Proof.
  intros Hlen h a n T L. subst h a n T L.
  destruct (allocateBuffers_mem_manager h0) as (Hmm & _ & Htg).
  pose proof (allocateBuffers_slot h0) as Hslot.
  pose proof (allocateBuffers_mem h0) as Hmem.
  pose proof (allocateBuffers_next_mem h0) as Hnext.
  pose proof (allocateBuffers_frame h0) as Hframe.
  set (h := allocateBuffers h0) in *.
  set (n := next_mem (_cl h0)) in *.
  set (T := length (temp_globals (_args h0))) in *.
  set (L := length (temp_locals (_args h0))) in *.
  assert (Hi : _matrix_idxs (_mem_manager h) = n) by (by rewrite Hmm).
  assert (Hv : _matrix_vals (_mem_manager h) = n + 1) by (by rewrite Hmm).
  assert (Hx : _x_vect (_mem_manager h) = n + 2) by (by rewrite Hmm).
  assert (Hy : _y_vect (_mem_manager h) = n + 3) by (by rewrite Hmm).
  assert (Ho : _output (_mem_manager h) = n + 4) by (by rewrite Hmm).
  assert (Hoi : _output_idx (_mem_manager h) = 6) by (by rewrite Hmm).
  assert (Htemps : _temp_global (_mem_manager h) = seq (n + 5) T).
  { apply list_eq. intros j. rewrite Htg.
    destruct (decide (j < T)) as [Hj|Hj].
    - rewrite decide_True by lia. by rewrite lookup_seq_lt.
    - rewrite decide_False by lia. rewrite lookup_seq_ge by lia.
      apply lookup_ge_None_2. lia. }
  assert (Hhandles : handles (_mem_manager h) = seq n (5 + T)).
  { unfold handles. rewrite Hi, Hv, Hx, Hy, Ho, Htemps.
    change (5 + T) with (S (S (S (S (S T))))). cbn [seq].
    repeat (f_equal; try lia). }
  assert (H0 : kernel_args (_cl h) !! 0 = Some (GlobalArg n)).
  { rewrite Hslot, !decide_False by lia.
    rewrite !lookup_insert_ne by lia. by rewrite lookup_insert_eq. }
  assert (H1 : kernel_args (_cl h) !! 1 = Some (GlobalArg (n + 1))).
  { rewrite Hslot, !decide_False by lia.
    rewrite !lookup_insert_ne by lia. by rewrite lookup_insert_eq. }
  assert (H2 : kernel_args (_cl h) !! 2 = Some (GlobalArg (n + 2))).
  { rewrite Hslot, !decide_False by lia.
    rewrite !lookup_insert_ne by lia. by rewrite lookup_insert_eq. }
  assert (H3 : kernel_args (_cl h) !! 3 = Some (GlobalArg (n + 3))).
  { rewrite Hslot, !decide_False by lia.
    rewrite !lookup_insert_ne by lia. by rewrite lookup_insert_eq. }
  assert (H4 : kernel_args (_cl h) !! 4 = Some (ValueArg 4 (alpha (_args h0)))).
  { rewrite Hslot, !decide_False by lia.
    rewrite !lookup_insert_ne by lia. by rewrite lookup_insert_eq. }
  assert (H5 : kernel_args (_cl h) !! 5 = Some (ValueArg 4 (beta (_args h0)))).
  { rewrite Hslot, !decide_False by lia.
    rewrite !lookup_insert_ne by lia. by rewrite lookup_insert_eq. }
  assert (H6 : kernel_args (_cl h) !! 6 = Some (GlobalArg (n + 4))).
  { rewrite Hslot, !decide_False by lia. by rewrite lookup_insert_eq. }
  rewrite Hi, Hv, Hx, Hy, Ho.
  split; [exact Hhandles|]. split; [rewrite Hhandles; apply NoDup_seq|].
  split; [exact Hoi|].
  do 7 (split; [assumption|]).
  split.
  { intros j m Hj. rewrite Htemps in Hj. apply lookup_seq in Hj as [-> Hj].
    rewrite Hslot, !decide_False by lia. rewrite decide_True by lia.
    do 2 f_equal. lia. }
  split.
  { intros j size Hj. pose proof (lookup_lt_Some _ _ _ Hj) as Hlt.
    rewrite Hslot, decide_False by (fold L in Hlt; lia).
    rewrite decide_True by (fold L in Hlt; lia).
    replace (7 + T + j - (7 + T)) with j by lia. by rewrite Hj. }
  split.
  { intros j size Hj. pose proof (lookup_lt_Some _ _ _ Hj) as Hlt.
    rewrite Hslot, decide_True by lia.
    replace (7 + T + L + j - (7 + T + L)) with j by lia. by rewrite Hj. }
  split.
  { intros slot Hs. rewrite Hslot, !decide_False by lia.
    by rewrite !lookup_insert_ne by lia. }
  unfold mem_bytes.
  split.
  { rewrite Hmem, decide_False by lia.
    rewrite !lookup_insert_ne by lia. by rewrite lookup_insert_eq. }
  split.
  { rewrite Hmem, decide_False by lia.
    rewrite !lookup_insert_ne by lia. by rewrite lookup_insert_eq. }
  split.
  { rewrite Hmem, decide_False by lia.
    rewrite !lookup_insert_ne by lia. by rewrite lookup_insert_eq. }
  split.
  { rewrite Hmem, decide_False by lia.
    rewrite !lookup_insert_ne by lia. by rewrite lookup_insert_eq. }
  split.
  { rewrite Hmem, decide_False by lia. rewrite lookup_insert_eq.
    apply length_replicate. }
  split.
  { intros j m size Hj Hsize. rewrite Htemps in Hj.
    apply lookup_seq in Hj as [-> Hj].
    rewrite Hmem, decide_True by lia.
    replace (n + 5 + j - (n + 5)) with j by lia. by rewrite Hsize. }
  split; [exact Hnext|]. split; [exact Hframe|].
  destruct (resetInputs_effect h) as (_ & -> & _).
  rewrite Hx, Hy, Ho.
  rewrite (insert_id _ 2) by exact H2.
  rewrite (insert_id _ 3) by exact H3.
  by rewrite (insert_id _ 6) by exact H6.
Qed.

Local Close Scope nat_scope.

(** ** The termination test on buffers of [2^32] elements or more *)

Section sti_wrap.
Variables (input output : list byte) (input_length output_length : Z).
Hypothesis Hbig : 2 ^ 32 ≤ Z.min input_length output_length.

Lemma sti_loop_wrap_not_true fuel : ∀ eq i,
  0 ≤ i < 2 ^ 32 →
  sti_loop fuel input output input_length output_length eq i ≠ Some true.
Proof.
  induction fuel as [|fuel IH]; intros eq i Hi; [done|].
  cbn [sti_loop]. destruct eq; [|done].
  rewrite andb_true_l, sti_loop_guard, bool_decide_eq_true_2 by lia.
  apply IH. unfold wrap. apply Z.mod_pos_bound. lia.
Qed.

Lemma sti_loop_wrap_false fuel : ∀ i,
  0 ≤ i < 2 ^ 32 →
  sti_loop fuel input output input_length output_length true i = Some false →
  ∃ j, 0 ≤ j < 2 ^ 32 ∧ load_int input j ≠ load_int output j.
Proof.
  induction fuel as [|fuel IH]; intros i Hi; [done|].
  cbn [sti_loop].
  rewrite andb_true_l, sti_loop_guard, bool_decide_eq_true_2 by lia.
  destruct (Z.eqb_spec (load_int input i) (load_int output i)) as [He|Hne].
  - apply IH. unfold wrap. apply Z.mod_pos_bound. lia.
  - intros _. by exists i.
Qed.
End sti_wrap.

(** X9.  The termination test on buffers of [2^32] elements or more.
    The loop counter is an [unsigned int] and the lengths are [size_t]:
    when both buffers hold at least [2^32] elements the counter wraps to 0
    before it reaches a length, so the test never returns true; it returns
    false if and only if two of the first [2^32] pairs of elements differ,
    and if they are all equal it does not return, whatever the fuel. *)
Theorem should_terminate_iteration_wraps (this : Harness)
    (input output : list byte) :
  2 ^ 32 ≤ Z.min (vsize input / 4) (vsize output / 4) →
  (should_terminate_iteration this input output = Some false
   ↔ ∃ j, 0 ≤ j < 2 ^ 32 ∧ load_int input j ≠ load_int output j)
  ∧ (should_terminate_iteration this input output = None
     ↔ ∀ j, 0 ≤ j < 2 ^ 32 → load_int input j = load_int output j)
  ∧ should_terminate_iteration this input output ≠ Some true
  ∧ (should_terminate_iteration this input output = None →
     ∀ fuel, sti_loop fuel input output (vsize input / 4) (vsize output / 4)
               true 0 = None).
Proof.
  intros Hbig.
  assert (Hnt : should_terminate_iteration this input output ≠ Some true).
  { apply sti_loop_wrap_not_true; [done|lia]. }
  assert (Hfalse : should_terminate_iteration this input output = Some false →
            ∃ j, 0 ≤ j < 2 ^ 32 ∧ load_int input j ≠ load_int output j).
  { apply sti_loop_wrap_false; [done|lia]. }
  assert (Hall : (∀ j, 0 ≤ j < 2 ^ 32 → load_int input j = load_int output j) →
            should_terminate_iteration this input output = None).
  { intros Hall. apply sti_loop_forever; [lia|done|done]. }
  assert (Hnone : should_terminate_iteration this input output = None →
            ∀ j, 0 ≤ j < 2 ^ 32 → load_int input j = load_int output j).
  { intros Hn j Hj.
    assert (∃ f, Z.of_nat f = 2 ^ 32) as [f Hf].
    { exists (Z.to_nat (2 ^ 32)). apply Z2Nat.id. lia. }
    apply (sti_loop_None_agree input output (vsize input / 4)
             (vsize output / 4) f 0); [lia|lia|done| |lia].
    apply (should_terminate_iteration_fuel this), Hn. }
  split; [|split; [|split]].
  - split; [done|]. intros (j & Hj & Hne).
    destruct (should_terminate_iteration this input output) as [[]|] eqn:Hr;
      [done|done|].
    destruct Hne. by apply Hnone.
  - split; done.
  - done.
  - apply should_terminate_iteration_fuel.
Qed.

(** ** Shadow buffers that hold no element *)

Lemma should_terminate_iteration_no_element this input output :
  (length input < 4)%nat ∨ (length output < 4)%nat →
  should_terminate_iteration this input output = Some true.
Proof.
  intros Hshort. unfold should_terminate_iteration.
  cbn [sti_loop]. rewrite andb_true_l, sti_loop_guard.
  rewrite bool_decide_eq_false_2; [done|].
  unfold vsize.
  destruct Hshort as [Hs|Hs].
  - rewrite (Z.div_small (Z.of_nat (length input))) by lia.
    pose proof (vsize_div_nonneg output). unfold vsize in *. lia.
  - rewrite (Z.div_small (Z.of_nat (length output))) by lia.
    pose proof (vsize_div_nonneg input). unfold vsize in *. lia.
Qed.

(** X10.  A shadow buffer without a whole element ends the run at once.
    When the download of the first pass is one that the runtime accepts
    (the output shadow is not empty and not longer than the buffer it is
    read from) and the input or the output shadow holds fewer than four
    bytes, no [int] at all, the termination test has nothing to compare
    and answers true: [executeRun] returns after exactly one pass, with one
    raw record, numbered 0, and one launch, whatever the kernel computes;
    the shadows keep their lengths.  (A download into an empty vector is
    refused by the runtime and ends the process; the statement leaves it
    out.) *)
Theorem executeRun_no_element (run : Run) (trial : Z) (h : Harness) :
  (1 ≤ length (_output_host_buffer (_mem_manager h)))%nat →
  (length (_output_host_buffer (_mem_manager h))
   ≤ length
       (default []
          ((_kernel h run (kernel_args (_cl h))
              (dev_mem (_cl (resetTempBuffers h)))).1
           !! _output (_mem_manager h))))%nat →
  (length (_input_host_buffer (_mem_manager h)) < 4)%nat
  ∨ (length (_output_host_buffer (_mem_manager h)) < 4)%nat →
  ∃ time h',
    (∀ fuel, executeRun (S fuel) run trial h
             = Some ([mkSqlStat time NOT_CHECKED (global1 run) (local1 run)
                        RAW_RESULT (Some trial) (Some 0)], h'))
    ∧ launches (calls_since h h') = 1%nat
    ∧ length (_input_host_buffer (_mem_manager h'))
      = length (_input_host_buffer (_mem_manager h))
    ∧ _output_host_buffer (_mem_manager h')
      = take (length (_output_host_buffer (_mem_manager h)))
          (mem_bytes (_cl h') (_output (_mem_manager h))).
Proof.
  intros Hnonempty Hfits Hshort.
  destruct (loop_body_returns run trial (executeRun_init h)) as [s1 Hs1].
  { cbn [executeRun_init this input_host_ptr output_host_ptr deref_host].
    pose proof (vsize_div_nonneg (_input_host_buffer (_mem_manager h))).
    pose proof (vsize_div_nonneg (_output_host_buffer (_mem_manager h))).
    unfold vsize in *.
    destruct Hshort as [Hs|Hs].
    - rewrite (Z.div_small (Z.of_nat (length (_input_host_buffer _)))) by lia.
      lia.
    - rewrite (Z.div_small (Z.of_nat (length (_output_host_buffer _)))) by lia.
      lia. }
  pose proof (loop_body_spec _ _ _ _ Hs1) as Hspec.
  pose proof (loop_body_lengths _ _ _ _ ptr_input_host_buffer Hs1) as Hli.
  pose proof (loop_body_lengths _ _ _ _ ptr_output_host_buffer Hs1) as Hlo.
  cbn [executeRun_init this deref_host] in Hli, Hlo.
  pose proof (body_test _ _ _ _ Hspec) as Htest.
  cbn [executeRun_init this input_host_ptr output_host_ptr deref_host] in Htest.
  rewrite should_terminate_iteration_no_element in Htest
    by (rewrite Hli, Hlo; exact Hshort).
  destruct (body_runtimes _ _ _ _ Hspec) as [time Hrt].
  cbn [executeRun_init runtimes iteration app] in Hrt.
  destruct (body_calls _ _ _ _ Hspec) as (calls & Hlog & Hlaunch & _).
  cbn [executeRun_init this] in Hlog.
  destruct (loop_body_effect _ _ _ _ Hs1)
    as (mem' & start & end_ & Hk & Hmem & _ & Hread & _).
  cbn [executeRun_init this output_host_ptr output_mem_ptr deref_host
       deref_mem] in Hk, Hread.
  rewrite Hk in Hfits. cbn [fst] in Hfits.
  exists time, (this s1). split; [|split; [|split; [done|]]].
  - intros fuel. unfold executeRun. cbn [do_while].
    rewrite Hs1. cbn [mbind option_bind].
    injection Htest as <-. cbn [mbind option_bind]. by rewrite Hrt.
  - by rewrite (calls_since_app _ _ _ Hlog).
  - rewrite Hread. unfold mem_bytes. rewrite Hmem.
    by apply read_into_prefix.
Qed.

(** ** The trials of [benchmark] *)

Lemma getTime_raw_records run trial first times :
  getTime <$> raw_records run trial first times = times.
Proof.
  unfold raw_records. revert first.
  induction times as [|time times IH]; intros first; [done|].
  cbn [imap fmap list_fmap]. f_equal.
  rewrite <-(IH (first + 1)) at 2.
  f_equal. apply imap_ext. intros k x _. simpl. do 2 f_equal. lia.
Qed.

Lemma executeRun_log fuel run trial h recs h' :
  executeRun fuel run trial h = Some (recs, h') →
  ∃ times calls,
    (1 ≤ length times ≤ fuel)%nat
    ∧ recs = raw_records run trial 0 times
    ∧ cl_log (_cl h') = cl_log (_cl h) ++ calls
    ∧ launches calls = length times.
Proof.
  intros Hrun.
  destruct (executeRun_Some _ _ _ _ _ _ Hrun)
    as (k & sk & Hk & Hit & _ & _ & -> & ->).
  destruct (iterate_inv run trial h k sk Hit)
    as [(times & Hlen & Hrt) _ _ _ _ _ _ _ _ _ (calls & Hlog & Hla & _)].
  exists times, calls. rewrite Hlen. done.
Qed.

Lemma benchmark_loop_trials fuel run remaining : ∀ t h acc recs h',
  benchmark_loop fuel run remaining t h acc = Some (recs, h') →
  ∃ new calls,
    recs = acc ++ new
    ∧ length new = remaining
    ∧ (∀ (i : nat) trial_recs, new !! i = Some trial_recs →
         ∃ times, (1 ≤ length times ≤ fuel)%nat
                  ∧ trial_records run (t + Z.of_nat i) times trial_recs)
    ∧ cl_log (_cl h') = cl_log (_cl h) ++ calls
    ∧ launches calls = raw_count new.
Proof.
  induction remaining as [|remaining IH]; intros t h acc recs h'; simpl.
  - intros [= <- <-]. exists [], []. rewrite !app_nil_r. by repeat split.
  - destruct (executeRun fuel run t h) as [[rr h1]|] eqn:Hrun; [|done]. simpl.
    destruct (trial_stats run t rr) as [rr'|] eqn:Hstats; [|done]. simpl.
    intros Hloop.
    destruct (IH _ _ _ _ _ Hloop) as (new & calls & -> & Hlen & Hall & Hlog & Hla).
    destruct (executeRun_log _ _ _ _ _ _ Hrun)
      as (times & calls1 & Htimes & -> & Hlog1 & Hla1).
    destruct (resetInputs_effect h1)
      as (_ & _ & _ & _ & calls2 & Hlog2 & _ & Hla2).
    destruct (trial_stats_unfold run t (raw_records run t 0 times))
      as (m & Hm & Hstats'); [by rewrite length_raw_records; lia|].
    rewrite length_raw_records in Hm.
    rewrite Hstats, getTime_raw_records in Hstats'. injection Hstats' as ->.
    eexists (_ :: new), (calls1 ++ calls2 ++ calls).
    split; [by rewrite <-app_assoc|]. split; [simpl; by rewrite Hlen|].
    split; [|split].
    + intros [|i] trial_recs Hi.
      * injection Hi as <-. exists times. split; [done|].
        exists (merge_sort compare (raw_records run t 0 times)), m,
          (total times + getTime m).
        rewrite Z.add_0_r.
        split; [apply merge_sort_Permutation|].
        split; [apply (Sorted_merge_sort compare)|]. done.
      * destruct (Hall i trial_recs Hi) as (times' & Hlen' & Hrec).
        exists times'. split; [done|].
        by replace (t + Z.of_nat (S i)) with (t + 1 + Z.of_nat i) by lia.
    + by rewrite Hlog, Hlog2, Hlog1, <-!app_assoc.
    + rewrite !launches_app, Hla, Hla1, Hla2. unfold raw_count.
      cbn [fmap list_fmap sum_list sum_list_with].
      rewrite !length_app, merge_sort_Permutation, length_raw_records.
      simpl. lia.
Qed.

(** X11.  The trials of [benchmark].  When [benchmark] returns, the list
    it gives for trial [t] is built from a run of at least one pass: the
    raw records of that run, stamped with trial [t] and numbered from 0,
    in an order that is ascending by duration (records of equal duration
    in either order), then the median record, stamped with trial [t] and
    holding the duration at index [n/2] of that order, then the sum
    record, which carries no trial number and, as long as the addition
    stays within 64 bits, holds the total plus the median.  The kernel was
    launched once per raw record and at no other time, the resets between
    the trials included; and with no trial to run the harness is left
    untouched. *)
Theorem benchmark_trials (fuel : nat) (run : Run) (h : Harness)
    (recs : list (list SqlStat)) (h' : Harness) :
  benchmark fuel run h = Some (recs, h') →
  (∀ (t : nat) trial_recs, recs !! t = Some trial_recs →
     ∃ times, (1 ≤ length times ≤ fuel)%nat
              ∧ trial_records run (Z.of_nat t) times trial_recs)
  ∧ launches (calls_since h h') = raw_count recs
  ∧ (recs = [] → h' = h).
Proof.
  unfold benchmark. intros Hrun.
  destruct (benchmark_loop_trials _ _ _ _ _ _ _ _ Hrun)
    as (new & calls & -> & Hlen & Hall & Hlog & Hla).
  rewrite app_nil_l. split; [|split].
  - intros t trial_recs Ht. destruct (Hall t trial_recs Ht) as (times & ? & ?).
    exists times. by rewrite Z.add_0_l in *.
  - by rewrite (calls_since_app _ _ _ Hlog).
  - intros ->. simpl in Hlen. rewrite <-Hlen in Hrun. simpl in Hrun.
    by injection Hrun.
Qed.

(** ** The checker after a run *)

(** The checking loop reads nothing but the elements below [gold.size()]. *)
Lemma check_loop_ext gold res res' :
  (∀ i, 0 ≤ i < vsize gold → load_int res i = load_int res' i) →
  ∀ fuel i error_count log,
    0 ≤ i →
    check_loop fuel gold res i error_count log
    = check_loop fuel gold res' i error_count log.
Proof.
  intros Hext. induction fuel as [|fuel IH]; intros i ec log Hi; [done|].
  cbn [check_loop].
  destruct (Z.ltb_spec i (vsize gold)) as [Hlt|Hge]; [|done].
  rewrite (Hext i) by lia.
  assert (Hw : 0 ≤ wrap 32 (i + 1)).
  { unfold wrap. apply Z.mod_pos_bound. lia. }
  cbv zeta. rewrite !IH by done. done.
Qed.

Lemma iterate_lengths run trial n : ∀ s s' p,
  iterate n run trial s = Some s' →
  length (deref_host (_mem_manager (this s')) p)
  = length (deref_host (_mem_manager (this s)) p).
Proof.
  induction n as [|n IH]; intros s s' p; [by intros [= <-]|].
  cbn [iterate].
  destruct (iterate n run trial s) as [sn|] eqn:Hn; [|done].
  cbn [mbind option_bind]. intros Hbody.
  rewrite (loop_body_lengths _ _ _ _ p Hbody). by apply IH.
Qed.

(** X12.  The checker after a run.  [check_result] reads the output
    shadow, while the last download of a run goes to the input shadow
    when the number of passes is even.  When the two shadows have the same
    length, this makes no difference: after a run that returned, the
    checker gives the same verdict and logs the same lines on either
    shadow, for every gold vector. *)
Theorem check_result_either_shadow (fuel : nat) (run : Run) (trial : Z)
    (h : Harness) (recs : list SqlStat) (h' : Harness) (gold : list Z) :
  executeRun fuel run trial h = Some (recs, h') →
  length (_input_host_buffer (_mem_manager h))
  = length (_output_host_buffer (_mem_manager h)) →
  check_result (with_output_host (_input_host_buffer (_mem_manager h')) h')
    gold
  = check_result h' gold.
Proof.
  intros Hrun Hlen.
  destruct (executeRun_Some _ _ _ _ _ _ Hrun)
    as (k & sk & Hk & Hit & Hst & _ & _ & ->).
  destruct k as [|k]; [lia|].
  apply (iterate_should_terminate _ _ _ _ _ Hit) in Hst.
  pose proof (iterate_lengths _ _ _ _ _ ptr_input_host_buffer Hit) as Hli.
  pose proof (iterate_lengths _ _ _ _ _ ptr_output_host_buffer Hit) as Hlo.
  cbn [executeRun_init this deref_host] in Hli, Hlo.
  unfold shadows_agree, buffers_agree in Hst.
  set (inp := _input_host_buffer (_mem_manager (this sk))) in *.
  set (out := _output_host_buffer (_mem_manager (this sk))) in *.
  assert (Hsize : vsize inp = vsize out).
  { unfold vsize. congruence. }
  unfold check_result, with_output_host.
  cbn [_mem_manager set_mem_manager store_host _output_host_buffer].
  fold out. rewrite Hsize.
  destruct (vsize gold =? 0); [done|].
  destruct (Z.ltb_spec (wrap 32 (vsize out * 1 / 4)) (vsize gold))
    as [Hshort|Hfits]; [done|].
  rewrite (check_loop_ext gold inp out); [done| |lia].
  intros i Hi. apply Hst. rewrite Hsize, Z.min_id.
  assert (wrap 32 (vsize out * 1 / 4) ≤ vsize out / 4); [|lia].
  unfold wrap. rewrite Z.mul_1_r.
  apply Z.mod_le; [apply vsize_div_nonneg|lia].
Qed.

(** ** [lowerTimeout] *)

Lemma lowerTimeout_timeout t h :
  _timeout (lowerTimeout t h) = Z.min (_timeout h) (doubled_ms t).
Proof.
  unfold lowerTimeout, doubled_ms.
  destruct (Z.ltb_spec (Z.quot t 1000000 * 2) (_timeout h)); simpl; lia.
Qed.

Lemma lowerTimeout_frame t h :
  lowerTimeout t h = set_config (_trials h) (_timeout (lowerTimeout t h))
                       (_delta h) h.
Proof.
  unfold lowerTimeout.
  destruct (Z.ltb_spec (Z.quot t 1000000 * 2) (_timeout h)); [done|].
  by destruct h.
Qed.

Lemma lowerTimeout_set_config t h a b c :
  set_config a b c (lowerTimeout t h) = set_config a b c h
  ∧ _trials (lowerTimeout t h) = _trials h
  ∧ _delta (lowerTimeout t h) = _delta h.
Proof.
  unfold lowerTimeout.
  destruct (Z.quot t 1000000 * 2 <? _timeout h); by destruct h.
Qed.

Lemma lowerTimeout_foldl times : ∀ h,
  foldl (λ h t, lowerTimeout t h) h times
  = set_config (_trials h)
      (foldl Z.min (_timeout h) (doubled_ms <$> times)) (_delta h) h.
Proof.
  induction times as [|t times IH]; intros h; [by destruct h|].
  cbn [foldl fmap list_fmap]. rewrite IH, lowerTimeout_timeout.
  destruct (lowerTimeout_set_config t h (_trials (lowerTimeout t h))
    (foldl Z.min (Z.min (_timeout h) (doubled_ms t)) (doubled_ms <$> times))
    (_delta (lowerTimeout t h))) as (-> & -> & ->).
  done.
Qed.

Lemma foldl_min_le (l : list Z) : ∀ a,
  foldl Z.min a l ≤ a ∧ Forall (λ x, foldl Z.min a l ≤ x) l
  ∧ (foldl Z.min a l = a ∨ foldl Z.min a l ∈ l).
Proof.
  induction l as [|x l IH]; intros a; simpl.
  - split; [lia|]. split; [constructor|by left].
  - destruct (IH (Z.min a x)) as (Hle & Hall & Hin).
    split; [lia|]. split.
    + constructor; [lia|done].
    + destruct Hin as [Hin|Hin].
      * destruct (Z.min_spec a x) as [[_ Hm]|[_ Hm]]; rewrite Hin, Hm.
        -- by left.
        -- right. apply list_elem_of_here.
      * right. by apply list_elem_of_further.
Qed.

Lemma foldl_min_Permutation (l l' : list Z) :
  l ≡ₚ l' → ∀ a, foldl Z.min a l = foldl Z.min a l'.
Proof.
  induction 1 as [|x l l' _ IH|x y l|l1 l2 l3 _ IH1 _ IH2]; intros a; simpl.
  - done.
  - apply IH.
  - f_equal. lia.
  - by rewrite IH1.
Qed.

(** X13.  [lowerTimeout] over a sequence of measurements.  The timeout
    ends as the least of its old value and twice each measurement in whole
    milliseconds (truncated): it never rises, it is one of these values,
    the order of the measurements does not matter, and nothing else in the
    harness changes.  A measurement of less than a millisecond truncates
    to zero, so it brings any positive timeout down to 0. *)
Theorem lowerTimeout_lowest (times : list Z) (h : Harness) :
  let h' := foldl (λ h t, lowerTimeout t h) h times in
  _timeout h' ≤ _timeout h
  ∧ (∀ t, t ∈ times → _timeout h' ≤ Z.quot t 1000000 * 2)
  ∧ (_timeout h' = _timeout h
     ∨ ∃ t, t ∈ times ∧ _timeout h' = Z.quot t 1000000 * 2)
  ∧ (∀ times', times' ≡ₚ times →
       foldl (λ h t, lowerTimeout t h) h times' = h')
  ∧ (∀ t, t ∈ times → 0 ≤ t < 1000000 → _timeout h' ≤ 0)
  ∧ h' = set_config (_trials h) (_timeout h') (_delta h) h.
Proof.
  intros h'. subst h'. rewrite lowerTimeout_foldl.
  cbn [_timeout set_config].
  destruct (foldl_min_le (doubled_ms <$> times) (_timeout h))
    as (Hle & Hall & Hin).
  assert (Hbelow : ∀ t, t ∈ times →
            foldl Z.min (_timeout h) (doubled_ms <$> times)
            ≤ Z.quot t 1000000 * 2).
  { intros t Ht. rewrite Forall_forall in Hall.
    apply (Hall (doubled_ms t)). by apply list_elem_of_fmap_2. }
  split; [done|]. split; [done|]. split; [|split; [|split]].
  - destruct Hin as [Hin|Hin]; [by left|right].
    apply list_elem_of_fmap in Hin as (t & Heq & Ht). by exists t.
  - intros times' Hperm. rewrite lowerTimeout_foldl. f_equal.
    apply foldl_min_Permutation. by rewrite Hperm.
  - intros t Ht Hsmall. etrans; [apply (Hbelow t Ht)|].
    rewrite Z.quot_small by lia. lia.
  - done.
Qed.

(** ** What [benchmark] leaves in place *)

Lemma handles_same mm mm' : same_handles mm mm' → handles mm' = handles mm.
Proof. intros []. unfold handles. congruence. Qed.

Lemma benchmark_loop_restores fuel run remaining : ∀ t h acc recs h',
  benchmark_loop fuel run remaining t h acc = Some (recs, h') →
  kernel_args (_cl h) !! 2%nat = Some (GlobalArg (_x_vect (_mem_manager h))) →
  kernel_args (_cl h) !! 3%nat = Some (GlobalArg (_y_vect (_mem_manager h))) →
  kernel_args (_cl h) !! 6%nat = Some (GlobalArg (_output (_mem_manager h))) →
  _input_idx (_mem_manager h) ∈ [2; 3; 6]%nat →
  _output_idx (_mem_manager h) ∈ [2; 3; 6]%nat →
  kernel_args (_cl h') = kernel_args (_cl h)
  ∧ same_handles (_mem_manager h) (_mem_manager h')
  ∧ _args h' = _args h
  ∧ ((1 ≤ remaining)%nat →
     ∃ h1, h' = resetInputs h1
           ∧ same_handles (_mem_manager h) (_mem_manager h1)
           ∧ _args h1 = _args h).
Proof.
  induction remaining as [|remaining IH]; intros t h acc recs h'; simpl.
  - intros [= <- <-] _ _ _ _ _.
    split; [done|]. split; [apply same_handles_refl|]. split; [done|lia].
  - destruct (executeRun fuel run t h) as [[rr h1]|] eqn:Hrun; [|done]. simpl.
    destruct (trial_stats run t rr) as [rr'|] eqn:Hstats; [|done]. simpl.
    intros Hloop H2 H3 H6 Hin Hout.
    destruct (executeRun_Some _ _ _ _ _ _ Hrun)
      as (k & sk & Hk & Hit & _ & _ & _ & ->).
    destruct (iterate_frame run t h k sk Hit) as (Hh & Ha & _ & _ & Hslots).
    destruct (resetInputs_effect (this sk)) as (Hmm & _ & Ha' & _).
    pose proof (reset_restores_table h (this sk) Hh Hslots H2 H3 H6 Hin Hout)
      as Hargs.
    pose proof Hh as [_ _ Hx Hy Ho _ Hii Hoi].
    destruct (IH _ _ _ _ _ Hloop) as (Hargs' & Hh' & Ha'' & Hlast).
    { by rewrite Hargs, Hmm, Hx. }
    { by rewrite Hargs, Hmm, Hy. }
    { by rewrite Hargs, Hmm, Ho. }
    { by rewrite Hmm, Hii. }
    { by rewrite Hmm, Hoi. }
    rewrite Hmm in Hh'.
    split; [congruence|].
    split; [by eapply same_handles_trans|]. split; [congruence|].
    intros _. destruct remaining as [|remaining].
    + simpl in Hloop. injection Hloop as _ <-. by exists (this sk).
    + destruct Hlast as (h1 & -> & Hh1 & Ha1); [lia|].
      rewrite Hmm in Hh1. exists h1. split; [done|].
      split; [exact (same_handles_trans _ _ _ Hh Hh1)|congruence].
Qed.

(** X14.  [benchmark] leaves the harness ready for the next call.  On a
    harness laid out as [allocateBuffers] leaves it (slots 2, 3 and 6 hold
    the x vector, the y vector and the output buffer; [_input_idx] and
    [_output_idx] are among 2, 3 and 6; the buffers are pairwise distinct),
    when [benchmark] returns the argument table, the handles and [_args]
    are as on entry; and after at least one trial the matrix buffers and
    the x and y vectors start with the vectors of [_args] again, the
    output buffer starts with [_args.output] zero bytes and temporary
    buffer [j] with [_args.temp_globals[j]] zero bytes, whatever the kernel
    wrote. *)
Theorem benchmark_restores (fuel : nat) (run : Run) (h : Harness)
    (recs : list (list SqlStat)) (h' : Harness) :
  benchmark fuel run h = Some (recs, h') →
  kernel_args (_cl h) !! 2%nat = Some (GlobalArg (_x_vect (_mem_manager h))) →
  kernel_args (_cl h) !! 3%nat = Some (GlobalArg (_y_vect (_mem_manager h))) →
  kernel_args (_cl h) !! 6%nat = Some (GlobalArg (_output (_mem_manager h))) →
  _input_idx (_mem_manager h) ∈ [2; 3; 6]%nat →
  _output_idx (_mem_manager h) ∈ [2; 3; 6]%nat →
  NoDup (handles (_mem_manager h)) →
  let mm := _mem_manager h in
  let args := _args h in
  let new := mem_bytes (_cl h') in
  kernel_args (_cl h') = kernel_args (_cl h)
  ∧ same_handles mm (_mem_manager h')
  ∧ _args h' = args
  ∧ (recs ≠ [] →
     take (length (m_idxs args)) (new (_matrix_idxs mm)) = m_idxs args
     ∧ take (length (m_vals args)) (new (_matrix_vals mm)) = m_vals args
     ∧ take (length (x_vect args)) (new (_x_vect mm)) = x_vect args
     ∧ take (length (y_vect args)) (new (_y_vect mm)) = y_vect args
     ∧ take (output args) (new (_output mm)) = replicate (output args) x00
     ∧ ∀ j m, _temp_global mm !! j = Some m →
         take (nth j (temp_globals args) 0%nat) (new m)
         = replicate (nth j (temp_globals args) 0%nat) x00).
Proof.
  intros Hrun H2 H3 H6 Hin Hout Hnd mm args new.
  subst mm args new. unfold benchmark in Hrun.
  destruct (benchmark_loop_restores _ _ _ _ _ _ _ _ Hrun H2 H3 H6 Hin Hout)
    as (Hargs & Hh & Ha & Hlast).
  do 3 (split; [done|]). intros Hne.
  destruct (benchmark_loop_not_checked _ _ _ _ _ _ _ _ Hrun) as [Hlen _].
  destruct Hlast as (h1 & -> & Hh1 & Ha1).
  { destruct recs; [done|]. simpl in Hlen. lia. }
  pose proof Hh1 as [Hi Hv Hx Hy Ho Ht _ _].
  rewrite <-(handles_same _ _ Hh1) in Hnd.
  destruct (resetInputs_contents h1 Hnd) as (Ci & Cv & Cx & Cy & Co).
  rewrite Hi, Ha1 in Ci. rewrite Hv, Ha1 in Cv. rewrite Hx, Ha1 in Cx.
  rewrite Hy, Ha1 in Cy. rewrite Ho, Ha1 in Co.
  rewrite Ci, Cv, Cx, Cy, Co.
  rewrite !take_app_length.
  do 4 (split; [done|]).
  split; [by rewrite take_app_length' by (by rewrite length_replicate)|].
  intros j m Hj. rewrite <-Ha1. apply resetInputs_temps. by rewrite Ht.
Qed.

(** ** The first test after a reset *)

Lemma first_pass_decides run trial h0 s1 :
  loop_body run trial (executeRun_init h0) = Some s1 →
  _input_host_buffer (_mem_manager (this s1))
  = _input_host_buffer (_mem_manager h0)
  ∧ (should_terminate s1 = true
     ↔ buffers_agree (_input_host_buffer (_mem_manager h0))
         (_output_host_buffer (_mem_manager (this s1))))
  ∧ (should_terminate s1 = true →
     ∀ fuel, executeRun (S fuel) run trial h0 = Some (runtimes s1, this s1))
  ∧ (should_terminate s1 = false → executeRun 1 run trial h0 = None).
Proof.
  intros Hbody.
  pose proof (loop_body_spec _ _ _ _ Hbody) as Hspec.
  pose proof (body_input_shadow _ _ _ _ Hspec) as Hin.
  pose proof (body_test _ _ _ _ Hspec) as Htest.
  cbn [executeRun_init this input_host_ptr output_host_ptr deref_host]
    in Hin, Htest.
  specialize (Hin ltac:(done)).
  split; [exact Hin|]. split; [|split].
  - apply should_terminate_iteration_sound in Htest.
    by rewrite Hin in Htest.
  - intros Hst fuel. unfold executeRun. cbn [do_while].
    rewrite Hbody. cbn [mbind option_bind]. by rewrite Hst.
  - intros Hst. unfold executeRun. cbn [do_while].
    rewrite Hbody. cbn [mbind option_bind]. by rewrite Hst.
Qed.

(** X15.  The first test after a reset reads the shadow of the previous
    run.  [resetInputs] resets the device, not the host: in the first pass
    after it the input shadow is still what the harness held before the
    reset, the pass does not write to it, and the termination test is true
    if and only if the output just downloaded agrees with that old input
    shadow.  If it does, the run returns after this single pass; so the
    number of passes of a trial depends on what the trial before left in
    the shadow. *)
Theorem first_test_after_reset (run : Run) (trial : Z) (h : Harness)
    (s1 : Locals) :
  loop_body run trial (executeRun_init (resetInputs h)) = Some s1 →
  _input_host_buffer (_mem_manager (this s1))
  = _input_host_buffer (_mem_manager h)
  ∧ (should_terminate s1 = true
     ↔ buffers_agree (_input_host_buffer (_mem_manager h))
         (_output_host_buffer (_mem_manager (this s1))))
  ∧ (should_terminate s1 = true →
     ∀ fuel, executeRun (S fuel) run trial (resetInputs h)
             = Some (runtimes s1, this s1))
  ∧ (should_terminate s1 = false →
     executeRun 1 run trial (resetInputs h) = None).
Proof.
  intros Hbody.
  destruct (first_pass_decides run trial (resetInputs h) s1 Hbody)
    as (Hin & Htest & Hret & Hnot).
  destruct (resetInputs_effect h) as (Hmm & _).
  rewrite Hmm in Hin, Htest.
  split; [exact Hin|]. split; [exact Htest|]. split; [exact Hret|exact Hnot].
Qed.

(** ** Convergence at the fixed point of the kernel *)

(** On vectors of whole elements and of one length, agreement of the
    elements is equality of the bytes. *)
Lemma buffers_agree_eq a b :
  length a = length b → vsize a mod 4 = 0 →
  buffers_agree a b ↔ a = b.
Proof.
  intros Hlen Hmod. split; [|by intros -> i _].
  intros Hagree. apply (nth_ext a b x00 x00 Hlen). intros n Hn.
  assert (Hsize : vsize b = vsize a) by (unfold vsize; lia).
  assert (Hq : vsize a = 4 * (vsize a / 4))
    by (rewrite (Z.div_mod (vsize a) 4) at 1 by lia; lia).
  pose proof (Z.div_mod (Z.of_nat n) 4 ltac:(lia)) as Hdm.
  pose proof (Z.mod_pos_bound (Z.of_nat n) 4 ltac:(lia)) as Hr.
  set (i := Z.of_nat n / 4) in *. set (r := Z.of_nat n mod 4) in *.
  assert (Hi : 0 ≤ i < Z.min (vsize a / 4) (vsize b / 4)).
  { rewrite Hsize. unfold vsize in *. lia. }
  pose proof (proj1 (load_int_eq_bytes a b i i) (Hagree i Hi)) as Hbytes.
  unfold elem_bytes, byte_at in Hbytes.
  injection Hbytes as H0 H1 H2 H3.
  assert (Hcase : r = 0 ∨ r = 1 ∨ r = 2 ∨ r = 3) by lia.
  destruct Hcase as [Hc | [Hc | [Hc | Hc]]].
  - replace n with (Z.to_nat (4 * i)) by lia. exact H0.
  - replace n with (Z.to_nat (4 * i + 1)) by lia. exact H1.
  - replace n with (Z.to_nat (4 * i + 2)) by lia. exact H2.
  - replace n with (Z.to_nat (4 * i + 3)) by lia. exact H3.
Qed.

(** One pass from a state in which the input shadow holds what the input
    buffer holds: the test compares what the kernel read with what it
    wrote, and the next state is of the same kind. *)
Lemma mirror_step run trial h s s' :
  _x_vect (_mem_manager h) ∉ _temp_global (_mem_manager h) →
  _output (_mem_manager h) ∉ _temp_global (_mem_manager h) →
  mirror_inv h s →
  loop_body run trial s = Some s' →
  length (kernel_output s s') = length (_input_host_buffer (_mem_manager h)) →
  mirror_inv h s'
  ∧ length (kernel_input s) = length (_input_host_buffer (_mem_manager h))
  ∧ (should_terminate s' = true
     ↔ buffers_agree (kernel_input s) (kernel_output s s')).
Proof.
  intros Hx Ho [Hin Hlin Hlout Hh Hptr] Hbody Hlen.
  destruct (loop_body_effect _ _ _ _ Hbody)
    as (mem' & start & end_ & _ & Hmem & _ & Hread & _ & Hsame & _).
  pose proof (loop_body_spec _ _ _ _ Hbody) as Hspec.
  assert (Hout : kernel_output s s'
                 = default [] (mem' !! deref_mem (_mem_manager (this s))
                                         (output_mem_ptr s))).
  { unfold kernel_output, mem_bytes. by rewrite Hmem. }
  rewrite <-Hout in Hread.
  rewrite read_into_same_length in Hread by (by rewrite Hlen, Hlout).
  assert (Hderef : ∀ p, deref_mem (_mem_manager (this s')) p
                        = deref_mem (_mem_manager (this s)) p).
  { intros []; cbn [deref_mem];
      [apply (same_x_vect _ _ Hsame)|apply (same_output _ _ Hsame)]. }
  assert (Hkin : kernel_input s
                 = deref_host (_mem_manager (this s)) (input_host_ptr s)).
  { rewrite Hin. unfold kernel_input, resetTempBuffers.
    apply resetTempBuffers_loop_other.
    rewrite (same_temp_global _ _ Hh).
    destruct (input_mem_ptr s); cbn [deref_mem];
      [by rewrite (same_x_vect _ _ Hh)|by rewrite (same_output _ _ Hh)]. }
  split; [|split].
  - constructor.
    + rewrite (body_input_host _ _ _ _ Hspec), (body_input_mem _ _ _ _ Hspec).
      rewrite Hread, Hderef. reflexivity.
    + rewrite (body_input_host _ _ _ _ Hspec).
      rewrite (loop_body_lengths _ _ _ _ _ Hbody). exact Hlout.
    + rewrite (body_output_host _ _ _ _ Hspec).
      rewrite (loop_body_lengths _ _ _ _ _ Hbody). exact Hlin.
    + exact (same_handles_trans _ _ _ Hh Hsame).
    + rewrite (body_input_host _ _ _ _ Hspec),
        (body_output_host _ _ _ _ Hspec). congruence.
  - by rewrite Hkin.
  - pose proof (body_test _ _ _ _ Hspec) as Htest.
    rewrite (body_input_shadow _ _ _ _ Hspec Hptr), Hread, <-Hkin in Htest.
    exact (should_terminate_iteration_sound _ _ _ _ Htest).
Qed.

Lemma iterate_S_inv n run trial s0 s' :
  iterate (S n) run trial s0 = Some s' →
  ∃ s, iterate n run trial s0 = Some s ∧ loop_body run trial s = Some s'.
Proof.
  cbn [iterate]. destruct (iterate n run trial s0) as [s|]; [|done].
  intros H. by exists s.
Qed.

(** The states reached from an entry in which the input shadow holds the
    input vector, as long as the kernel leaves the output vector at its
    size. *)
Lemma mirror_iterate run trial h k :
  _x_vect (_mem_manager h) ∉ _temp_global (_mem_manager h) →
  _output (_mem_manager h) ∉ _temp_global (_mem_manager h) →
  _input_host_buffer (_mem_manager h) = mem_bytes (_cl h) (_x_vect (_mem_manager h)) →
  length (_output_host_buffer (_mem_manager h))
  = length (_input_host_buffer (_mem_manager h)) →
  (∀ n s s', (n < k)%nat →
             iterate n run trial (executeRun_init h) = Some s →
             loop_body run trial s = Some s' →
             length (kernel_output s s')
             = length (_input_host_buffer (_mem_manager h))) →
  ∀ n s, (n ≤ k)%nat →
         iterate n run trial (executeRun_init h) = Some s →
         mirror_inv h s.
Proof.
  intros Hx Ho Hentry Hlen Hsize n. induction n as [|n IH]; intros s Hn Hit.
  - cbn [iterate] in Hit. injection Hit as <-.
    constructor; cbn [executeRun_init this input_host_ptr output_host_ptr
                      input_mem_ptr deref_host deref_mem];
      [exact Hentry|reflexivity|exact Hlen|apply same_handles_refl|
       discriminate].
  - destruct (iterate_S_inv _ _ _ _ _ Hit) as (s0 & Hit0 & Hbody).
    assert (Hinv : mirror_inv h s0) by (apply IH; [lia|exact Hit0]).
    apply (mirror_step run trial h s0 s Hx Ho Hinv Hbody).
    apply (Hsize n s0 s); [lia|exact Hit0|exact Hbody].
Qed.

(** X16.  Convergence at the fixed point of the kernel, for a run entered
    with the input shadow holding the input vector.  Let the two shadows
    have the length of the input vector, a whole number of elements, let
    the two vector buffers not be among the temporary buffers, and let the
    kernel leave its output vector at that length.  If pass [k >= 1] is
    the first pass in which the output of the kernel equals its input,
    byte for byte, then [executeRun] returns at pass [k]: with [k] passes
    or more it returns exactly [k] raw records, numbered [0 .. k-1], and
    with fewer it has not returned. *)
Theorem executeRun_fixed_point (run : Run) (trial : Z) (h : Harness)
    (k : nat) :
  _input_host_buffer (_mem_manager h)
  = mem_bytes (_cl h) (_x_vect (_mem_manager h)) →
  length (_output_host_buffer (_mem_manager h))
  = length (_input_host_buffer (_mem_manager h)) →
  vsize (_input_host_buffer (_mem_manager h)) mod 4 = 0 →
  _x_vect (_mem_manager h) ∉ _temp_global (_mem_manager h) →
  _output (_mem_manager h) ∉ _temp_global (_mem_manager h) →
  (∀ n s s', (n < k)%nat →
             iterate n run trial (executeRun_init h) = Some s →
             loop_body run trial s = Some s' →
             length (kernel_output s s')
             = length (_input_host_buffer (_mem_manager h))) →
  fixed_point_at run trial h k →
  ∃ times h',
    length times = k
    ∧ (∀ fuel, (k ≤ fuel)%nat →
         executeRun fuel run trial h
         = Some (raw_records run trial 0 times, h'))
    ∧ (∀ fuel, (fuel < k)%nat → executeRun fuel run trial h = None).
Proof.
  intros Hentry Hlen Hmod Hx Ho Hsize (Hk & [sk Hsk] & Hfix).
  assert (Hflag : ∀ n s', (n < k)%nat →
            iterate (S n) run trial (executeRun_init h) = Some s' →
            (should_terminate s' = true ↔ S n = k)).
  { intros n s' Hn Hit.
    destruct (iterate_S_inv _ _ _ _ _ Hit) as (s & Hit0 & Hbody).
    pose proof (mirror_iterate run trial h k Hx Ho Hentry Hlen Hsize n s
                  ltac:(lia) Hit0) as Hinv.
    pose proof (Hsize n s s' Hn Hit0 Hbody) as Hl.
    destruct (mirror_step run trial h s s' Hx Ho Hinv Hbody Hl)
      as (_ & Hlin & Htest).
    assert (Hsame : length (kernel_input s) = length (kernel_output s s'))
      by (by rewrite Hlin, Hl).
    assert (Hwhole : vsize (kernel_input s) mod 4 = 0)
      by (unfold vsize in *; by rewrite Hlin).
    rewrite Htest, <-(Hfix n s s' Hn Hit0 Hbody).
    rewrite (buffers_agree_eq _ _ Hsame Hwhole). split; by intros ->. }
  destruct (iterate_inv _ _ _ _ _ Hsk)
    as [(times & Htimes & Hrec) _ _ _ _ _ _ _ _ _ _].
  exists times, (this sk). split; [exact Htimes|].
  assert (Hat : ∀ fuel, executeRun fuel run trial h
                = if decide (k ≤ fuel)%nat
                  then Some (runtimes sk, this sk) else None).
  { intros fuel. apply executeRun_at; [exact Hk|exact Hsk| |].
    - destruct k as [|k]; [lia|].
      by apply (Hflag k sk ltac:(lia) Hsk).
    - intros j sj Hj Hsj. destruct j as [|j]; [lia|].
      apply not_true_is_false. intros Hst.
      pose proof (proj1 (Hflag j sj ltac:(lia) Hsj) Hst). lia. }
  split; intros fuel Hfuel; rewrite Hat; case_decide; (lia || congruence).
Qed.

(** ** The further properties at concrete inputs *)

Lemma upload_download_round_trip_witness :
  (length (replicate 8 x01)
   ≤ length (mem_bytes (_cl (example_harness 3 1)) 5%nat))%nat
  ∧ (length (deref_host (_mem_manager (example_harness 3 1))
               ptr_output_host_buffer)
     ≤ length (replicate 8 x01))%nat
  ∧ deref_host
      (_mem_manager
         (readFromGlobalArg ptr_output_host_buffer 5%nat
            (writeToGlobalArg (replicate 8 x01) 5%nat (example_harness 3 1))))
      ptr_output_host_buffer
    = replicate 8 x01.
Proof.
  assert (H1 : (length (replicate 8 x01)
                ≤ length (mem_bytes (_cl (example_harness 3 1)) 5%nat))%nat)
    by (vm_compute; lia).
  assert (H2 : (length (deref_host (_mem_manager (example_harness 3 1))
                          ptr_output_host_buffer)
                ≤ length (replicate 8 x01))%nat)
    by (vm_compute; lia).
  split; [exact H1|]. split; [exact H2|].
  destruct (upload_download_round_trip ptr_output_host_buffer 5%nat
              (replicate 8 x01) (example_harness 3 1) H1 H2)
    as (_ & Heq & _).
  apply Heq. vm_compute. reflexivity.
Defined.

Lemma executeKernel_elapsed_witness :
  _kernel (example_harness 3 1) example_run
    (kernel_args (_cl (example_harness 3 1)))
    (dev_mem (_cl (example_harness 3 1)))
  = (dev_mem (_cl (executeKernel example_run (example_harness 3 1)).2),
     (1000, 1005))
  ∧ (executeKernel example_run (example_harness 3 1)).1 = 5.
Proof.
  assert (Hk : _kernel (example_harness 3 1) example_run
                 (kernel_args (_cl (example_harness 3 1)))
                 (dev_mem (_cl (example_harness 3 1)))
               = (dev_mem
                    (_cl (executeKernel example_run (example_harness 3 1)).2),
                  (1000, 1005)))
    by (vm_compute; reflexivity).
  split; [exact Hk|].
  destruct (executeKernel_elapsed example_run (example_harness 3 1) _ 1000 1005
              Hk ltac:(lia) ltac:(lia))
    as (time & h' & -> & Htime & _).
  apply Htime. lia.
Defined.

Lemma resetInputs_device_witness :
  NoDup (handles (_mem_manager (example_result 3 10).2))
  ∧ length (mem_bytes (_cl (example_result 3 10).2)
              (_x_vect (_mem_manager (example_result 3 10).2)))
    = length (x_vect (_args (example_result 3 10).2))
  ∧ mem_bytes (_cl (example_result 3 10).2)
      (_x_vect (_mem_manager (example_result 3 10).2))
    ≠ x_vect (_args (example_result 3 10).2)
  ∧ mem_bytes (_cl (resetInputs (example_result 3 10).2))
      (_x_vect (_mem_manager (example_result 3 10).2))
    = x_vect (_args (example_result 3 10).2).
Proof.
  assert (Hh : handles (_mem_manager (example_result 3 10).2) = seq 1 6)
    by (vm_compute; reflexivity).
  assert (Hnd : NoDup (handles (_mem_manager (example_result 3 10).2))).
  { rewrite Hh. apply NoDup_seq. }
  assert (Hlen : length (mem_bytes (_cl (example_result 3 10).2)
                           (_x_vect (_mem_manager (example_result 3 10).2)))
                 = length (x_vect (_args (example_result 3 10).2)))
    by (vm_compute; reflexivity).
  split; [exact Hnd|]. split; [exact Hlen|].
  split; [intros Hsame; vm_compute in Hsame; discriminate Hsame|].
  destruct (resetInputs_device (example_result 3 10).2 Hnd)
    as (_ & _ & _ & _ & _ & _ & _ & Hx & _).
  exact (Hx Hlen).
Defined.

Lemma loop_body_device_witness :
  loop_body example_run 0 example_entry = Some (example_pass 3 1)
  ∧ take
      (length (deref_host (_mem_manager (this example_entry))
                 (output_host_ptr example_entry)))
      (_temp_out_buffer (_mem_manager (this (example_pass 3 1))))
    = deref_host (_mem_manager (this example_entry))
        (output_host_ptr example_entry)
  ∧ next_mem (_cl (this (example_pass 3 1)))
    = next_mem (_cl (this example_entry)).
Proof.
  assert (H : loop_body example_run 0 example_entry
              = Some (example_pass 3 1)) by (vm_compute; reflexivity).
  split; [exact H|].
  destruct (loop_body_device example_run 0 example_entry (example_pass 3 1) H)
    as (mem' & start & end_ & record & _ & _ & _ & _ & _ & _ & Hsnap & _
        & Hnext).
  split; [exact Hsnap|exact Hnext].
Defined.

Lemma resetInputs_after_executeRun_witness :
  executeRun 10 example_run 0 (example_harness 3 1)
  = Some ((example_result 3 10).1, (example_result 3 10).2)
  ∧ _input_idx (_mem_manager (example_harness 3 1)) = 2%nat
  ∧ _output_idx (_mem_manager (example_harness 3 1)) = 6%nat
  ∧ kernel_args (_cl (example_result 3 10).2)
    ≠ kernel_args (_cl (example_harness 3 1))
  ∧ kernel_args (_cl (resetInputs (example_result 3 10).2))
    = kernel_args (_cl (example_harness 3 1)).
Proof.
  assert (Hrun : executeRun 10 example_run 0 (example_harness 3 1)
                 = Some ((example_result 3 10).1, (example_result 3 10).2))
    by (vm_compute; reflexivity).
  assert (Hi : _input_idx (_mem_manager (example_harness 3 1)) = 2%nat)
    by (vm_compute; reflexivity).
  assert (Ho : _output_idx (_mem_manager (example_harness 3 1)) = 6%nat)
    by (vm_compute; reflexivity).
  split; [exact Hrun|]. split; [exact Hi|]. split; [exact Ho|].
  split.
  { intros Heq.
    assert (H3 : kernel_args (_cl (example_result 3 10).2) !! 3%nat
                 = Some (GlobalArg 3%nat)) by (vm_compute; reflexivity).
    assert (H3' : kernel_args (_cl (example_harness 3 1)) !! 3%nat
                  = Some (GlobalArg 4%nat)) by (vm_compute; reflexivity).
    rewrite Heq, H3' in H3. discriminate H3. }
  destruct (resetInputs_after_executeRun 10 example_run 0
              (example_harness 3 1) (example_result 3 10).1
              (example_result 3 10).2 Hrun)
    as (Hargs & _).
  - vm_compute. reflexivity.
  - vm_compute. reflexivity.
  - vm_compute. reflexivity.
  - rewrite Hi. repeat constructor.
  - rewrite Ho. repeat constructor.
  - exact Hargs.
Defined.

Lemma allocateBuffers_layout_witness :
  length (_temp_global (_mem_manager example_unallocated))
  = length (temp_globals (_args example_unallocated))
  ∧ handles (_mem_manager (allocateBuffers example_unallocated))
    = seq (next_mem (_cl example_unallocated))
        (5 + length (temp_globals (_args example_unallocated)))
  ∧ NoDup (handles (_mem_manager (allocateBuffers example_unallocated)))
  ∧ _output_idx (_mem_manager (allocateBuffers example_unallocated)) = 6%nat.
Proof.
  assert (H : length (_temp_global (_mem_manager example_unallocated))
              = length (temp_globals (_args example_unallocated)))
    by reflexivity.
  split; [exact H|].
  destruct (allocateBuffers_layout example_unallocated H)
    as (Hh & Hnd & Hoi & _).
  split; [exact Hh|]. split; [exact Hnd|exact Hoi].
Defined.

Lemma vsize_huge_buffer : vsize huge_buffer = 2 ^ 34.
Proof.
  unfold vsize, huge_buffer. rewrite length_replicate. apply Z2Nat.id. lia.
Qed.

Lemma should_terminate_iteration_wraps_witness :
  2 ^ 32 ≤ Z.min (vsize huge_buffer / 4) (vsize huge_buffer / 4)
  ∧ (should_terminate_iteration (example_harness 3 1) huge_buffer huge_buffer
     = Some false
     ↔ ∃ j, 0 ≤ j < 2 ^ 32
            ∧ load_int huge_buffer j ≠ load_int huge_buffer j)
  ∧ (should_terminate_iteration (example_harness 3 1) huge_buffer huge_buffer
     = None
     ↔ ∀ j, 0 ≤ j < 2 ^ 32 → load_int huge_buffer j = load_int huge_buffer j)
  ∧ should_terminate_iteration (example_harness 3 1) huge_buffer huge_buffer
    ≠ Some true
  ∧ (should_terminate_iteration (example_harness 3 1) huge_buffer huge_buffer
     = None →
     ∀ fuel, sti_loop fuel huge_buffer huge_buffer (vsize huge_buffer / 4)
               (vsize huge_buffer / 4) true 0 = None).
Proof.
  assert (Hbig : 2 ^ 32 ≤ Z.min (vsize huge_buffer / 4) (vsize huge_buffer / 4)).
  { rewrite vsize_huge_buffer. vm_compute. discriminate. }
  split; [exact Hbig|].
  exact (should_terminate_iteration_wraps (example_harness 3 1) huge_buffer
           huge_buffer Hbig).
Defined.

Lemma executeRun_no_element_witness :
  (1 ≤ length (_output_host_buffer (_mem_manager short_shadow_harness)))%nat
  ∧ (length (_output_host_buffer (_mem_manager short_shadow_harness))
     ≤ length
         (default []
            ((_kernel short_shadow_harness example_run
                (kernel_args (_cl short_shadow_harness))
                (dev_mem (_cl (resetTempBuffers short_shadow_harness)))).1
             !! _output (_mem_manager short_shadow_harness))))%nat
  ∧ ((length (_input_host_buffer (_mem_manager short_shadow_harness)) < 4)%nat
     ∨ (length (_output_host_buffer (_mem_manager short_shadow_harness))
        < 4)%nat)
  ∧ ∃ time h',
      (∀ fuel, executeRun (S fuel) example_run 0 short_shadow_harness
               = Some ([mkSqlStat time NOT_CHECKED (global1 example_run)
                          (local1 example_run) RAW_RESULT (Some 0) (Some 0)],
                       h'))
      ∧ launches (calls_since short_shadow_harness h') = 1%nat
      ∧ length (_input_host_buffer (_mem_manager h'))
        = length (_input_host_buffer (_mem_manager short_shadow_harness))
      ∧ _output_host_buffer (_mem_manager h')
        = take
            (length (_output_host_buffer (_mem_manager short_shadow_harness)))
            (mem_bytes (_cl h') (_output (_mem_manager short_shadow_harness))).
Proof.
  assert (H1 : (1 ≤ length (_output_host_buffer
                              (_mem_manager short_shadow_harness)))%nat)
    by (vm_compute; lia).
  assert (H2 : (length (_output_host_buffer (_mem_manager short_shadow_harness))
                ≤ length
                    (default []
                       ((_kernel short_shadow_harness example_run
                           (kernel_args (_cl short_shadow_harness))
                           (dev_mem
                              (_cl (resetTempBuffers short_shadow_harness)))).1
                        !! _output (_mem_manager short_shadow_harness))))%nat)
    by (vm_compute; lia).
  assert (H3 : (length (_input_host_buffer (_mem_manager short_shadow_harness))
                < 4)%nat
               ∨ (length (_output_host_buffer
                            (_mem_manager short_shadow_harness)) < 4)%nat)
    by (right; vm_compute; lia).
  split; [exact H1|]. split; [exact H2|]. split; [exact H3|].
  exact (executeRun_no_element example_run 0 short_shadow_harness H1 H2 H3).
Defined.

Lemma benchmark_trials_witness :
  benchmark 10 example_run steady_harness
  = Some (steady_benchmark.1, steady_benchmark.2)
  ∧ List.map (List.map getTime) steady_benchmark.1
    = [[4; 4; 4; 4; 4; 20]; [4; 4; 4; 4; 4; 20]]
  ∧ (∀ (t : nat) trial_recs,
       steady_benchmark.1 !! t = Some trial_recs →
       ∃ times, (1 ≤ length times ≤ 10)%nat
                ∧ trial_records example_run (Z.of_nat t) times trial_recs)
  ∧ launches (calls_since steady_harness steady_benchmark.2)
    = raw_count steady_benchmark.1.
Proof.
  assert (H : benchmark 10 example_run steady_harness
              = Some (steady_benchmark.1, steady_benchmark.2))
    by (vm_compute; reflexivity).
  split; [exact H|]. split; [vm_compute; reflexivity|].
  destruct (benchmark_trials 10 example_run steady_harness
              steady_benchmark.1 steady_benchmark.2 H) as (Hall & Hla & _).
  split; [exact Hall|exact Hla].
Defined.

Lemma check_result_either_shadow_witness :
  executeRun 10 example_run 0 (example_harness 3 1)
  = Some ((example_result 3 10).1, (example_result 3 10).2)
  ∧ length (_input_host_buffer (_mem_manager (example_harness 3 1)))
    = length (_output_host_buffer (_mem_manager (example_harness 3 1)))
  ∧ check_result
      (with_output_host
         (_input_host_buffer (_mem_manager (example_result 3 10).2))
         (example_result 3 10).2)
      [50529027; 50529027]
    = check_result (example_result 3 10).2 [50529027; 50529027].
Proof.
  assert (Hrun : executeRun 10 example_run 0 (example_harness 3 1)
                 = Some ((example_result 3 10).1, (example_result 3 10).2))
    by (vm_compute; reflexivity).
  assert (Hlen : length (_input_host_buffer (_mem_manager (example_harness 3 1)))
                 = length (_output_host_buffer
                             (_mem_manager (example_harness 3 1))))
    by (vm_compute; reflexivity).
  split; [exact Hrun|]. split; [exact Hlen|].
  exact (check_result_either_shadow 10 example_run 0 (example_harness 3 1)
           (example_result 3 10).1 (example_result 3 10).2
           [50529027; 50529027] Hrun Hlen).
Defined.

Lemma benchmark_restores_witness :
  benchmark 10 example_run (example_harness 3 2)
  = Some (example_benchmark.1, example_benchmark.2)
  ∧ NoDup (handles (_mem_manager (example_harness 3 2)))
  ∧ kernel_args (_cl example_benchmark.2)
    = kernel_args (_cl (example_harness 3 2))
  ∧ _args example_benchmark.2 = _args (example_harness 3 2).
Proof.
  assert (H : benchmark 10 example_run (example_harness 3 2)
              = Some (example_benchmark.1, example_benchmark.2))
    by (vm_compute; reflexivity).
  assert (Hh : handles (_mem_manager (example_harness 3 2)) = seq 1 6)
    by (vm_compute; reflexivity).
  assert (Hnd : NoDup (handles (_mem_manager (example_harness 3 2)))).
  { rewrite Hh. apply NoDup_seq. }
  assert (Hi : _input_idx (_mem_manager (example_harness 3 2)) = 2%nat)
    by (vm_compute; reflexivity).
  assert (Ho : _output_idx (_mem_manager (example_harness 3 2)) = 6%nat)
    by (vm_compute; reflexivity).
  split; [exact H|]. split; [exact Hnd|].
  destruct (benchmark_restores 10 example_run (example_harness 3 2)
              example_benchmark.1 example_benchmark.2 H)
    as (Hargs & _ & Ha & _).
  - vm_compute. reflexivity.
  - vm_compute. reflexivity.
  - vm_compute. reflexivity.
  - rewrite Hi. repeat constructor.
  - rewrite Ho. repeat constructor.
  - exact Hnd.
  - split; [exact Hargs|exact Ha].
Defined.

Lemma first_test_after_reset_witness :
  loop_body example_run 1
    (executeRun_init (resetInputs (example_result 1 10).2))
  = Some example_second_trial
  ∧ length (example_result 1 10).1 = 2%nat
  ∧ length (runtimes example_second_trial) = 1%nat
  ∧ ∀ fuel, executeRun (S fuel) example_run 1
              (resetInputs (example_result 1 10).2)
            = Some (runtimes example_second_trial, this example_second_trial).
Proof.
  assert (H : loop_body example_run 1
                (executeRun_init (resetInputs (example_result 1 10).2))
              = Some example_second_trial) by (vm_compute; reflexivity).
  split; [exact H|]. split; [vm_compute; reflexivity|].
  split; [vm_compute; reflexivity|].
  destruct (first_test_after_reset example_run 1 (example_result 1 10).2
              example_second_trial H) as (_ & _ & Hret & _).
  apply Hret. vm_compute. reflexivity.
Defined.

Lemma executeRun_fixed_point_witness :
  fixed_point_at example_run 0 (example_harness 1 2) 2
  ∧ ∃ times h',
      length times = 2%nat
      ∧ (∀ fuel, (2 ≤ fuel)%nat →
           executeRun fuel example_run 0 (example_harness 1 2)
           = Some (raw_records example_run 0 0 times, h'))
      ∧ (∀ fuel, (fuel < 2)%nat →
           executeRun fuel example_run 0 (example_harness 1 2) = None).
Proof.
  split; [exact example_first_fixed_point|].
  assert (Hx : _x_vect (_mem_manager (example_harness 1 2)) = 3%nat)
    by (vm_compute; reflexivity).
  assert (Ho : _output (_mem_manager (example_harness 1 2)) = 5%nat)
    by (vm_compute; reflexivity).
  assert (Ht : _temp_global (_mem_manager (example_harness 1 2)) = [6%nat])
    by (vm_compute; reflexivity).
  apply (executeRun_fixed_point example_run 0 (example_harness 1 2) 2).
  - vm_compute. reflexivity.
  - vm_compute. reflexivity.
  - vm_compute. reflexivity.
  - rewrite Hx, Ht. apply not_elem_of_cons. split; [lia|apply not_elem_of_nil].
  - rewrite Ho, Ht. apply not_elem_of_cons. split; [lia|apply not_elem_of_nil].
  - apply (two_passes example_run 0 (example_harness 1 2)
             (example_first_pass 1) (example_first_pass 2)
             (λ _ s s', length (kernel_output s s')
                        = length (_input_host_buffer
                                    (_mem_manager (example_harness 1 2)))));
      vm_compute; reflexivity.
  - exact example_first_fixed_point.
Defined.
